(** * programs/fileio.c : the streaming file driver of the zstd command line

    A shallow embedding of [FIO_getFileHandles], [FIO_getFileSize],
    [FIO_compressFilename], [FIO_decompressFrame] and
    [FIO_decompressFilename], followed by the properties the specification
    states about them.

    The C code works on the process state (two globals, the file system,
    the standard streams) and leaves through [exit] on every fatal
    condition.  Here the process state is the record [World], a C function
    is a function [World -> outcome A], and [exit(code)] is the outcome
    [Exit code].  Every call that leaves the driver (stdio, the codec, the
    legacy decoder) is recorded in the log of the world, so that "once",
    "in one call" and "without a read" can be stated.  The codec engine
    (zstd_buffered_static.h), the legacy decoder (fileio_legacy.h) and the
    sentinel names (fileio.h) are not part of fileio.c: they are the fields
    of [Collab].

    The three [while (1)] / [for ( ; ; )] loops take a bound [fuel] on their
    iterations and end in [Fuel_out] when it is used up.  Left out: the
    progress display [DISPLAYUPDATE], which depends on [clock] and only
    prints; [free]; and [fclose] of the source, whose result is ignored.

    One named file at a time is open for reading; the world keeps what is
    left to read of it and its name, so that opening the same name for
    writing, which empties the file, leaves nothing to read.  Two names
    for one file are not modelled. *)

From Stdlib Require Import ZArith String List Bool Lia.
From Stdlib Require Import Strings.Byte.
Import ListNotations.
Local Open Scope Z_scope.

(** ** Machine integers *)

(** [size_t] and [U64] are taken as 64-bit unsigned integers and [U32] as a
    32-bit one: a value is a [Z], and the arithmetic of the code is followed
    by the reduction written here. *)
Definition to_size_t (z : Z) : Z := z mod 2 ^ 64.
Definition to_U64 (z : Z) : Z := z mod 2 ^ 64.
Definition to_U32 (z : Z) : Z := z mod 2 ^ 32.

Definition byte_val (b : byte) : Z := Z.of_N (Byte.to_N b).

(** Modelled from the spec: [MEM_readLE32] is declared in mem.h, which is
    not among the sources; the specification says the four leading bytes
    are "interpreted as a little-endian unsigned integer". *)
Definition MEM_readLE32 (p : list byte) : Z :=
  Z.lor (byte_val (nth 0 p x00))
    (Z.lor (Z.shiftl (byte_val (nth 1 p x00)) 8)
       (Z.lor (Z.shiftl (byte_val (nth 2 p x00)) 16)
          (Z.shiftl (byte_val (nth 3 p x00)) 24))).

(** ** Buffers *)

(** A buffer obtained from [malloc] is the list of its bytes.  [store] is
    what [fread] does to it: the bytes read replace the front of the buffer
    (a read longer than the buffer would run past its end in C; the list
    grows instead). *)
Definition store (data buf : list byte) : list byte :=
  data ++ skipn (length data) buf.

(** The bytes a callee may look at when it is handed the pointer
    [buf + start] together with the length [size]. *)
Definition view (buf : list byte) (start size : Z) : list byte :=
  firstn (Z.to_nat size) (skipn (Z.to_nat start) buf).

Definition len (l : list byte) : Z := Z.of_nat (length l).

(** ** The process state *)

(** A [FILE*] that is not null. *)
Inductive FILE : Type :=
| f_stdin
| f_stdout
| f_null                     (* the discard sink behind [nulmark] *)
| f_named (name : string).

(** What the program prints on stderr, without the formatting. *)
Inductive message : Type :=
| msg_using_stdin
| msg_using_stdout
| msg_already_exists (name : string)      (* "Warning : %s already exists" *)
| msg_overwrite_prompt                    (* "Overwrite ? (Y/N) : " *)
| msg_error (error : Z)                   (* "Error %i : " and its text *)
| msg_clear_line
| msg_compressed (filesize compressedfilesize : Z)
| msg_decoded (filesize : Z).

(** The calls that leave the driver, in the order they happen. *)
Inductive event : Type :=
| ev_display (m : message)
| ev_getchar
| ev_fopen (name : string) (for_writing : bool)
| ev_fread (f : FILE) (asked : Z) (got : list byte)
| ev_fwrite (f : FILE) (data : list byte) (written : Z)
| ev_compressContinue (src dst : list byte) (used result : Z)
| ev_compressEnd (dst : list byte) (result : Z)
| ev_decompressInit
| ev_decompressContinue (src dst : list byte) (used result : Z)
| ev_legacyFrame (magic : Z).

Record World : Type := mkWorld {
  g_displayLevel : Z;                  (* static U32 g_displayLevel *)
  g_overwrite : bool;                  (* static U32 g_overwrite, 0 or 1 *)
  fs : list (string * list byte);      (* the regular files, by name *)
  wprotect : list string;              (* names fopen(.., "wb") fails on *)
  stdin_rest : list byte;              (* what stdin still holds *)
  stdout_data : list byte;             (* what was written to stdout *)
  src_rest : list byte;                (* unread part of the file opened "rb" *)
  src_name : option string;            (* the name of that file, once opened *)
  room : Z;                            (* bytes the destination still takes *)
  heap_ok : bool;                      (* malloc succeeds *)
  fclose_ok : bool;                    (* fclose of the destination succeeds *)
  log : list event
}.

Definition set_log (l : list event) (w : World) : World :=
  mkWorld (g_displayLevel w) (g_overwrite w) (fs w) (wprotect w)
    (stdin_rest w) (stdout_data w) (src_rest w) (src_name w) (room w) (heap_ok w)
    (fclose_ok w) l.

Definition set_fs (x : list (string * list byte)) (w : World) : World :=
  mkWorld (g_displayLevel w) (g_overwrite w) x (wprotect w)
    (stdin_rest w) (stdout_data w) (src_rest w) (src_name w) (room w) (heap_ok w)
    (fclose_ok w) (log w).

Definition set_stdin_rest (x : list byte) (w : World) : World :=
  mkWorld (g_displayLevel w) (g_overwrite w) (fs w) (wprotect w)
    x (stdout_data w) (src_rest w) (src_name w) (room w) (heap_ok w)
    (fclose_ok w) (log w).

Definition set_stdout_data (x : list byte) (w : World) : World :=
  mkWorld (g_displayLevel w) (g_overwrite w) (fs w) (wprotect w)
    (stdin_rest w) x (src_rest w) (src_name w) (room w) (heap_ok w)
    (fclose_ok w) (log w).

Definition set_src_rest (x : list byte) (w : World) : World :=
  mkWorld (g_displayLevel w) (g_overwrite w) (fs w) (wprotect w)
    (stdin_rest w) (stdout_data w) x (src_name w) (room w) (heap_ok w)
    (fclose_ok w) (log w).

Definition set_src_name (x : option string) (w : World) : World :=
  mkWorld (g_displayLevel w) (g_overwrite w) (fs w) (wprotect w)
    (stdin_rest w) (stdout_data w) (src_rest w) x (room w) (heap_ok w)
    (fclose_ok w) (log w).

Definition set_room (x : Z) (w : World) : World :=
  mkWorld (g_displayLevel w) (g_overwrite w) (fs w) (wprotect w)
    (stdin_rest w) (stdout_data w) (src_rest w) (src_name w) x (heap_ok w)
    (fclose_ok w) (log w).

Definition set_overwrite (x : bool) (w : World) : World :=
  mkWorld (g_displayLevel w) x (fs w) (wprotect w)
    (stdin_rest w) (stdout_data w) (src_rest w) (src_name w) (room w) (heap_ok w)
    (fclose_ok w) (log w).

Definition set_displayLevel (x : Z) (w : World) : World :=
  mkWorld x (g_overwrite w) (fs w) (wprotect w)
    (stdin_rest w) (stdout_data w) (src_rest w) (src_name w) (room w) (heap_ok w)
    (fclose_ok w) (log w).

Definition emit (e : event) (w : World) : World := set_log (log w ++ [e]) w.

(** The file system is an association list; a name occurs at most once
    after [fs_store]. *)
Fixpoint fs_lookup (name : string) (l : list (string * list byte))
  : option (list byte) :=
  match l with
  | [] => None
  | (n, c) :: l' => if String.eqb name n then Some c else fs_lookup name l'
  end.

Fixpoint fs_store (name : string) (c : list byte)
  (l : list (string * list byte)) : list (string * list byte) :=
  match l with
  | [] => [(name, c)]
  | (n, c0) :: l' =>
      if String.eqb name n then (n, c) :: l' else (n, c0) :: fs_store name c l'
  end.

Definition mem_name (name : string) (l : list string) : bool :=
  existsb (String.eqb name) l.

(** ** Computations that may exit *)

Inductive outcome (A : Type) : Type :=
| Ok (a : A) (w : World)          (* the call returns [a] *)
| Exit (code : Z) (w : World)     (* the process has called exit(code) *)
| Fuel_out (w : World).           (* the loop bound of the model ran out *)
Arguments Ok {A} a w.
Arguments Exit {A} code w.
Arguments Fuel_out {A} w.

Definition M (A : Type) : Type := World -> outcome A.

Definition ret {A} (a : A) : M A := fun w => Ok a w.

Definition bind {A B} (m : M A) (k : A -> M B) : M B :=
  fun w =>
    match m w with
    | Ok a w' => k a w'
    | Exit c w' => Exit c w'
    | Fuel_out w' => Fuel_out w'
    end.

Declare Scope fio_scope.
Delimit Scope fio_scope with fio.
Notation "x <- m ;; k" := (bind m (fun x => k))
  (at level 100, m at next level, right associativity) : fio_scope.
Notation "' pat <- m ;; k" := (bind m (fun x => match x with pat => k end))
  (at level 100, pat pattern, m at next level, right associativity) : fio_scope.
Notation "m ;; k" := (bind m (fun _ => k))
  (at level 100, right associativity) : fio_scope.
Local Open Scope fio_scope.

(** The world an outcome ends in. *)
Definition final {A} (o : outcome A) : World :=
  match o with Ok _ w => w | Exit _ w => w | Fuel_out w => w end.

(** ** The macros and the C library *)

(** [#define DISPLAYLEVEL(l, ...) if (g_displayLevel>=l) { DISPLAY(__VA_ARGS__); }] *)
Definition DISPLAYLEVEL (l : Z) (m : message) : M unit :=
  fun w => Ok tt (if l <=? g_displayLevel w then emit (ev_display m) w else w).

(** [EXM_THROW(error, ...)]: the message at level 1, then [exit(error)]. *)
Definition EXM_THROW {A} (error : Z) : M A :=
  fun w => Exit error (final (DISPLAYLEVEL 1 (msg_error error) w)).

Definition out_of_fuel {A} : M A := fun w => Fuel_out w.

(** [void FIO_overwriteMode(void) { g_overwrite=1; }] *)
Definition FIO_overwriteMode : M unit := fun w => Ok tt (set_overwrite true w).

(** [void FIO_setNotificationLevel(unsigned level) { g_displayLevel=level; }] *)
Definition FIO_setNotificationLevel (level : Z) : M unit :=
  fun w => Ok tt (set_displayLevel (to_U32 level) w).

(** [malloc(size)]: the block, or null. *)
Definition malloc (size : Z) : M (option (list byte)) :=
  fun w => Ok (if heap_ok w then Some (repeat x00 (Z.to_nat size)) else None) w.

(** [(char)getchar()]: the next byte of stdin; at end of input [EOF] is
    returned, which the cast turns into the byte 0xFF. *)
Definition getchar : M byte :=
  fun w =>
    match stdin_rest w with
    | [] => Ok xff (emit ev_getchar w)
    | c :: rest => Ok c (emit ev_getchar (set_stdin_rest rest w))
    end.

(** [fopen(name, "rb")]: null when there is no such file. *)
Definition fopen_rb (name : string) : M (option FILE) :=
  fun w =>
    match fs_lookup name (fs w) with
    | Some c =>
        Ok (Some (f_named name))
          (emit (ev_fopen name false)
             (set_src_name (Some name) (set_src_rest c w)))
    | None => Ok None (emit (ev_fopen name false) w)
    end.

(** [fopen(name, "rb")] followed at once by [fclose]: only whether the
    file could be opened is observed. *)
Definition file_exists (name : string) : M bool :=
  fun w =>
    Ok (match fs_lookup name (fs w) with Some _ => true | None => false end)
       (emit (ev_fopen name false) w).

(** [fread(buf, 1, n, f)]: the bytes obtained, at most [n]; fewer only at
    the end of the stream. *)
Definition fread (n : Z) (f : FILE) : M (list byte) :=
  fun w =>
    match f with
    | f_stdin =>
        let got := firstn (Z.to_nat n) (stdin_rest w) in
        Ok got (emit (ev_fread f n got)
                  (set_stdin_rest (skipn (Z.to_nat n) (stdin_rest w)) w))
    | f_named _ =>
        let got := firstn (Z.to_nat n) (src_rest w) in
        Ok got (emit (ev_fread f n got)
                  (set_src_rest (skipn (Z.to_nat n) (src_rest w)) w))
    | _ => Ok [] (emit (ev_fread f n []) w)
    end.

(** Appending to a stream opened for writing. *)
Definition append_to (f : FILE) (data : list byte) (w : World) : World :=
  match f with
  | f_stdout => set_stdout_data (stdout_data w ++ data) w
  | f_named name =>
      match fs_lookup name (fs w) with
      | Some c => set_fs (fs_store name (c ++ data) (fs w)) w
      | None => set_fs (fs_store name data (fs w)) w
      end
  | _ => w
  end.

(** [fwrite(data, 1, len data, f)]: the count written, which is short when
    the destination has less room than that. *)
Definition fwrite (data : list byte) (f : FILE) : M Z :=
  fun w =>
    match f with
    | f_stdin => Ok 0 (emit (ev_fwrite f data 0) w)
    | f_null => Ok (len data) (emit (ev_fwrite f data (len data)) w)
    | _ =>
        if len data <=? room w
        then Ok (len data)
               (emit (ev_fwrite f data (len data))
                  (set_room (room w - len data) (append_to f data w)))
        else
          let part := firstn (Z.to_nat (room w)) data in
          Ok (len part)
            (emit (ev_fwrite f data (len part))
               (set_room (room w - len part) (append_to f part w)))
    end.

(** [fclose(foutput)]: true when it reports a failure. *)
Definition fclose_output : M bool := fun w => Ok (negb (fclose_ok w)) w.

(** ** The collaborators *)

(** What an incremental codec call hands back through its pointer
    arguments and its return value: the bytes it stored into [dst] (their
    number is the new [*dstCapacityPtr]), the new [*srcSizePtr], and the
    returned [size_t]. *)
Record step : Type := mkStep {
  st_dst : list byte;
  st_used : Z;
  st_result : Z
}.

(** Everything fileio.c takes from other files: the sentinel names of
    fileio.h, the buffered codec of zstd_buffered_static.h and
    zstd_static.h, and the legacy support of zstd_legacy.h and
    fileio_legacy.h.  A codec context is passed by pointer and updated in
    place in C; here every call returns the new context. *)
Record Collab : Type := mkCollab {
  stdinmark : string;
  stdoutmark : string;
  nulmark : string;
  CCtx : Type;
  DCtx : Type;
  ZSTD_parameters : Type;
  ZBUFF_recommendedCInSize : Z;
  ZBUFF_recommendedCOutSize : Z;
  ZBUFF_recommendedDInSize : Z;
  ZBUFF_recommendedDOutSize : Z;
  ZBUFF_isError : Z -> bool;
  ZBUFF_createCCtx : option CCtx;                       (* [None] is null *)
  ZSTD_getParams : Z -> Z -> ZSTD_parameters;
  ZBUFF_compressInit_advanced : CCtx -> ZSTD_parameters -> CCtx * Z;
  ZBUFF_compressContinue : CCtx -> Z -> list byte -> CCtx * step;
  ZBUFF_compressEnd : CCtx -> Z -> CCtx * (list byte * Z);
  ZBUFF_createDCtx : DCtx;
  ZBUFF_decompressInit : DCtx -> DCtx;
  ZBUFF_decompressContinue : DCtx -> Z -> list byte -> DCtx * step;
  ZSTD_isLegacy : Z -> bool;
  FIO_decompressLegacyFrame : FILE -> FILE -> Z -> M Z
}.

Section Driver.

Variable K : Collab.

(** Emptying the file [name] empties what the stream opened "rb" has left
    to read, when that stream is on the same file. *)
Definition truncate_source (name : string) (w : World) : World :=
  match src_name w with
  | Some n => if String.eqb n name then set_src_rest [] w else w
  | None => w
  end.

(** [fopen(name, "wb")]: null on a protected name; otherwise the file is
    created or truncated.  Modelled from the spec: the null sentinel opens
    "a discard sink for write". *)
Definition fopen_wb (name : string) : M (option FILE) :=
  fun w =>
    if mem_name name (wprotect w) then Ok None (emit (ev_fopen name true) w)
    else if String.eqb name (nulmark K)
    then Ok (Some f_null) (emit (ev_fopen name true) w)
    else Ok (Some (f_named name))
           (emit (ev_fopen name true)
              (set_fs (fs_store name [] (fs w)) (truncate_source name w))).

(** The codec calls, recorded in the log. *)
Definition compressContinue (ctx : CCtx K) (dstCapacity : Z) (src : list byte)
  : M (CCtx K * step) :=
  fun w =>
    let r := ZBUFF_compressContinue K ctx dstCapacity src in
    Ok r (emit (ev_compressContinue src (st_dst (snd r)) (st_used (snd r))
                  (st_result (snd r))) w).

Definition compressEnd (ctx : CCtx K) (dstCapacity : Z)
  : M (CCtx K * (list byte * Z)) :=
  fun w =>
    let r := ZBUFF_compressEnd K ctx dstCapacity in
    Ok r (emit (ev_compressEnd (fst (snd r)) (snd (snd r))) w).

Definition decompressInit (dctx : DCtx K) : M (DCtx K) :=
  fun w => Ok (ZBUFF_decompressInit K dctx) (emit ev_decompressInit w).

Definition decompressContinue (dctx : DCtx K) (dstCapacity : Z)
  (src : list byte) : M (DCtx K * step) :=
  fun w =>
    let r := ZBUFF_decompressContinue K dctx dstCapacity src in
    Ok r (emit (ev_decompressContinue src (st_dst (snd r)) (st_used (snd r))
                  (st_result (snd r))) w).

Definition decompressLegacyFrame (foutput finput : FILE) (magic : Z) : M Z :=
  fun w => FIO_decompressLegacyFrame K foutput finput magic
             (emit (ev_legacyFrame magic) w).

(** ** FIO_getFileHandles (fileio.c, lines 177-220) *)

(** The block under "Check if destination file already exists", entered
    when the probe has found the file. *)
Definition overwrite_gate (output_filename : string) : M unit :=
  fun w =>
    if negb (g_overwrite w) then
      if g_displayLevel w <=? 1                 (* No interaction possible *)
      then EXM_THROW 11 w
      else
        (DISPLAYLEVEL 2 (msg_already_exists output_filename) ;;
         DISPLAYLEVEL 2 msg_overwrite_prompt ;;
         ch <- getchar ;;
         if negb (Byte.eqb ch x59) && negb (Byte.eqb ch x79)   (* 'Y', 'y' *)
         then EXM_THROW 11
         else ret tt) w
    else Ok tt w.

Definition FIO_getFileHandles (input_filename output_filename : string)
  : M (FILE * FILE) :=
  pfinput <-
    (if String.eqb input_filename (stdinmark K)
     then (DISPLAYLEVEL 4 msg_using_stdin ;; ret (Some f_stdin))
     else fopen_rb input_filename) ;;
  pfoutput <-
    (if String.eqb output_filename (stdoutmark K)
     then (DISPLAYLEVEL 4 msg_using_stdout ;; ret (Some f_stdout))
     else
       (found <- (if negb (String.eqb output_filename (nulmark K))
                  then file_exists output_filename
                  else ret false) ;;
        (if found then overwrite_gate output_filename else ret tt) ;;
        fopen_wb output_filename)) ;;
  match pfinput, pfoutput with
  | None, _ => EXM_THROW 12
  | _, None => EXM_THROW 13
  | Some finput, Some foutput => ret (finput, foutput)
  end.

(** ** FIO_getFileSize (lines 223-235): the size of a regular file, 0 when
    [stat] fails. *)
Definition FIO_getFileSize (infilename : string) : M Z :=
  fun w =>
    Ok (match fs_lookup infilename (fs w) with
        | Some c => to_U64 (len c)
        | None => 0
        end) w.


(** ** FIO_compressFilename (lines 238-319) *)

(** The "Main compression loop".  [while (1)] is bounded by [fuel]; the
    loop leaves with the context and the two byte counters.  The progress
    display ([DISPLAYUPDATE]) depends on [clock] and is left out. *)
Fixpoint compress_loop (fuel : nat) (ctx : CCtx K) (finput foutput : FILE)
  (inBuff : list byte) (inBuffSize outBuffSize : Z)
  (filesize compressedfilesize : Z) : M (CCtx K * Z * Z) :=
  match fuel with
  | O => out_of_fuel
  | S fuel' =>
      (* Fill input Buffer *)
      got <- fread inBuffSize finput ;;
      let inBuff := store got inBuff in
      let inSize := len got in
      if inSize =? 0 then ret (ctx, filesize, compressedfilesize)
      else
        let filesize := to_U64 (filesize + inSize) in
        (* Compress *)
        r <- compressContinue ctx outBuffSize (view inBuff 0 inSize) ;;
        let ctx := fst r in
        let usedInSize := st_used (snd r) in
        let cSize := len (st_dst (snd r)) in
        let result := st_result (snd r) in
        if ZBUFF_isError K result then EXM_THROW 23
        else if negb (inSize =? usedInSize) then EXM_THROW 24
        else
          (* Write cBlock *)
          sizeCheck <- fwrite (st_dst (snd r)) foutput ;;
          if negb (sizeCheck =? cSize) then EXM_THROW 25
          else
            compress_loop fuel' ctx finput foutput inBuff inBuffSize
              outBuffSize filesize (to_U64 (compressedfilesize + cSize))
  end.

(** The block under "End of Frame". *)
Definition compress_end_of_frame (ctx : CCtx K) (foutput : FILE)
  (outBuffSize compressedfilesize : Z) : M (CCtx K * Z) :=
  r <- compressEnd ctx outBuffSize ;;
  let cSize := len (fst (snd r)) in
  let result := snd (snd r) in
  if negb (result =? 0) then EXM_THROW 26
  else
    sizeCheck <- fwrite (fst (snd r)) foutput ;;
    if negb (sizeCheck =? cSize) then EXM_THROW 27
    else ret (fst r, to_U64 (compressedfilesize + cSize)).

Definition FIO_compressFilename (fuel : nat)
  (output_filename input_filename : string) (cLevel : Z) : M Z :=
  let inBuffSize := ZBUFF_recommendedCInSize K in
  let outBuffSize := ZBUFF_recommendedCOutSize K in
  (* Allocate Memory *)
  let ctx := ZBUFF_createCCtx K in
  inBuff <- malloc inBuffSize ;;
  outBuff <- malloc outBuffSize ;;
  match inBuff, outBuff, ctx with
  | Some inBuff, Some _, Some ctx =>
      (* init *)
      handles <- FIO_getFileHandles input_filename output_filename ;;
      let finput := fst handles in
      let foutput := snd handles in
      filesize <- FIO_getFileSize input_filename ;;
      let init := ZBUFF_compressInit_advanced K ctx
                    (ZSTD_getParams K cLevel filesize) in
      if ZBUFF_isError K (snd init) then EXM_THROW 22
      else
        let filesize := 0 in
        main <- compress_loop fuel (fst init) finput foutput inBuff
                  inBuffSize outBuffSize filesize 0 ;;
        let filesize := snd (fst main) in
        fin <- compress_end_of_frame (fst (fst main)) foutput outBuffSize
                 (snd main) ;;
        let compressedfilesize := snd fin in
        (* Status *)
        DISPLAYLEVEL 2 msg_clear_line ;;
        DISPLAYLEVEL 2 (msg_compressed filesize compressedfilesize) ;;
        (* clean *)
        failed <- fclose_output ;;
        if failed then EXM_THROW 28
        else ret compressedfilesize
  | _, _, _ => EXM_THROW 21
  end.

(** ** FIO_decompressFrame (lines 323-360) *)

(** The "Main decompression Loop".  [inStart] is declared inside the loop
    body, so every iteration starts from [inStart = 0]; the value given to
    it after the call is never read.  Beside the frame size the model
    returns the context and the input buffer, which the C function updates
    through its pointers. *)
Fixpoint decompress_loop (fuel : nat) (foutput finput : FILE)
  (inBuff : list byte) (inBuffSize outBuffSize : Z) (dctx : DCtx K)
  (frameSize readSize : Z) : M (Z * DCtx K * list byte) :=
  match fuel with
  | O => out_of_fuel
  | S fuel' =>
      (* Decode *)
      let inSize := readSize in
      let inStart := 0 in
      r <- decompressContinue dctx outBuffSize (view inBuff inStart inSize) ;;
      let dctx := fst r in
      let toRead := st_result (snd r) in
      let inSize := st_used (snd r) in
      let decodedSize := len (st_dst (snd r)) in
      if ZBUFF_isError K toRead then EXM_THROW 36
      else
        let readSize := to_size_t (readSize - inSize) in
        let inStart := to_size_t (inStart + inSize) in
        (* Write block *)
        sizeCheck <- fwrite (st_dst (snd r)) foutput ;;
        if negb (sizeCheck =? decodedSize) then EXM_THROW 37
        else
          let frameSize := to_U64 (frameSize + decodedSize) in
          if toRead =? 0 then ret (frameSize, dctx, inBuff)
          else if negb (readSize =? 0)   (* still some data left within inBuff *)
          then decompress_loop fuel' foutput finput inBuff inBuffSize
                 outBuffSize dctx frameSize readSize
          else
            (* Fill input buffer *)
            if inBuffSize <? toRead then EXM_THROW 34
            else
              got <- fread toRead finput ;;
              let inBuff := store got inBuff in
              let readSize := len got in
              if negb (readSize =? toRead) then EXM_THROW 35
              else decompress_loop fuel' foutput finput inBuff inBuffSize
                     outBuffSize dctx frameSize readSize
  end.

Definition FIO_decompressFrame (fuel : nat) (foutput finput : FILE)
  (inBuff : list byte) (inBuffSize alreadyLoaded outBuffSize : Z)
  (dctx : DCtx K) : M (Z * DCtx K * list byte) :=
  let frameSize := 0 in
  let readSize := alreadyLoaded in
  dctx <- decompressInit dctx ;;
  decompress_loop fuel foutput finput inBuff inBuffSize outBuffSize dctx
    frameSize readSize.

(** ** FIO_decompressFilename (lines 363-414), with [ZSTD_LEGACY_SUPPORT]
    at its default 1 *)

(** The loop "for each frame". *)
Fixpoint frames_loop (fuel : nat) (foutput finput : FILE)
  (inBuff : list byte) (inBuffSize outBuffSize : Z) (dctx : DCtx K)
  (filesize : Z) : M Z :=
  match fuel with
  | O => out_of_fuel
  | S fuel' =>
      (* check magic number -> version *)
      let toRead := 4 in
      got <- fread toRead finput ;;
      let inBuff := store got inBuff in
      let sizeCheck := len got in
      if sizeCheck =? 0 then ret filesize   (* no more input *)
      else if negb (sizeCheck =? toRead) then EXM_THROW 31
      else if ZSTD_isLegacy K (MEM_readLE32 inBuff)
      then
        n <- decompressLegacyFrame foutput finput (MEM_readLE32 inBuff) ;;
        frames_loop fuel' foutput finput inBuff inBuffSize outBuffSize dctx
          (to_U64 (filesize + n))
      else
        fr <- FIO_decompressFrame fuel' foutput finput inBuff inBuffSize
                toRead outBuffSize dctx ;;
        frames_loop fuel' foutput finput (snd fr) inBuffSize outBuffSize
          (snd (fst fr)) (to_U64 (filesize + fst (fst fr)))
  end.

Definition FIO_decompressFilename (fuel : nat)
  (output_filename input_filename : string) : M Z :=
  let inBuffSize := ZBUFF_recommendedDInSize K in
  let outBuffSize := ZBUFF_recommendedDOutSize K in
  (* Init *)
  let dctx := ZBUFF_createDCtx K in
  handles <- FIO_getFileHandles input_filename output_filename ;;
  let finput := fst handles in
  let foutput := snd handles in
  (* Allocate Memory (if needed) *)
  inBuff <- malloc inBuffSize ;;
  outBuff <- malloc outBuffSize ;;
  match inBuff, outBuff with
  | Some inBuff, Some _ =>
      filesize <- frames_loop fuel foutput finput inBuff inBuffSize
                    outBuffSize dctx 0 ;;
      DISPLAYLEVEL 2 msg_clear_line ;;
      DISPLAYLEVEL 2 (msg_decoded filesize) ;;
      (* clean *)
      failed <- fclose_output ;;
      if failed then EXM_THROW 38
      else ret filesize
  | _, _ => EXM_THROW 33
  end.

End Driver.

(** ** Stand-in collaborators

    Small deterministic codecs behind the [Collab] interface, to run the
    drivers on concrete streams. *)

Fixpoint bytes_eqb (a b : list byte) : bool :=
  match a, b with
  | [], [] => true
  | x :: a', y :: b' => Byte.eqb x y && bytes_eqb a' b'
  | _, _ => false
  end.

Definition byte_of (z : Z) : byte :=
  match Byte.of_N (Z.to_N z) with Some b => b | None => x00 end.

(** The three legacy magic numbers of zstd 0.1, 0.2 and 0.3. *)
Definition legacy_magic (magic : Z) : bool :=
  (magic =? 0xFD2FB51E) || (magic =? 0xFD2FB522) || (magic =? 0xFD2FB523).

(** A legacy frame of the stand-in: after the magic number one length byte
    and that many raw bytes. *)
Definition legacy_raw (foutput finput : FILE) (magic : Z) : M Z :=
  (hdr <- fread 1 finput ;;
   match hdr with
   | [n] =>
       got <- fread (byte_val n) finput ;;
       if negb (len got =? byte_val n) then EXM_THROW 41
       else
         sizeCheck <- fwrite got foutput ;;
         if negb (sizeCheck =? len got) then EXM_THROW 42 else ret (len got)
   | _ => EXM_THROW 41
   end)%fio.

Definition code_is_error (code : Z) : bool := 2 ^ 64 - 64 <? code.
Definition error_code : Z := 2 ^ 64 - 1.

Module Store.

(** The "store" codec: a frame is the magic "STOR", then blocks of one
    length byte (1 to 8) followed by that many raw bytes, then a zero
    byte. *)
Definition magic : list byte := [x53; x54; x4f; x52].

Inductive stage : Type :=
| at_magic
| at_header
| at_block (n : Z)
| at_end.

Definition prefix (started : bool) : list byte :=
  if started then [] else magic.

(** The encoder takes at most [limit] bytes in one call. *)
Definition cc (limit : Z) (started : bool) (dstCapacity : Z)
  (src : list byte) : bool * step :=
  let part := firstn (Z.to_nat limit) src in
  (true, mkStep (prefix started ++ byte_of (len part) :: part) (len part) 0).

(** With [lazy] set the first flush call of a frame that has not started
    emits the magic only and reports one byte still to flush. *)
Definition cend (lazy started : bool) (dstCapacity : Z)
  : bool * (list byte * Z) :=
  if lazy && negb started then (true, (magic, 1))
  else (true, (prefix started ++ [x00], 0)).

Definition failed (s : stage) : stage * step := (s, mkStep [] 0 error_code).

Definition dc (s : stage) (dstCapacity : Z) (src : list byte) : stage * step :=
  match s with
  | at_magic =>
      if bytes_eqb src magic then (at_header, mkStep [] 4 1) else failed s
  | at_header =>
      match src with
      | [b] =>
          if byte_val b =? 0 then (at_end, mkStep [] 1 0)
          else (at_block (byte_val b), mkStep [] 1 (byte_val b))
      | _ => failed s
      end
  | at_block n =>
      if len src =? n then (at_header, mkStep src n 1) else failed s
  | at_end => failed s
  end.

Definition collab (limit : Z) (lazy : bool) : Collab :=
  mkCollab "stdin" "stdout" "/dev/null" bool stage unit
    8 16 8 8 code_is_error
    (Some false) (fun _ _ => tt) (fun ctx _ => (ctx, 0))
    (cc limit) (cend lazy)
    at_magic (fun _ => at_magic) dc
    legacy_magic legacy_raw.

End Store.

Module Echo.

(** A decoder that makes partial progress: a frame is four raw bytes, and
    every call takes one byte from the front of what it is given, copies it
    to the output, and reports how many bytes of the frame are still
    missing. *)
Definition dc (missing : Z) (dstCapacity : Z) (src : list byte) : Z * step :=
  match src with
  | [] => (missing, mkStep [] 0 missing)
  | b :: _ => (missing - 1, mkStep [b] 1 (missing - 1))
  end.

Definition collab : Collab :=
  mkCollab "stdin" "stdout" "/dev/null" bool Z unit
    8 16 8 8 code_is_error
    (Some false) (fun _ _ => tt) (fun ctx _ => (ctx, 0))
    (Store.cc 8) (Store.cend false)
    4 (fun _ => 4) dc
    legacy_magic legacy_raw.

End Echo.

(** A world with the given files, an output device of 2^32 bytes, a
    working heap and nothing on the standard streams. *)
Definition world_of (level : Z) (overwrite : bool)
  (files : list (string * list byte)) : World :=
  mkWorld level overwrite files [] [] [] [] None (2 ^ 32) true true [].

(** * The vocabulary of the properties *)

(** ** Logs *)

(** [extends w w'] : the log of [w'] is the log of [w] followed by new
    events. *)
Definition extends (w w' : World) : Prop := exists evs, log w' = log w ++ evs.

(** [emits P m] : whatever way [m] ends, the log it leaves is the log it
    found followed by events that all satisfy [P]. *)
Definition emits (P : event -> Prop) {A} (m : M A) : Prop :=
  forall w, exists evs, log (final (m w)) = log w ++ evs /\ Forall P evs.

(** What [EXM_THROW] leaves behind, and the message it prints if the level
    lets it. *)
Definition thrown (error : Z) (w : World) : World :=
  if 1 <=? g_displayLevel w then emit (ev_display (msg_error error)) w else w.

Definition thrown_events (error : Z) (w : World) : list event :=
  if 1 <=? g_displayLevel w then [ev_display (msg_error error)] else [].

(** The events by which the user is asked for a confirmation. *)
Definition asks (e : event) : bool :=
  match e with
  | ev_getchar => true
  | ev_display msg_overwrite_prompt => true
  | ev_display (msg_already_exists _) => true
  | _ => false
  end.

Definition no_ask (e : event) : Prop := asks e = false.

(** The events of the set-up and of the status display. *)
Definition is_setup (e : event) : bool :=
  match e with
  | ev_display _ | ev_getchar | ev_fopen _ _ => true
  | _ => false
  end.

Definition setup_event (e : event) : Prop := is_setup e = true.

(** The calls of "compress end", and how many there were. *)
Definition is_compressEnd (e : event) : bool :=
  match e with ev_compressEnd _ _ => true | _ => false end.

Definition no_flush (e : event) : Prop := is_compressEnd e = false.

Definition flushes (evs : list event) : nat :=
  length (filter is_compressEnd evs).



(** [flushes_at_most n m] : whatever way [m] ends, it has called
    "compress end" at most [n] times. *)
Definition flushes_at_most (n : nat) {A} (m : M A) : Prop :=
  forall w,
    exists evs, log (final (m w)) = log w ++ evs /\ (flushes evs <= n)%nat.

(** The inputs of the "compress continue" calls, in order. *)
Fixpoint fed (evs : list event) : list (list byte) :=
  match evs with
  | [] => []
  | ev_compressContinue src _ _ _ :: t => src :: fed t
  | _ :: t => fed t
  end.

(** The chunks that reads have brought, in order; a read that brings
    nothing brings no chunk. *)
Fixpoint chunks_read (evs : list event) : list (list byte) :=
  match evs with
  | [] => []
  | ev_fread _ _ got :: t =>
      if len got =? 0 then chunks_read t else got :: chunks_read t
  | _ :: t => chunks_read t
  end.


(** The number of bytes [fwrite] has reported as written. *)
Fixpoint written (evs : list event) : Z :=
  match evs with
  | [] => 0
  | ev_fwrite _ _ k :: t => k + written t
  | _ :: t => written t
  end.

(** The inputs of the "decompress continue" calls, in order. *)
Fixpoint decoder_inputs (evs : list event) : list (list byte) :=
  match evs with
  | [] => []
  | ev_decompressContinue src _ _ _ :: t => src :: decoder_inputs t
  | _ :: t => decoder_inputs t
  end.

(** ** Streams and files *)

(** What a stream opened for reading still holds. *)
Definition pending_input (f : FILE) (w : World) : list byte :=
  match f with
  | f_stdin => stdin_rest w
  | f_named _ => src_rest w
  | _ => []
  end.

(** [narrows w w'] : between [w] and [w'] nothing was added to the streams
    open for reading. *)
Definition narrows (w w' : World) : Prop :=
  (length (stdin_rest w') <= length (stdin_rest w))%nat
  /\ (src_rest w' = src_rest w \/ src_rest w' = []).

Definition keeps_input {A} (m : M A) : Prop :=
  forall w, narrows w (final (m w)).

(** An upper bound on the bytes [FIO_compressFilename] can read: what
    stdin holds and what the file of that name holds. *)
Definition input_bound (input_filename : string) (w : World) : nat :=
  length (stdin_rest w)
  + length (match fs_lookup input_filename (fs w) with
            | Some c => c
            | None => []
            end).

(** [total m] : [m] never stops for lack of fuel. *)
Definition total {A} (m : M A) : Prop := forall w w', m w <> Fuel_out w'.

(** [evolves name data w w'] : from [w] to [w'] the bytes [data] were
    appended to the file [name], and nothing else that matters to a later
    run has changed. *)
Record evolves (name : string) (data : list byte) (w w' : World) : Prop :=
  mkEvolves {
  grow_file : forall old, fs_lookup name (fs w) = Some old ->
                          fs_lookup name (fs w') = Some (old ++ data);
  grow_others : forall other, String.eqb other name = false ->
                              fs_lookup other (fs w') = fs_lookup other (fs w);
  grow_room : room w' = room w - len data;
  grow_heap : heap_ok w' = heap_ok w;
  grow_fclose : fclose_ok w' = fclose_ok w;
  grow_wprotect : wprotect w' = wprotect w;
  grow_level : g_displayLevel w' = g_displayLevel w
}.

(** ** Concrete inputs *)

(** A source of ten bytes, the frame the store codec makes of it, and an
    empty source. *)
Definition ten_bytes : list byte :=
  [x01; x02; x03; x04; x05; x06; x07; x08; x09; x0a].

Definition ten_bytes_frame : list byte :=
  [x53; x54; x4f; x52; x08; x01; x02; x03; x04; x05; x06; x07; x08;
   x02; x09; x0a; x00].

Definition demo_world : World := world_of 2 false [("in"%string, ten_bytes)].

Definition empty_world : World := world_of 2 false [("in"%string, [])].

(** The frame "ABCD" in the input buffer, before the echo decoder, which
    takes one byte per call. *)
Definition echo_world : World :=
  set_src_rest [] (world_of 2 false [("out"%string, [])]).

Definition echo_run : outcome (Z * Z * list byte) :=
  FIO_decompressFrame Echo.collab 4 (f_named "out") (f_named "c")
    (store [x41; x42; x43; x44] (repeat x00 8)) 8 4 8 4 echo_world.

(** ** The round trip *)

Section Protocol.

Variable K : Collab.

(** The specification's compression algorithm (4.2, steps 3 and 4) on the
    engine alone: the source is cut into chunks of the recommended input
    size, every chunk must be consumed whole by one "compress continue"
    call, and one "compress end" call returning 0 closes the frame.  The
    result is the frame, or [None] when the engine departs from that. *)
Fixpoint spec_encode_blocks (fuel : nat) (ctx : CCtx K) (B : list byte)
  : option (CCtx K * list byte) :=
  match fuel with
  | O => None
  | S fuel' =>
      let n := Z.to_nat (ZBUFF_recommendedCInSize K) in
      let chunk := firstn n B in
      if len chunk =? 0 then Some (ctx, [])
      else
        let r := ZBUFF_compressContinue K ctx (ZBUFF_recommendedCOutSize K)
                   chunk in
        if ZBUFF_isError K (st_result (snd r)) then None
        else if negb (len chunk =? st_used (snd r)) then None
        else
          match spec_encode_blocks fuel' (fst r) (skipn n B) with
          | Some (ctx', F) => Some (ctx', st_dst (snd r) ++ F)
          | None => None
          end
  end.

Definition spec_encode (cLevel : Z) (B : list byte) : option (list byte) :=
  match ZBUFF_createCCtx K with
  | None => None
  | Some ctx =>
      let init := ZBUFF_compressInit_advanced K ctx
                    (ZSTD_getParams K cLevel (to_U64 (len B))) in
      if ZBUFF_isError K (snd init) then None
      else
        match spec_encode_blocks (S (length B)) (fst init) B with
        | None => None
        | Some (ctx', F) =>
            let r := ZBUFF_compressEnd K ctx' (ZBUFF_recommendedCOutSize K) in
            if snd (snd r) =? 0 then Some (F ++ fst (snd r)) else None
        end
  end.

(** The specification's decode sub-loop (4.4, steps a to f) on the engine
    alone, carry-over included: [pending] is what is buffered and not yet
    consumed, [rest] what the source still holds.  What a call leaves
    unconsumed stays at the front of the buffer and is what the next call
    is given, without a read (steps c and e).  The result is the decoded
    frame and what the source holds after it. *)
Fixpoint spec_decode_carry (fuel : nat) (dctx : DCtx K)
  (pending rest : list byte) : option (list byte * list byte) :=
  match fuel with
  | O => None
  | S fuel' =>
      (* a *)
      let r := ZBUFF_decompressContinue K dctx (ZBUFF_recommendedDOutSize K)
                 pending in
      let toRead := st_result (snd r) in
      if ZBUFF_isError K toRead then None
      else
        (* c *)
        let pending := skipn (Z.to_nat (st_used (snd r))) pending in
        (* d *)
        if toRead =? 0 then Some (st_dst (snd r), rest)
        (* e *)
        else if negb (len pending =? 0) then
          match spec_decode_carry fuel' (fst r) pending rest with
          | Some (out, rest') => Some (st_dst (snd r) ++ out, rest')
          | None => None
          end
        (* f *)
        else if ZBUFF_recommendedDInSize K <? toRead then None
        else
          let next := firstn (Z.to_nat toRead) rest in
          if negb (len next =? toRead) then None
          else
            match spec_decode_carry fuel' (fst r) next
                    (skipn (Z.to_nat toRead) rest) with
            | Some (out, rest') => Some (st_dst (snd r) ++ out, rest')
            | None => None
            end
  end.

(** The specification's decompression (4.3 and 4.4) of a stream that is one
    current-format frame. *)
Definition spec_decode_carry_stream (fuel : nat) (F : list byte)
  : option (list byte) :=
  let magic := firstn 4 F in
  if negb (len magic =? 4) then None
  else if ZSTD_isLegacy K (MEM_readLE32 magic) then None
  else
    match spec_decode_carry fuel
            (ZBUFF_decompressInit K (ZBUFF_createDCtx K)) magic
            (skipn 4 F) with
    | Some (out, []) => Some out
    | _ => None
    end.

(** The decode sub-loop narrowed to the runs in which every decoder call
    consumes all it is given, so that the carry-over of steps c and e never
    happens: a call that leaves input unconsumed gives [None].  This is not
    the protocol of the specification but the part of it on which
    [decompress_loop] and [spec_decode_carry] cannot differ.  [chunk] is
    what is buffered, [rest] what the source still holds. *)
Fixpoint whole_decode_frame (fuel : nat) (dctx : DCtx K)
  (chunk rest : list byte) : option (list byte * list byte) :=
  match fuel with
  | O => None
  | S fuel' =>
      let r := ZBUFF_decompressContinue K dctx (ZBUFF_recommendedDOutSize K)
                 chunk in
      let toRead := st_result (snd r) in
      if ZBUFF_isError K toRead then None
      else if negb (st_used (snd r) =? len chunk) then None
      else if toRead =? 0 then Some (st_dst (snd r), rest)
      else if ZBUFF_recommendedDInSize K <? toRead then None
      else
        let next := firstn (Z.to_nat toRead) rest in
        if negb (len next =? toRead) then None
        else
          match whole_decode_frame fuel' (fst r) next
                  (skipn (Z.to_nat toRead) rest) with
          | Some (out, rest') => Some (st_dst (snd r) ++ out, rest')
          | None => None
          end
  end.

(** A stream that is one current-format frame, decoded by
    [whole_decode_frame]. *)
Definition whole_decode_stream (fuel : nat) (F : list byte)
  : option (list byte) :=
  let magic := firstn 4 F in
  if negb (len magic =? 4) then None
  else if ZSTD_isLegacy K (MEM_readLE32 magic) then None
  else
    match whole_decode_frame fuel
            (ZBUFF_decompressInit K (ZBUFF_createDCtx K)) magic
            (skipn 4 F) with
    | Some (out, []) => Some out
    | _ => None
    end.

(** The round trip of section 8 on files: compressing the file [source]
    into [packed] and decompressing [packed] into [restored] both return,
    and [restored] then holds [B]. *)
Definition round_trip (cLevel : Z) (source packed restored : string)
  (w : World) (B : list byte) : Prop :=
  exists fuel1 fuel2 n w1 m w2,
    FIO_compressFilename K fuel1 packed source cLevel w = Ok n w1
    /\ FIO_decompressFilename K fuel2 restored packed w1 = Ok m w2
    /\ fs_lookup restored (fs w2) = Some B.

(** An environment in which nothing but the codec can stop the two runs:
    the source is a file holding [B], the two destinations are new names
    that can be written, none of the names is a sentinel, memory and
    [fclose] do not fail, and the device has room for [room_needed]
    bytes. *)
Record calm (source packed restored : string) (B : list byte)
  (room_needed : Z) (w : World) : Prop := mkCalm {
  calm_source : fs_lookup source (fs w) = Some B;
  calm_packed : fs_lookup packed (fs w) = None;
  calm_restored : fs_lookup restored (fs w) = None;
  calm_distinct : String.eqb restored packed = false;
  calm_source_file : String.eqb source (stdinmark K) = false;
  calm_packed_in : String.eqb packed (stdinmark K) = false;
  calm_packed_out : String.eqb packed (stdoutmark K) = false;
  calm_packed_nul : String.eqb packed (nulmark K) = false;
  calm_restored_out : String.eqb restored (stdoutmark K) = false;
  calm_restored_nul : String.eqb restored (nulmark K) = false;
  calm_packed_free : mem_name packed (wprotect w) = false;
  calm_restored_free : mem_name restored (wprotect w) = false;
  calm_heap : heap_ok w = true;
  calm_fclose : fclose_ok w = true;
  calm_room : room_needed <= room w
}.

End Protocol.

(** ** Destinations *)

(** What a stream opened for writing holds so far; the discard sink holds
    nothing. *)
Definition sink_content (f : FILE) (w : World) : option (list byte) :=
  match f with
  | f_stdout => Some (stdout_data w)
  | f_named name => fs_lookup name (fs w)
  | _ => None
  end.

(** The bytes the encoder has produced, in order. *)
Fixpoint outputs (evs : list event) : list byte :=
  match evs with
  | [] => []
  | ev_compressContinue _ dst _ _ :: t => dst ++ outputs t
  | ev_compressEnd dst _ :: t => dst ++ outputs t
  | _ :: t => outputs t
  end.

(** The bytes the decoder has produced, in order, and their number. *)
Fixpoint decoder_outputs (evs : list event) : list byte :=
  match evs with
  | [] => []
  | ev_decompressContinue _ dst _ _ :: t => dst ++ decoder_outputs t
  | _ :: t => decoder_outputs t
  end.

Fixpoint decoded (evs : list event) : Z :=
  match evs with
  | [] => 0
  | ev_decompressContinue _ dst _ _ :: t => len dst + decoded t
  | _ :: t => decoded t
  end.

(** How many times the decoder has been initialised. *)
Fixpoint inits (evs : list event) : nat :=
  match evs with
  | [] => O
  | ev_decompressInit :: t => S (inits t)
  | _ :: t => inits t
  end.

(** ** What a computation may change *)

(** [steps R m] : whatever way [m] ends, it takes a world to one related to
    it by [R]. *)
Definition steps (R : World -> World -> Prop) {A} (m : M A) : Prop :=
  forall w, R w (final (m w)).

(** [opens name w w'] : between [w] and [w'] the globals, the device, stdout
    and every file but [name] are as they were; the file [name] is as it was
    or empty; stdin has lost at most a prefix. *)
Record opens (name : string) (w w' : World) : Prop := mkOpens {
  op_level : g_displayLevel w' = g_displayLevel w;
  op_overwrite : g_overwrite w' = g_overwrite w;
  op_wprotect : wprotect w' = wprotect w;
  op_room : room w' = room w;
  op_heap : heap_ok w' = heap_ok w;
  op_fclose : fclose_ok w' = fclose_ok w;
  op_stdout : stdout_data w' = stdout_data w;
  op_others : forall other, String.eqb other name = false ->
                            fs_lookup other (fs w') = fs_lookup other (fs w);
  op_dest : fs_lookup name (fs w') = fs_lookup name (fs w)
            \/ fs_lookup name (fs w') = Some [];
  op_stdin : exists k, stdin_rest w' = skipn k (stdin_rest w)
}.

(** ** More stand-ins and protocols *)

Module Split.

(** The store codec with a decoder that takes the magic number in two
    calls: of the four bytes it is first given it consumes two and asks for
    two more, which are the two it left in the buffer. *)
Inductive stage : Type :=
| first_half
| second_half
| after_magic (s : Store.stage).

Definition failed (s : stage) : stage * step := (s, mkStep [] 0 error_code).

Definition dc (s : stage) (dstCapacity : Z) (src : list byte) : stage * step :=
  match s with
  | first_half =>
      if bytes_eqb (firstn 2 src) (firstn 2 Store.magic)
      then (second_half, mkStep [] 2 2)
      else failed s
  | second_half =>
      if bytes_eqb src (skipn 2 Store.magic)
      then (after_magic Store.at_header, mkStep [] 2 1)
      else failed s
  | after_magic s' =>
      (after_magic (fst (Store.dc s' dstCapacity src)),
       snd (Store.dc s' dstCapacity src))
  end.

Definition collab : Collab :=
  mkCollab "stdin" "stdout" "/dev/null" bool stage unit
    8 16 8 8 code_is_error
    (Some false) (fun _ _ => tt) (fun ctx _ => (ctx, 0))
    (Store.cc 8) (Store.cend false)
    first_half (fun _ => first_half) dc
    legacy_magic legacy_raw.

End Split.

Module Stall.

(** A decoder that never makes progress: every call takes nothing,
    produces nothing and asks for one more byte. *)
Definition dc (d : unit) (dstCapacity : Z) (src : list byte) : unit * step :=
  (d, mkStep [] 0 1).

Definition collab : Collab :=
  mkCollab "stdin" "stdout" "/dev/null" bool unit unit
    8 16 8 8 code_is_error
    (Some false) (fun _ _ => tt) (fun ctx _ => (ctx, 0))
    (Store.cc 8) (Store.cend false)
    tt (fun _ => tt) dc
    legacy_magic legacy_raw.

End Stall.

Section Frames.

Variable K : Collab.

(** Initialising a decoder context gives the same context whatever it
    held. *)
Definition reinit_clean : Prop :=
  forall d, ZBUFF_decompressInit K d
            = ZBUFF_decompressInit K (ZBUFF_createDCtx K).

(** A stream of current-format frames, decoded one after the other as
    [frames_loop] sequences them: four bytes of magic number, the frame by
    [whole_decode_frame] on a freshly initialised decoder, and so on until
    the stream is empty. *)
Fixpoint whole_decode_frames (fuel : nat) (F : list byte)
  : option (list byte) :=
  match fuel with
  | O => None
  | S fuel' =>
      let magic := firstn 4 F in
      if len magic =? 0 then Some []
      else if negb (len magic =? 4) then None
      else if ZSTD_isLegacy K (MEM_readLE32 magic) then None
      else
        match whole_decode_frame K fuel'
                (ZBUFF_decompressInit K (ZBUFF_createDCtx K)) magic
                (skipn 4 F) with
        | Some (out, rest) =>
            match whole_decode_frames fuel' rest with
            | Some more => Some (out ++ more)
            | None => None
            end
        | None => None
        end
  end.

End Frames.

(** Two store frames one after the other, and a store frame followed by a
    stray byte. *)
Definition two_frames_world : World :=
  world_of 2 false [("c"%string, ten_bytes_frame ++ ten_bytes_frame)].

Definition stray_byte_world : World :=
  world_of 2 false [("c"%string, ten_bytes_frame ++ [x00])].

(** [spares name w w'] : between [w] and [w'] the two settings, the
    protected names and every file but [name] are as they were. *)
Record spares (name : string) (w w' : World) : Prop := mkSpares {
  sp_level : g_displayLevel w' = g_displayLevel w;
  sp_overwrite : g_overwrite w' = g_overwrite w;
  sp_wprotect : wprotect w' = wprotect w;
  sp_others : forall other, String.eqb other name = false ->
                            fs_lookup other (fs w') = fs_lookup other (fs w)
}.

(** [destination_of name f] : if the stream [f] is a named file, the file
    is [name]. *)
Definition destination_of (name : string) (f : FILE) : Prop :=
  match f with
  | f_named n => n = name
  | _ => True
  end.

(** The world after a call of [FIO_overwriteMode]. *)
Definition FIO_overwriteMode_world (w : World) : World :=
  final (FIO_overwriteMode w).

(** Ten bytes piped through stdin after the byte 'y', with a destination
    that exists. *)
Definition piped_world : World :=
  set_stdin_rest (x79 :: ten_bytes) (world_of 2 false [("c"%string, [x01])]).

(** ** Runs that end *)

(** [ends_narrowing f m w] : from [w] the computation [m] returns or
    exits, and when it returns the stream [f] holds no more to read than it
    did. *)
Definition ends_narrowing (f : FILE) {A} (m : M A) (w : World) : Prop :=
  match m w with
  | Ok _ w' => (length (pending_input f w') <= length (pending_input f w))%nat
  | Exit _ _ => True
  | Fuel_out _ => False
  end.

Section Progress.

Variable K : Collab.

(** A decoder that, unless it reports an error, consumes all it is
    given. *)
Definition whole_consumer : Prop :=
  forall d cap src,
    ZBUFF_isError K (st_result (snd (ZBUFF_decompressContinue K d cap src)))
    = false ->
    st_used (snd (ZBUFF_decompressContinue K d cap src)) = len src.

(** A legacy decoder that returns or exits and gives nothing back to the
    stream it reads. *)
Definition legacy_ends : Prop :=
  forall foutput finput magic w,
    ends_narrowing finput (FIO_decompressLegacyFrame K foutput finput magic) w.

End Progress.

(** ** Notification level 0 *)

(** An event that neither shows anything to the user nor asks anything. *)
Definition silent (e : event) : Prop :=
  match e with
  | ev_display _ | ev_getchar => False
  | _ => True
  end.

(** [quiet w w'] : if the notification level is 0 in [w], it is 0 in [w']
    and everything that happened in between was silent. *)
Definition quiet (w w' : World) : Prop :=
  g_displayLevel w = 0 ->
  g_displayLevel w' = 0
  /\ exists evs, log w' = log w ++ evs /\ Forall silent evs.

(** ** Exits *)

(** [exits_with codes m] : when [m] exits, the code is one of [codes], and
    unless the notification level is 0 the last thing that happened is the
    display of the error of that code. *)
Definition exits_with (codes : list Z) {A} (m : M A) : Prop :=
  forall w c w',
    m w = Exit c w' ->
    In c codes
    /\ (1 <= g_displayLevel w' ->
        exists evs, log w' = evs ++ [ev_display (msg_error c)]).

(** The exit codes of the two drivers. *)
Definition compress_codes : list Z := [11; 12; 13; 21; 22; 23; 24; 25; 26; 27; 28].

Definition decompress_codes : list Z := [11; 12; 13; 31; 33; 34; 35; 36; 37; 38].

(** * Properties *)

Local Open Scope fio_scope.

(** ** Buffers and integers *)

Lemma len_nonneg (l : list byte) : 0 <= len l.
Proof. unfold len. lia. Qed.

Lemma len_app (a b : list byte) : len (a ++ b) = len a + len b.
Proof. unfold len. rewrite length_app. lia. Qed.

Lemma len_zero_nil (l : list byte) : len l = 0 -> l = [].
Proof. destruct l; [reflexivity | unfold len; simpl; lia]. Qed.

(** The bytes just read are what the callee sees at the front of the
    buffer. *)
Lemma view_store (got buf : list byte) : view (store got buf) 0 (len got) = got.
Proof.
  unfold view, store, len. rewrite Nat2Z.id. simpl.
  rewrite firstn_app, firstn_all, Nat.sub_diag. simpl. apply app_nil_r.
Qed.

Lemma byte_val_range (b : byte) : 0 <= byte_val b < 256.
Proof.
  unfold byte_val. pose proof (Byte.to_N_bounded b) as H. lia.
Qed.

Lemma lor_shiftl_add (x y n : Z) :
  0 <= n -> 0 <= x < 2 ^ n -> Z.lor x (Z.shiftl y n) = x + 2 ^ n * y.
Proof.
  intros Hn Hx.
  assert (Hdisj : Z.land x (Z.shiftl y n) = 0).
  { apply Z.bits_inj'. intros m Hm. rewrite Z.land_spec, Z.bits_0.
    destruct (Z.lt_ge_cases m n) as [Hlt | Hge].
    - rewrite (Z.shiftl_spec_low y n m Hlt). apply andb_false_r.
    - rewrite <- (Z.mod_small x (2 ^ n)) by lia.
      rewrite Z.mod_pow2_bits_high by lia. reflexivity. }
  rewrite <- Z.lxor_lor by exact Hdisj.
  rewrite <- Z.add_nocarry_lxor by exact Hdisj.
  rewrite Z.shiftl_mul_pow2 by lia. ring.
Qed.

(** [MEM_readLE32] is the little-endian value of the four leading bytes. *)
Lemma MEM_readLE32_value (b0 b1 b2 b3 : byte) (rest : list byte) :
  MEM_readLE32 (b0 :: b1 :: b2 :: b3 :: rest)
  = byte_val b0 + 2 ^ 8 * byte_val b1 + 2 ^ 16 * byte_val b2
    + 2 ^ 24 * byte_val b3.
Proof.
  unfold MEM_readLE32. cbn [nth].
  pose proof (byte_val_range b0) as H0. pose proof (byte_val_range b1) as H1.
  pose proof (byte_val_range b2) as H2.
  replace (Z.shiftl (byte_val b3) 24)
    with (Z.shiftl (Z.shiftl (byte_val b3) 8) 16)
    by (rewrite Z.shiftl_shiftl by lia; reflexivity).
  rewrite <- Z.shiftl_lor.
  rewrite (lor_shiftl_add (byte_val b2) (byte_val b3) 8) by lia.
  replace (Z.shiftl (byte_val b2 + 2 ^ 8 * byte_val b3) 16)
    with (Z.shiftl (Z.shiftl (byte_val b2 + 2 ^ 8 * byte_val b3) 8) 8)
    by (rewrite Z.shiftl_shiftl by lia; reflexivity).
  rewrite <- Z.shiftl_lor.
  rewrite (lor_shiftl_add (byte_val b1) _ 8) by lia.
  rewrite (lor_shiftl_add (byte_val b0) _ 8) by lia.
  ring.
Qed.

(** ** The log only grows *)

Lemma extends_refl (w : World) : extends w w.
Proof. exists []. symmetry. apply app_nil_r. Qed.

Lemma extends_trans (a b c : World) : extends a b -> extends b c -> extends a c.
Proof.
  intros [e1 H1] [e2 H2]. exists (e1 ++ e2).
  rewrite H2, H1. symmetry. apply app_assoc.
Qed.

Lemma extends_emit (e : event) (w : World) : extends w (emit e w).
Proof. exists [e]. reflexivity. Qed.

Lemma EXM_THROW_eq {A} (error : Z) (w : World) :
  @EXM_THROW A error w = Exit error (thrown error w).
Proof. reflexivity. Qed.

Lemma thrown_fs (error : Z) (w : World) : fs (thrown error w) = fs w.
Proof. unfold thrown. destruct (1 <=? g_displayLevel w); reflexivity. Qed.

Lemma thrown_stdout (error : Z) (w : World) :
  stdout_data (thrown error w) = stdout_data w.
Proof. unfold thrown. destruct (1 <=? g_displayLevel w); reflexivity. Qed.

Lemma thrown_extends (error : Z) (w : World) : extends w (thrown error w).
Proof.
  unfold thrown. destruct (1 <=? g_displayLevel w);
    [apply extends_emit | apply extends_refl].
Qed.

(** ** What a computation adds to the log *)

Section Emits.

Variable P : event -> Prop.

Lemma emits_ret {A} (a : A) : emits P (ret a).
Proof. intros w. exists []. split; [symmetry; apply app_nil_r | constructor]. Qed.

Lemma emits_out_of_fuel {A} : emits P (@out_of_fuel A).
Proof. intros w. exists []. split; [symmetry; apply app_nil_r | constructor]. Qed.

Lemma emits_bind {A B} (m : M A) (k : A -> M B) :
  emits P m -> (forall a, emits P (k a)) -> emits P (bind m k).
Proof.
  intros Hm Hk w. unfold bind. destruct (Hm w) as [e1 [H1 F1]].
  destruct (m w) as [a w' | c w' | w']; cbn [final] in *.
  - destruct (Hk a w') as [e2 [H2 F2]]. exists (e1 ++ e2). split.
    + rewrite H2, H1. symmetry. apply app_assoc.
    + apply Forall_app. split; assumption.
  - exists e1. split; assumption.
  - exists e1. split; assumption.
Qed.

Lemma emits_one {A} (m : M A) (e : event) :
  P e -> (forall w, log (final (m w)) = log w ++ [e]) -> emits P m.
Proof.
  intros He Hm w. exists [e]. split; [apply Hm | repeat constructor; exact He].
Qed.

Lemma emits_DISPLAYLEVEL (l : Z) (m : message) :
  P (ev_display m) -> emits P (DISPLAYLEVEL l m).
Proof.
  intros He w. unfold DISPLAYLEVEL. cbn [final].
  destruct (l <=? g_displayLevel w).
  - exists [ev_display m]. split; [reflexivity | repeat constructor; exact He].
  - exists []. split; [symmetry; apply app_nil_r | constructor].
Qed.

Lemma emits_EXM_THROW {A} (error : Z) :
  P (ev_display (msg_error error)) -> emits P (@EXM_THROW A error).
Proof.
  intros He w. unfold EXM_THROW. cbn [final].
  apply (emits_DISPLAYLEVEL 1 (msg_error error) He w).
Qed.

Lemma emits_malloc (size : Z) : emits P (malloc size).
Proof. intros w. exists []. split; [symmetry; apply app_nil_r | constructor]. Qed.

Lemma emits_fclose_output : emits P fclose_output.
Proof. intros w. exists []. split; [symmetry; apply app_nil_r | constructor]. Qed.

Lemma emits_getchar : P ev_getchar -> emits P getchar.
Proof.
  intros He. apply (emits_one _ ev_getchar He). intros w. unfold getchar.
  destruct (stdin_rest w); reflexivity.
Qed.

Lemma emits_fopen_rb (name : string) :
  P (ev_fopen name false) -> emits P (fopen_rb name).
Proof.
  intros He. apply (emits_one _ _ He). intros w. unfold fopen_rb.
  destruct (fs_lookup name (fs w)); reflexivity.
Qed.

Lemma emits_file_exists (name : string) :
  P (ev_fopen name false) -> emits P (file_exists name).
Proof. intros He. apply (emits_one _ _ He). intros w. reflexivity. Qed.

Lemma emits_fread (n : Z) (f : FILE) :
  (forall got, P (ev_fread f n got)) -> emits P (fread n f).
Proof.
  intros He w. unfold fread.
  destruct f; cbn [final]; eexists; (split; [reflexivity |]);
    (constructor; [apply He | constructor]).
Qed.

Lemma log_append_to (f : FILE) (data : list byte) (w : World) :
  log (append_to f data w) = log w.
Proof.
  destruct f; try reflexivity. cbn [append_to].
  destruct (fs_lookup name (fs w)); reflexivity.
Qed.

Lemma fwrite_log (data : list byte) (f : FILE) (w : World) :
  exists k, log (final (fwrite data f w)) = log w ++ [ev_fwrite f data k].
Proof.
  unfold fwrite.
  destruct f; try destruct (len data <=? room w); cbn [final];
    eexists; unfold emit, set_log, set_room; cbn [log];
    rewrite ?log_append_to; reflexivity.
Qed.

Lemma emits_fwrite (data : list byte) (f : FILE) :
  (forall k, P (ev_fwrite f data k)) -> emits P (fwrite data f).
Proof.
  intros He w. destruct (fwrite_log data f w) as [k Hk].
  exists [ev_fwrite f data k]. split; [exact Hk |].
  constructor; [apply He | constructor].
Qed.

End Emits.

Lemma emits_weaken (P Q : event -> Prop) {A} (m : M A) :
  (forall e, P e -> Q e) -> emits P m -> emits Q m.
Proof.
  intros HPQ Hm w. destruct (Hm w) as [evs [H F]]. exists evs. split; [exact H |].
  eapply Forall_impl; eassumption.
Qed.

Lemma emits_extends (P : event -> Prop) {A} (m : M A) (w : World) :
  emits P m -> extends w (final (m w)).
Proof. intros Hm. destruct (Hm w) as [evs [H _]]. exists evs. exact H. Qed.

(** ** The driver never flushes outside "End of Frame" *)

(** [truncate_source] changes nothing but what is left to read. *)
Lemma truncate_source_same (name : string) (w : World) :
  exists rest, truncate_source name w = set_src_rest rest w
               /\ (rest = src_rest w \/ rest = []).
Proof.
  unfold truncate_source. destruct (src_name w) as [n |].
  - destruct (String.eqb n name).
    + exists []. split; [reflexivity | right; reflexivity].
    + exists (src_rest w). split; [destruct w; reflexivity | left; reflexivity].
  - exists (src_rest w). split; [destruct w; reflexivity | left; reflexivity].
Qed.

Lemma emits_fopen_wb (K : Collab) (P : event -> Prop) (name : string) :
  P (ev_fopen name true) -> emits P (fopen_wb K name).
Proof.
  intros He. apply (emits_one P _ _ He). intros w. unfold fopen_wb.
  destruct (mem_name name (wprotect w)); [reflexivity |].
  destruct (String.eqb name (nulmark K)); [reflexivity |].
  destruct (truncate_source_same name w) as (rest & -> & _). reflexivity.
Qed.

Lemma emits_compressContinue (K : Collab) (P : event -> Prop) (ctx : CCtx K)
  (cap : Z)
  (src : list byte) :
  (forall dst used result, P (ev_compressContinue src dst used result)) ->
  emits P (compressContinue K ctx cap src).
Proof. intros He. eapply emits_one; [apply He | intros w; reflexivity]. Qed.

Lemma emits_decompressInit (K : Collab) (P : event -> Prop) (dctx : DCtx K) :
  P ev_decompressInit -> emits P (decompressInit K dctx).
Proof. intros He. eapply emits_one; [apply He | intros w; reflexivity]. Qed.

Lemma emits_decompressContinue (K : Collab) (P : event -> Prop) (dctx : DCtx K)
  (cap : Z) (src : list byte) :
  (forall dst used result, P (ev_decompressContinue src dst used result)) ->
  emits P (decompressContinue K dctx cap src).
Proof. intros He. eapply emits_one; [apply He | intros w; reflexivity]. Qed.

Ltac quiet_step :=
  first
    [ apply emits_ret
    | apply emits_out_of_fuel
    | apply emits_EXM_THROW; reflexivity
    | apply emits_DISPLAYLEVEL; reflexivity
    | apply emits_malloc
    | apply emits_fclose_output
    | apply emits_getchar; reflexivity
    | apply emits_fopen_rb; reflexivity
    | apply emits_file_exists; reflexivity
    | apply emits_fopen_wb; reflexivity
    | apply emits_fread; intros; reflexivity
    | apply emits_fwrite; intros; reflexivity
    | apply emits_compressContinue; intros; reflexivity
    | apply emits_decompressInit; reflexivity
    | apply emits_decompressContinue; intros; reflexivity
    | apply emits_bind; [| intros ]
    | match goal with
      | |- emits _ (if ?c then _ else _) => destruct c
      | |- emits _ (match ?x with Some _ => _ | None => _ end) => destruct x
      end ].

Lemma overwrite_gate_quiet (name : string) :
  emits no_flush (overwrite_gate name).
Proof.
  intros w. unfold overwrite_gate.
  destruct (negb (g_overwrite w)).
  - destruct (g_displayLevel w <=? 1).
    + apply emits_EXM_THROW. reflexivity.
    + revert w. change (emits no_flush
        (DISPLAYLEVEL 2 (msg_already_exists name) ;;
         DISPLAYLEVEL 2 msg_overwrite_prompt ;;
         ch <- getchar ;;
         if negb (Byte.eqb ch x59) && negb (Byte.eqb ch x79)
         then EXM_THROW 11 else ret tt)).
      repeat quiet_step.
  - apply (emits_ret no_flush tt w).
Qed.

Lemma FIO_getFileHandles_quiet (K : Collab)
  (input_filename output_filename : string) :
  emits no_flush (FIO_getFileHandles K input_filename output_filename).
Proof.
  unfold FIO_getFileHandles.
  repeat (quiet_step || apply overwrite_gate_quiet).
Qed.

Lemma compress_loop_quiet (K : Collab) (fuel : nat) :
  forall ctx finput foutput inBuff inBuffSize outBuffSize filesize csize,
    emits no_flush
      (compress_loop K fuel ctx finput foutput inBuff inBuffSize outBuffSize
         filesize csize).
Proof.
  induction fuel as [| fuel IH]; intros; cbn [compress_loop].
  - apply emits_out_of_fuel.
  - repeat (quiet_step || apply IH).
Qed.

Lemma decompress_loop_quiet (K : Collab) (fuel : nat) :
  forall foutput finput inBuff inBuffSize outBuffSize dctx frameSize readSize,
    emits no_flush
      (decompress_loop K fuel foutput finput inBuff inBuffSize outBuffSize
         dctx frameSize readSize).
Proof.
  induction fuel as [| fuel IH]; intros; cbn [decompress_loop].
  - apply emits_out_of_fuel.
  - repeat (quiet_step || apply IH).
Qed.

(** The first thing the decode loop does is to call the decoder on the
    front of the input buffer. *)
Lemma decompress_loop_first_call (K : Collab) (fuel : nat)
  (foutput finput : FILE) (inBuff : list byte) (inBuffSize outBuffSize : Z)
  (dctx : DCtx K) (frameSize readSize : Z) (w : World) :
  let r := ZBUFF_decompressContinue K dctx outBuffSize (view inBuff 0 readSize) in
  exists tail,
    log (final (decompress_loop K (S fuel) foutput finput inBuff inBuffSize
                  outBuffSize dctx frameSize readSize w))
    = log w ++ ev_decompressContinue (view inBuff 0 readSize) (st_dst (snd r))
                 (st_used (snd r)) (st_result (snd r)) :: tail.
Proof.
  intros r. cbn [decompress_loop]. unfold bind at 1.
  unfold decompressContinue at 1. cbv zeta. fold r.
  match goal with
  | |- exists tail, log (final (?k ?w1)) = _ =>
      assert (Hk : emits no_flush k)
  end.
  { repeat (quiet_step || apply decompress_loop_quiet). }
  match goal with
  | |- exists tail, log (final (?k ?w1)) = _ =>
      destruct (Hk w1) as [evs [Hlog _]]
  end.
  exists evs. rewrite Hlog. cbn [emit set_log log].
  rewrite <- app_assoc. reflexivity.
Qed.

Section FrameLoop.

Variable K : Collab.

(** ** The frame loop of FIO_decompressFilename *)

(** C4.  At a frame boundary the driver asks for 4 bytes.  When the read
    brings nothing the frame loop ends normally with the byte count
    accumulated so far; when it brings 1, 2 or 3 bytes the process exits
    with code 31 ("cannot read header"), and nothing has been written. *)
Theorem frame_boundary_read (fuel : nat) (foutput finput : FILE)
  (inBuff : list byte) (inBuffSize outBuffSize : Z) (dctx : DCtx K)
  (filesize : Z) (w w1 : World) (got : list byte) :
  fread 4 finput w = Ok got w1 ->
  (len got = 0 ->
   frames_loop K (S fuel) foutput finput inBuff inBuffSize outBuffSize dctx
     filesize w = Ok filesize w1)
  /\
  (0 < len got < 4 ->
   frames_loop K (S fuel) foutput finput inBuff inBuffSize outBuffSize dctx
     filesize w = Exit 31 (thrown 31 w1)
   /\ fs (thrown 31 w1) = fs w1
   /\ stdout_data (thrown 31 w1) = stdout_data w1).
Proof.
  intros Hread. split.
  - intros H0. cbn [frames_loop]. unfold bind at 1. rewrite Hread, H0.
    reflexivity.
  - intros Hshort. split; [| split; [apply thrown_fs | apply thrown_stdout]].
    cbn [frames_loop]. unfold bind at 1. rewrite Hread.
    destruct (Z.eqb_spec (len got) 0) as [E | _]; [lia |].
    destruct (Z.eqb_spec (len got) 4) as [E | _]; [lia |].
    reflexivity.
Qed.

(** C3.  A frame is classified by its first four bytes read as a
    little-endian integer.  On a legacy magic number the driver records one
    legacy call and hands the frame to the legacy collaborator
    [FIO_decompressLegacyFrame], once, in the state the read of the four
    bytes left: when the collaborator exits, the process exits; when it
    returns, its count is added and the driver is at the next frame
    boundary, in the state the collaborator left, without a decoder call
    of its own.  Otherwise the driver enters [FIO_decompressFrame] with
    [alreadyLoaded = 4] and the four bytes at the front of the input
    buffer, and the first decoder call of the frame is made on exactly
    those four bytes. *)
Theorem magic_dispatch (fuel : nat) (foutput finput : FILE)
  (inBuff : list byte) (inBuffSize outBuffSize : Z) (dctx : DCtx K)
  (filesize : Z) (w w1 : World) (b0 b1 b2 b3 : byte) :
  fread 4 finput w = Ok [b0; b1; b2; b3] w1 ->
  let magic := byte_val b0 + 2 ^ 8 * byte_val b1 + 2 ^ 16 * byte_val b2
               + 2 ^ 24 * byte_val b3 in
  let buf := store [b0; b1; b2; b3] inBuff in
  (ZSTD_isLegacy K magic = true ->
   let w2 := emit (ev_legacyFrame magic) w1 in
   frames_loop K (S fuel) foutput finput inBuff inBuffSize outBuffSize dctx
     filesize w
   = match FIO_decompressLegacyFrame K foutput finput magic w2 with
     | Ok n w3 =>
         frames_loop K fuel foutput finput buf inBuffSize outBuffSize dctx
           (to_U64 (filesize + n)) w3
     | Exit code w3 => Exit code w3
     | Fuel_out w3 => Fuel_out w3
     end
   /\ log w2 = log w ++ [ev_fread finput 4 [b0; b1; b2; b3];
                         ev_legacyFrame magic])
  /\
  (ZSTD_isLegacy K magic = false ->
   frames_loop K (S fuel) foutput finput inBuff inBuffSize outBuffSize dctx
     filesize w
   = (fr <- FIO_decompressFrame K fuel foutput finput buf inBuffSize 4
              outBuffSize dctx ;;
      frames_loop K fuel foutput finput (snd fr) inBuffSize outBuffSize
        (snd (fst fr)) (to_U64 (filesize + fst (fst fr)))) w1
   /\ view buf 0 4 = [b0; b1; b2; b3]
   /\ forall fuel',
        let r := ZBUFF_decompressContinue K (ZBUFF_decompressInit K dctx)
                   outBuffSize [b0; b1; b2; b3] in
        exists tail,
          log (final (FIO_decompressFrame K (S fuel') foutput finput buf
                        inBuffSize 4 outBuffSize dctx w1))
          = log w1 ++ ev_decompressInit
              :: ev_decompressContinue [b0; b1; b2; b3] (st_dst (snd r))
                   (st_used (snd r)) (st_result (snd r)) :: tail).
Proof.
  intros Hread magic buf.
  assert (Hmagic : MEM_readLE32 buf = magic).
  { unfold buf, store. cbn [app]. apply MEM_readLE32_value. }
  assert (Hstep :
    frames_loop K (S fuel) foutput finput inBuff inBuffSize outBuffSize dctx
      filesize w
    = (if ZSTD_isLegacy K magic
       then (n <- decompressLegacyFrame K foutput finput magic ;;
             frames_loop K fuel foutput finput buf inBuffSize outBuffSize
               dctx (to_U64 (filesize + n)))
       else (fr <- FIO_decompressFrame K fuel foutput finput buf inBuffSize 4
                     outBuffSize dctx ;;
             frames_loop K fuel foutput finput (snd fr) inBuffSize
               outBuffSize (snd (fst fr))
               (to_U64 (filesize + fst (fst fr))))) w1).
  { cbn [frames_loop]. unfold bind at 1. rewrite Hread.
    change (len [b0; b1; b2; b3]) with 4. cbn [Z.eqb Pos.eqb negb].
    fold buf. rewrite Hmagic. reflexivity. }
  split.
  - intros Hleg w2. split.
    + rewrite Hstep, Hleg. reflexivity.
    + assert (Hlog1 : log w1 = log w ++ [ev_fread finput 4 [b0; b1; b2; b3]]).
      { unfold fread in Hread.
        destruct finput; injection Hread as Hgot Hw; subst w1;
          cbn [emit set_log log]; rewrite <- ?Hgot; reflexivity. }
      unfold w2. cbn [emit set_log log]. rewrite Hlog1, <- app_assoc.
      reflexivity.
  - intros Hcur. split; [| split].
    + rewrite Hstep, Hcur. reflexivity.
    + apply (view_store [b0; b1; b2; b3] inBuff).
    + intros fuel' r. unfold FIO_decompressFrame, bind, decompressInit.
      destruct (decompress_loop_first_call K fuel' foutput finput buf
                  inBuffSize outBuffSize (ZBUFF_decompressInit K dctx) 0 4
                  (emit ev_decompressInit w1)) as [tail Htail].
      exists tail. rewrite Htail.
      rewrite (view_store [b0; b1; b2; b3] inBuff : view buf 0 4 = _).
      cbn [emit set_log log]. rewrite <- app_assoc. reflexivity.
Qed.


End FrameLoop.

Lemma frame_boundary_read_witness :
  frames_loop (Store.collab 8 false) 1 (f_named "out") (f_named "c")
    (repeat x00 8) 8 8 Store.at_magic 7
    (set_src_rest [] (world_of 2 false []))
  = Ok 7 (emit (ev_fread (f_named "c") 4 [])
            (set_src_rest [] (world_of 2 false [])))
  /\
  frames_loop (Store.collab 8 false) 1 (f_named "out") (f_named "c")
    (repeat x00 8) 8 8 Store.at_magic 7
    (set_src_rest [x53; x54] (world_of 2 false []))
  = Exit 31
      (thrown 31 (emit (ev_fread (f_named "c") 4 [x53; x54])
                    (set_src_rest [] (world_of 2 false [])))).
Proof.
  split.
  - apply (frame_boundary_read (Store.collab 8 false) 0 (f_named "out")
             (f_named "c") (repeat x00 8) 8 8 Store.at_magic 7
             (set_src_rest [] (world_of 2 false [])) _ [] eq_refl).
    reflexivity.
  - apply (frame_boundary_read (Store.collab 8 false) 0 (f_named "out")
             (f_named "c") (repeat x00 8) 8 8 Store.at_magic 7
             (set_src_rest [x53; x54] (world_of 2 false [])) _ [x53; x54]
             eq_refl).
    unfold len. simpl. lia.
Defined.

(** The legacy collaborator of the stand-in is called on the frame
    0xFD2FB522 "01 41": it is handed the state after the read, and the
    loop goes on from the state it leaves; a frame that starts with "STOR"
    goes to the decoder. *)
Lemma magic_dispatch_witness :
  (frames_loop (Store.collab 8 false) 2 (f_named "out") (f_named "c")
     (repeat x00 8) 8 8 Store.at_magic 0
     (set_src_rest [x22; xb5; x2f; xfd; x01; x41]
        (world_of 2 false [("out"%string, [])]))
   = match
       FIO_decompressLegacyFrame (Store.collab 8 false) (f_named "out")
         (f_named "c") 0xFD2FB522
         (emit (ev_legacyFrame 0xFD2FB522)
            (emit (ev_fread (f_named "c") 4 [x22; xb5; x2f; xfd])
               (set_src_rest [x01; x41]
                  (world_of 2 false [("out"%string, [])]))))
     with
     | Ok n w3 =>
         frames_loop (Store.collab 8 false) 1 (f_named "out") (f_named "c")
           (store [x22; xb5; x2f; xfd] (repeat x00 8)) 8 8 Store.at_magic
           (to_U64 (0 + n)) w3
     | Exit code w3 => Exit code w3
     | Fuel_out w3 => Fuel_out w3
     end
   /\ exists w',
        frames_loop (Store.collab 8 false) 2 (f_named "out") (f_named "c")
          (repeat x00 8) 8 8 Store.at_magic 0
          (set_src_rest [x22; xb5; x2f; xfd; x01; x41]
             (world_of 2 false [("out"%string, [])]))
        = Ok 1 w'
        /\ fs_lookup "out" (fs w') = Some [x41]
        /\ log w'
           = [ev_fread (f_named "c") 4 [x22; xb5; x2f; xfd];
              ev_legacyFrame 0xFD2FB522;
              ev_fread (f_named "c") 1 [x01];
              ev_fread (f_named "c") 1 [x41];
              ev_fwrite (f_named "out") [x41] 1;
              ev_fread (f_named "c") 4 []])
  /\
  view (store [x53; x54; x4f; x52] (repeat x00 8)) 0 4 = [x53; x54; x4f; x52].
Proof.
  split; [split |].
  - apply (magic_dispatch (Store.collab 8 false) 1 (f_named "out")
             (f_named "c") (repeat x00 8) 8 8 Store.at_magic 0
             (set_src_rest [x22; xb5; x2f; xfd; x01; x41]
                (world_of 2 false [("out"%string, [])]))
             _ x22 xb5 x2f xfd eq_refl).
    reflexivity.
  - eexists. split; [vm_compute; reflexivity |].
    split; vm_compute; reflexivity.
  - apply (magic_dispatch (Store.collab 8 false) 1 (f_named "out")
             (f_named "c") (repeat x00 8) 8 8 Store.at_magic 0
             (set_src_rest [x53; x54; x4f; x52; x00] (world_of 2 false []))
             _ x53 x54 x4f x52 eq_refl).
    reflexivity.
Defined.

Section DecodeLoop.

Variable K : Collab.

(** ** The decode loop of FIO_decompressFrame *)

(** C8.  Take an iteration in which the decoder has consumed all that was
    buffered, asks for [toRead <> 0] more bytes, and its output has been
    written.  When [toRead] exceeds the capacity of the input buffer the
    process exits with code 34 ("too large block") without reading.
    Otherwise the driver reads [toRead] bytes from the source; a read that
    brings another count exits with code 35 ("Read error"), and a complete
    one starts the next iteration on the bytes read. *)
Theorem refill_after_full_consumption (fuel : nat) (foutput finput : FILE)
  (inBuff : list byte) (inBuffSize outBuffSize : Z) (dctx : DCtx K)
  (frameSize readSize : Z) (w w2 : World) :
  let r := ZBUFF_decompressContinue K dctx outBuffSize (view inBuff 0 readSize) in
  let toRead := st_result (snd r) in
  let w1 := emit (ev_decompressContinue (view inBuff 0 readSize)
                    (st_dst (snd r)) (st_used (snd r)) toRead) w in
  ZBUFF_isError K toRead = false ->
  to_size_t (readSize - st_used (snd r)) = 0 ->
  toRead <> 0 ->
  fwrite (st_dst (snd r)) foutput w1 = Ok (len (st_dst (snd r))) w2 ->
  (inBuffSize < toRead ->
   decompress_loop K (S fuel) foutput finput inBuff inBuffSize outBuffSize
     dctx frameSize readSize w = Exit 34 (thrown 34 w2))
  /\
  (toRead <= inBuffSize ->
   forall got w3,
     fread toRead finput w2 = Ok got w3 ->
     (len got <> toRead ->
      decompress_loop K (S fuel) foutput finput inBuff inBuffSize outBuffSize
        dctx frameSize readSize w = Exit 35 (thrown 35 w3))
     /\
     (len got = toRead ->
      decompress_loop K (S fuel) foutput finput inBuff inBuffSize outBuffSize
        dctx frameSize readSize w
      = decompress_loop K fuel foutput finput (store got inBuff) inBuffSize
          outBuffSize (fst r)
          (to_U64 (frameSize + len (st_dst (snd r)))) toRead w3)).
Proof.
  intros r toRead w1 Herr Hzero Hmore Hwrite.
  assert (Hstep :
    decompress_loop K (S fuel) foutput finput inBuff inBuffSize outBuffSize
      dctx frameSize readSize w
    = (if inBuffSize <? toRead then EXM_THROW 34
       else
         got <- fread toRead finput ;;
         if negb (len got =? toRead) then EXM_THROW 35
         else decompress_loop K fuel foutput finput (store got inBuff)
                inBuffSize outBuffSize (fst r)
                (to_U64 (frameSize + len (st_dst (snd r)))) (len got)) w2).
  { cbn [decompress_loop]. unfold bind at 1.
    unfold decompressContinue at 1. cbv zeta. fold r. fold toRead. fold w1.
    rewrite Herr. unfold bind at 1. rewrite Hwrite, Z.eqb_refl. cbn [negb].
    destruct (Z.eqb_spec toRead 0) as [E | _]; [contradiction |].
    rewrite Hzero. reflexivity. }
  split.
  - intros Hbig. rewrite Hstep.
    destruct (Z.ltb_spec inBuffSize toRead) as [_ | Hle]; [| lia].
    apply EXM_THROW_eq.
  - intros Hfit got w3 Hread.
    rewrite Hstep.
    destruct (Z.ltb_spec inBuffSize toRead) as [Hlt | _]; [lia |].
    split; intros Hcount; unfold bind at 1; rewrite Hread.
    + destruct (Z.eqb_spec (len got) toRead) as [E | _];
        [contradiction | apply EXM_THROW_eq].
    + rewrite Hcount, Z.eqb_refl. reflexivity.
Qed.

End DecodeLoop.

Lemma refill_after_full_consumption_witness :
  (exists w',
     decompress_loop (Store.collab 8 false) 1 (f_named "out") (f_named "c")
       [x08; x00; x00; x00] 4 8 Store.at_header 0 1
       (set_src_rest [x41; x42; x43] (world_of 2 false [])) = Exit 34 w')
  /\
  (exists w',
     decompress_loop (Store.collab 8 false) 1 (f_named "out") (f_named "c")
       [x08; x00; x00; x00; x00; x00; x00; x00] 8 8 Store.at_header 0 1
       (set_src_rest [x41; x42; x43] (world_of 2 false [])) = Exit 35 w')
  /\
  (exists w',
     decompress_loop (Store.collab 8 false) 1 (f_named "out") (f_named "c")
       [x03; x00; x00; x00; x00; x00; x00; x00] 8 8 Store.at_header 0 1
       (set_src_rest [x41; x42; x43] (world_of 2 false []))
     = decompress_loop (Store.collab 8 false) 0 (f_named "out") (f_named "c")
         [x41; x42; x43; x00; x00; x00; x00; x00] 8 8 (Store.at_block 3)
         0 3 w').
Proof.
  split; [| split]; eexists.
  - eapply (proj1 (refill_after_full_consumption (Store.collab 8 false) 0
                     (f_named "out") (f_named "c") [x08; x00; x00; x00] 4 8
                     Store.at_header 0 1
                     (set_src_rest [x41; x42; x43] (world_of 2 false [])) _
                     eq_refl eq_refl ltac:(discriminate) eq_refl)).
    reflexivity.
  - eapply (proj2 (refill_after_full_consumption (Store.collab 8 false) 0
                     (f_named "out") (f_named "c")
                     [x08; x00; x00; x00; x00; x00; x00; x00] 8 8
                     Store.at_header 0 1
                     (set_src_rest [x41; x42; x43] (world_of 2 false [])) _
                     eq_refl eq_refl ltac:(discriminate) eq_refl)).
    + discriminate.
    + reflexivity.
    + discriminate.
  - eapply (proj2 (refill_after_full_consumption (Store.collab 8 false) 0
                     (f_named "out") (f_named "c")
                     [x03; x00; x00; x00; x00; x00; x00; x00] 8 8
                     Store.at_header 0 1
                     (set_src_rest [x41; x42; x43] (world_of 2 false [])) _
                     eq_refl eq_refl ltac:(discriminate) eq_refl)).
    + discriminate.
    + reflexivity.
    + reflexivity.
Defined.

Lemma fs_lookup_store_same (name : string) (c : list byte)
  (l : list (string * list byte)) :
  fs_lookup name (fs_store name c l) = Some c.
Proof.
  induction l as [| [n c0] l IH]; cbn [fs_store fs_lookup].
  - rewrite String.eqb_refl. reflexivity.
  - destruct (String.eqb name n) eqn:E; cbn [fs_lookup]; rewrite E;
      [reflexivity | exact IH].
Qed.

Lemma fs_lookup_store_other (name other : string) (c : list byte)
  (l : list (string * list byte)) :
  String.eqb other name = false ->
  fs_lookup other (fs_store name c l) = fs_lookup other l.
Proof.
  intros Hne. induction l as [| [n c0] l IH]; cbn [fs_store fs_lookup].
  - rewrite Hne. reflexivity.
  - destruct (String.eqb name n) eqn:E; cbn [fs_lookup].
    + apply String.eqb_eq in E. subst n. rewrite Hne. reflexivity.
    + destruct (String.eqb other n); [reflexivity | exact IH].
Qed.

Section FileHandles.

Variable K : Collab.

(** ** The overwrite policy of FIO_getFileHandles *)

(** Opening the source leaves the globals, the files and stdin as they
    are, and asks nothing. *)
Lemma open_input_spec (input_filename : string) (w : World) :
  exists pfinput w_in,
    (if String.eqb input_filename (stdinmark K)
     then (DISPLAYLEVEL 4 msg_using_stdin ;; ret (Some f_stdin))
     else fopen_rb input_filename) w = Ok pfinput w_in
    /\ g_overwrite w_in = g_overwrite w
    /\ g_displayLevel w_in = g_displayLevel w
    /\ fs w_in = fs w
    /\ wprotect w_in = wprotect w
    /\ stdin_rest w_in = stdin_rest w
    /\ exists evs, log w_in = log w ++ evs /\ Forall no_ask evs.
Proof.
  destruct (String.eqb input_filename (stdinmark K)).
  - unfold bind, DISPLAYLEVEL, ret. destruct (4 <=? g_displayLevel w).
    + do 2 eexists. repeat (split; [reflexivity |]).
      exists [ev_display msg_using_stdin]. split; [reflexivity |].
      repeat constructor.
    + do 2 eexists. repeat (split; [reflexivity |]).
      exists []. split; [symmetry; apply app_nil_r | constructor].
  - unfold fopen_rb. destruct (fs_lookup input_filename (fs w));
      do 2 eexists; repeat (split; [reflexivity |]);
      exists [ev_fopen input_filename false]; (split; [reflexivity |]);
      repeat constructor.
Qed.

(** What follows the opening of the source when the destination is a
    named file that exists. *)
Lemma getFileHandles_existing (input_filename output_filename : string)
  (c : list byte) (w : World) :
  String.eqb output_filename (stdoutmark K) = false ->
  String.eqb output_filename (nulmark K) = false ->
  fs_lookup output_filename (fs w) = Some c ->
  exists pfinput w_in,
    g_overwrite w_in = g_overwrite w
    /\ g_displayLevel w_in = g_displayLevel w
    /\ fs w_in = fs w
    /\ wprotect w_in = wprotect w
    /\ stdin_rest w_in = stdin_rest w
    /\ (exists evs, log w_in = log w ++ evs /\ Forall no_ask evs)
    /\ FIO_getFileHandles K input_filename output_filename w
       = (overwrite_gate output_filename ;;
          pfoutput <- fopen_wb K output_filename ;;
          match pfinput, pfoutput with
          | None, _ => EXM_THROW 12
          | _, None => EXM_THROW 13
          | Some finput, Some foutput => ret (finput, foutput)
          end) (emit (ev_fopen output_filename false) w_in).
Proof.
  intros Hout Hnul Hfile.
  destruct (open_input_spec input_filename w)
    as (pfinput & w_in & Hin & Hov & Hlvl & Hfs & Hwp & Hstdin & Hlog).
  exists pfinput, w_in. repeat (split; [assumption |]).
  unfold FIO_getFileHandles. unfold bind at 1. rewrite Hin.
  rewrite Hout, Hnul. cbn [negb]. unfold bind at 1 2 3.
  unfold file_exists. rewrite Hfs, Hfile. unfold bind.
  destruct (overwrite_gate output_filename _); reflexivity.
Qed.

(** C5.  The destination is a named file (neither the stdout nor the null
    sentinel) that exists.  With the overwrite flag unset and a
    notification level of at most 1 the process exits with code 11
    ("Operation aborted") and the user has not been asked.  With the flag
    unset and a higher level the user is asked, and every answer but 'Y'
    and 'y' (the end of stdin included) exits with code 11; in both cases
    no file has changed.  With the flag set nobody is asked, the file is
    opened for writing, and unless the name is write-protected it is
    empty afterwards. *)
Theorem overwrite_policy (input_filename output_filename : string)
  (c : list byte) (w : World) :
  String.eqb output_filename (stdoutmark K) = false ->
  String.eqb output_filename (nulmark K) = false ->
  fs_lookup output_filename (fs w) = Some c ->
  let o := FIO_getFileHandles K input_filename output_filename w in
  (g_overwrite w = false -> g_displayLevel w <= 1 ->
   exists w' evs,
     o = Exit 11 w' /\ fs w' = fs w
     /\ log w' = log w ++ evs /\ Forall no_ask evs)
  /\
  (g_overwrite w = false -> 1 < g_displayLevel w ->
   hd xff (stdin_rest w) <> x59 -> hd xff (stdin_rest w) <> x79 ->
   exists w',
     o = Exit 11 w' /\ fs w' = fs w
     /\ In (ev_display msg_overwrite_prompt) (log w')
     /\ In ev_getchar (log w'))
  /\
  (g_overwrite w = true ->
   exists evs,
     log (final o) = log w ++ evs /\ Forall no_ask evs
     /\ In (ev_fopen output_filename true) evs
     /\ (mem_name output_filename (wprotect w) = false ->
         fs_lookup output_filename (fs (final o)) = Some [])).
Proof.
  intros Hout Hnul Hfile o.
  destruct (getFileHandles_existing input_filename output_filename c w
              Hout Hnul Hfile)
    as (pfinput & w_in & Hov & Hlvl & Hfs & Hwp & Hstdin & Hlog & Hrun).
  destruct Hlog as [evs0 [Hlog0 Hquiet0]].
  unfold o. rewrite Hrun. clear o Hrun.
  set (w_e := emit (ev_fopen output_filename false) w_in).
  assert (Hlog_e : log w_e = log w ++ evs0 ++ [ev_fopen output_filename false]).
  { unfold w_e. cbn [emit set_log log]. rewrite Hlog0, <- app_assoc.
    reflexivity. }
  assert (Hov_e : g_overwrite w_e = g_overwrite w) by exact Hov.
  assert (Hlvl_e : g_displayLevel w_e = g_displayLevel w) by exact Hlvl.
  assert (Hfs_e : fs w_e = fs w) by exact Hfs.
  assert (Hwp_e : wprotect w_e = wprotect w) by exact Hwp.
  assert (Hstdin_e : stdin_rest w_e = stdin_rest w) by exact Hstdin.
  clearbody w_e. clear Hov Hlvl Hfs Hwp Hstdin Hlog0 w_in.
  split; [| split].
  - (* no interaction possible *)
    intros Hflag Hlevel. unfold bind at 1, overwrite_gate.
    rewrite Hov_e, Hflag, Hlvl_e. cbn [negb].
    destruct (Z.leb_spec (g_displayLevel w) 1) as [_ | Hgt]; [| lia].
    rewrite EXM_THROW_eq.
    destruct (thrown_extends 11 w_e) as [tail Htail].
    exists (thrown 11 w_e),
      (evs0 ++ ev_fopen output_filename false
         :: (if 1 <=? g_displayLevel w_e
             then [ev_display (msg_error 11)] else [])).
    split; [reflexivity |]. split; [rewrite thrown_fs; exact Hfs_e |]. split.
    + unfold thrown. destruct (1 <=? g_displayLevel w_e).
      * cbn [emit set_log log]. rewrite Hlog_e.
        rewrite <- !app_assoc. reflexivity.
      * rewrite Hlog_e. reflexivity.
    + apply Forall_app. split; [exact Hquiet0 |].
      destruct (1 <=? g_displayLevel w_e); repeat constructor.
  - (* the user declines *)
    intros Hflag Hlevel HY Hy. unfold bind at 1, overwrite_gate.
    rewrite Hov_e, Hflag, Hlvl_e. cbn [negb].
    destruct (Z.leb_spec (g_displayLevel w) 1) as [Hle | _]; [lia |].
    unfold bind at 1, DISPLAYLEVEL at 1. rewrite Hlvl_e.
    destruct (Z.leb_spec 2 (g_displayLevel w)) as [_ | Hlt]; [| lia].
    unfold bind at 1, DISPLAYLEVEL at 1. cbn [g_displayLevel emit set_log].
    rewrite Hlvl_e.
    destruct (Z.leb_spec 2 (g_displayLevel w)) as [_ | Hlt]; [| lia].
    unfold bind at 1, getchar. cbn [stdin_rest emit set_log].
    rewrite Hstdin_e.
    assert (Hno : negb (Byte.eqb (hd xff (stdin_rest w)) x59)
                  && negb (Byte.eqb (hd xff (stdin_rest w)) x79) = true).
    { destruct (Byte.eqb (hd xff (stdin_rest w)) x59) eqn:E1;
        [apply Byte.byte_dec_bl in E1; contradiction |].
      destruct (Byte.eqb (hd xff (stdin_rest w)) x79) eqn:E2;
        [apply Byte.byte_dec_bl in E2; contradiction |].
      reflexivity. }
    destruct (stdin_rest w) as [| ch rest]; cbn [hd] in Hno; rewrite Hno;
      rewrite EXM_THROW_eq;
      match goal with
      | |- exists w', Exit 11 (thrown 11 ?x) = _ /\ _ =>
          exists (thrown 11 x); destruct (thrown_extends 11 x) as [tail Htail]
      end;
      (split; [reflexivity |]); (split; [rewrite thrown_fs; exact Hfs_e |]);
      rewrite Htail; cbn [emit set_log set_stdin_rest log];
      split; rewrite !in_app_iff; cbn [In]; tauto.
  - (* overwrite mode *)
    intros Hflag.
    match goal with
    | |- context [final ?run] => remember run as o eqn:Ho
    end.
    unfold bind at 1, overwrite_gate in Ho.
    rewrite Hov_e, Hflag in Ho. cbn [negb] in Ho.
    unfold bind at 1, fopen_wb in Ho. rewrite Hwp_e, Hnul in Ho.
    match type of Ho with
    | context [truncate_source ?n ?x] =>
        destruct (truncate_source_same n x) as (cut & Hcut & _);
        rewrite Hcut in Ho; clear Hcut
    end.
    destruct (mem_name output_filename (wprotect w)) eqn:Hprot.
    + exists (evs0 ++ ev_fopen output_filename false
                :: ev_fopen output_filename true
                :: (if 1 <=? g_displayLevel w_e
                    then [ev_display (msg_error
                            (match pfinput with None => 12 | _ => 13 end))]
                    else [])).
      split; [| split; [| split]].
      * subst o. destruct pfinput; rewrite EXM_THROW_eq; cbn [final];
          unfold thrown; cbn [g_displayLevel emit set_log log];
          destruct (1 <=? g_displayLevel w_e); cbn [emit set_log log];
          rewrite Hlog_e, <- !app_assoc; reflexivity.
      * apply Forall_app. split; [exact Hquiet0 |].
        destruct (1 <=? g_displayLevel w_e); repeat constructor.
      * rewrite in_app_iff. cbn [In]. tauto.
      * discriminate.
    + exists (evs0 ++ ev_fopen output_filename false
                :: ev_fopen output_filename true
                :: (match pfinput with
                    | Some _ => []
                    | None => if 1 <=? g_displayLevel w_e
                              then [ev_display (msg_error 12)] else []
                    end)).
      split; [| split; [| split]].
      * subst o. destruct pfinput;
          [cbn [final ret emit set_log set_fs set_src_rest log];
           rewrite Hlog_e, <- !app_assoc; reflexivity |].
        rewrite EXM_THROW_eq. cbn [final]. unfold thrown.
        cbn [g_displayLevel emit set_log set_fs set_src_rest log].
        destruct (1 <=? g_displayLevel w_e); cbn [emit set_log set_fs set_src_rest log];
          rewrite Hlog_e, <- !app_assoc; reflexivity.
      * apply Forall_app. split; [exact Hquiet0 |].
        destruct pfinput; [| destruct (1 <=? g_displayLevel w_e)];
          repeat constructor.
      * rewrite in_app_iff. cbn [In]. tauto.
      * intros _.
        assert (Hfinal : fs (final o) = fs_store output_filename [] (fs w)).
        { subst o. destruct pfinput; cbv beta iota;
            rewrite ?EXM_THROW_eq; cbn [final ret]; rewrite ?thrown_fs;
            cbn [fs emit set_log set_fs set_src_rest]; rewrite Hfs_e; reflexivity. }
        rewrite Hfinal. apply fs_lookup_store_same.
Qed.

End FileHandles.

Lemma overwrite_policy_witness :
  (exists w' evs,
     FIO_getFileHandles (Store.collab 8 false) "in" "out"
       (world_of 1 false [("in"%string, [x41]); ("out"%string, [x42])])
     = Exit 11 w'
     /\ fs w' = [("in"%string, [x41]); ("out"%string, [x42])]
     /\ log w' = [] ++ evs /\ Forall no_ask evs)
  /\
  (exists w',
     FIO_getFileHandles (Store.collab 8 false) "in" "out"
       (set_stdin_rest [x6e]
          (world_of 2 false [("in"%string, [x41]); ("out"%string, [x42])]))
     = Exit 11 w'
     /\ fs w' = [("in"%string, [x41]); ("out"%string, [x42])]
     /\ In (ev_display msg_overwrite_prompt) (log w')
     /\ In ev_getchar (log w'))
  /\
  (exists evs,
     log (final (FIO_getFileHandles (Store.collab 8 false) "in" "out"
                   (world_of 0 true
                      [("in"%string, [x41]); ("out"%string, [x42])])))
     = [] ++ evs
     /\ Forall no_ask evs
     /\ In (ev_fopen "out" true) evs
     /\ (mem_name "out" [] = false ->
         fs_lookup "out"
           (fs (final (FIO_getFileHandles (Store.collab 8 false) "in" "out"
                         (world_of 0 true
                            [("in"%string, [x41]); ("out"%string, [x42])]))))
         = Some [])).
Proof.
  split; [| split].
  - apply (proj1 (overwrite_policy (Store.collab 8 false) "in" "out" [x42]
                    (world_of 1 false
                       [("in"%string, [x41]); ("out"%string, [x42])])
                    eq_refl eq_refl eq_refl)).
    + reflexivity.
    + cbn. lia.
  - apply (proj1 (proj2 (overwrite_policy (Store.collab 8 false) "in" "out"
                           [x42]
                           (set_stdin_rest [x6e]
                              (world_of 2 false
                                 [("in"%string, [x41]); ("out"%string, [x42])]))
                           eq_refl eq_refl eq_refl))).
    + reflexivity.
    + cbn. lia.
    + discriminate.
    + discriminate.
  - apply (proj2 (proj2 (overwrite_policy (Store.collab 8 false) "in" "out"
                           [x42]
                           (world_of 0 true
                              [("in"%string, [x41]); ("out"%string, [x42])])
                           eq_refl eq_refl eq_refl))).
    reflexivity.
Defined.

(** ** Reading and writing, step by step *)

Lemma fread_spec (n : Z) (f : FILE) (w : World) :
  exists w1,
    fread n f w = Ok (firstn (Z.to_nat n) (pending_input f w)) w1
    /\ log w1 = log w ++ [ev_fread f n (firstn (Z.to_nat n) (pending_input f w))]
    /\ pending_input f w1 = skipn (Z.to_nat n) (pending_input f w)
    /\ fs w1 = fs w /\ room w1 = room w /\ fclose_ok w1 = fclose_ok w
    /\ g_displayLevel w1 = g_displayLevel w.
Proof.
  destruct f; cbn [fread pending_input]; rewrite ?firstn_nil, ?skipn_nil;
    eexists; repeat split; reflexivity.
Qed.

Lemma pending_append_to (f g : FILE) (data : list byte) (w : World) :
  pending_input f (append_to g data w) = pending_input f w.
Proof.
  destruct g; try reflexivity. cbn [append_to].
  destruct (fs_lookup name (fs w)); destruct f; reflexivity.
Qed.

Lemma fwrite_spec (data : list byte) (f : FILE) (w : World) :
  exists k w1,
    fwrite data f w = Ok k w1
    /\ log w1 = log w ++ [ev_fwrite f data k]
    /\ (forall g, pending_input g w1 = pending_input g w)
    /\ fclose_ok w1 = fclose_ok w
    /\ g_displayLevel w1 = g_displayLevel w.
Proof.
  assert (Hkeep : forall g part x e,
    pending_input g (emit e (set_room x (append_to f part w)))
    = pending_input g w).
  { intros g part x e. rewrite <- (pending_append_to g f part w).
    destruct g; reflexivity. }
  assert (Hclose : forall part, fclose_ok (append_to f part w) = fclose_ok w).
  { intros part. destruct f; try reflexivity. cbn [append_to].
    destruct (fs_lookup name (fs w)); reflexivity. }
  assert (Hlevel : forall part,
    g_displayLevel (append_to f part w) = g_displayLevel w).
  { intros part. destruct f; try reflexivity. cbn [append_to].
    destruct (fs_lookup name (fs w)); reflexivity. }
  unfold fwrite.
  destruct f; try destruct (len data <=? room w); do 2 eexists;
    (split; [reflexivity |]);
    (split; [cbn [emit set_log set_room log]; rewrite ?log_append_to;
             reflexivity |]);
    (split; [intros g; try apply Hkeep; destruct g; reflexivity |]);
    (split; [cbn [emit set_log set_room fclose_ok]; try apply Hclose;
             reflexivity
            | cbn [emit set_log set_room g_displayLevel]; try apply Hlevel;
              reflexivity]).
Qed.

(** ** The compression loop, one iteration at a time *)

Lemma thrown_log (error : Z) (w : World) :
  log (thrown error w) = log w ++ thrown_events error w.
Proof.
  unfold thrown, thrown_events. destruct (1 <=? g_displayLevel w).
  - reflexivity.
  - symmetry. apply app_nil_r.
Qed.

Lemma fed_app (a b : list event) : fed (a ++ b) = fed a ++ fed b.
Proof.
  induction a as [| e a IH]; [reflexivity |].
  destruct e; cbn [app fed]; rewrite IH; reflexivity.
Qed.

Lemma chunks_read_app (a b : list event) :
  chunks_read (a ++ b) = chunks_read a ++ chunks_read b.
Proof.
  induction a as [| e a IH]; [reflexivity |].
  destruct e; cbn [app chunks_read]; rewrite IH; try reflexivity.
  destruct (len got =? 0); reflexivity.
Qed.


Lemma written_app (a b : list event) : written (a ++ b) = written a + written b.
Proof.
  induction a as [| e a IH]; [reflexivity |].
  destruct e; cbn [app written]; rewrite IH; lia.
Qed.

Section CompressLoop.

Variable K : Collab.

(** One iteration of the main compression loop in full: what is read, and
    in each of the five ways the iteration can go, how the loop ends or
    goes on. *)
Lemma compress_loop_iteration (fuel : nat) (ctx : CCtx K)
  (finput foutput : FILE) (inBuff : list byte) (inBuffSize outBuffSize : Z)
  (filesize csize : Z) (w : World) :
  let got := firstn (Z.to_nat inBuffSize) (pending_input finput w) in
  let r := ZBUFF_compressContinue K ctx outBuffSize got in
  let e := ev_compressContinue got (st_dst (snd r)) (st_used (snd r))
             (st_result (snd r)) in
  let run := compress_loop K (S fuel) ctx finput foutput inBuff inBuffSize
               outBuffSize filesize csize w in
  exists w1,
    log w1 = log w ++ [ev_fread finput inBuffSize got]
    /\ pending_input finput w1
       = skipn (Z.to_nat inBuffSize) (pending_input finput w)
    /\ g_displayLevel w1 = g_displayLevel w
    /\ if len got =? 0 then run = Ok (ctx, filesize, csize) w1
       else if ZBUFF_isError K (st_result (snd r))
       then run = Exit 23 (thrown 23 (emit e w1))
       else if negb (len got =? st_used (snd r))
       then run = Exit 24 (thrown 24 (emit e w1))
       else
         exists k w3,
           log w3 = log w1 ++ [e; ev_fwrite foutput (st_dst (snd r)) k]
           /\ pending_input finput w3 = pending_input finput w1
           /\ g_displayLevel w3 = g_displayLevel w
           /\ if negb (k =? len (st_dst (snd r)))
              then run = Exit 25 (thrown 25 w3)
              else run = compress_loop K fuel (fst r) finput foutput
                           (store got inBuff) inBuffSize outBuffSize
                           (to_U64 (filesize + len got))
                           (to_U64 (csize + len (st_dst (snd r)))) w3.
Proof.
  intros got r e run.
  destruct (fread_spec inBuffSize finput w)
    as (w1 & Hread & Hlog1 & Hpend1 & _ & _ & _ & Hlvl1).
  fold got in Hread, Hlog1.
  assert (Hrun :
    run = if len got =? 0 then Ok (ctx, filesize, csize) w1
          else if ZBUFF_isError K (st_result (snd r))
          then Exit 23 (thrown 23 (emit e w1))
          else if negb (len got =? st_used (snd r))
          then Exit 24 (thrown 24 (emit e w1))
          else
            (sizeCheck <- fwrite (st_dst (snd r)) foutput ;;
             if negb (sizeCheck =? len (st_dst (snd r))) then EXM_THROW 25
             else compress_loop K fuel (fst r) finput foutput
                    (store got inBuff) inBuffSize outBuffSize
                    (to_U64 (filesize + len got))
                    (to_U64 (csize + len (st_dst (snd r))))) (emit e w1)).
  { unfold run. cbn [compress_loop]. unfold bind at 1. rewrite Hread.
    destruct (len got =? 0); [reflexivity |].
    unfold bind at 1, compressContinue at 1. cbv zeta.
    rewrite (view_store got inBuff). fold r. fold e.
    destruct (ZBUFF_isError K (st_result (snd r))); [apply EXM_THROW_eq |].
    destruct (negb (len got =? st_used (snd r))); [apply EXM_THROW_eq |].
    reflexivity. }
  clearbody run. subst run.
  exists w1. repeat (split; [assumption |]).
  destruct (len got =? 0); [reflexivity |].
  destruct (ZBUFF_isError K (st_result (snd r))); [reflexivity |].
  destruct (negb (len got =? st_used (snd r))); [reflexivity |].
  destruct (fwrite_spec (st_dst (snd r)) foutput (emit e w1))
    as (k & w3 & Hwrite & Hlog3 & Hpend3 & _ & Hlvl3).
  exists k, w3. split; [| split; [| split]].
  - rewrite Hlog3. cbn [emit set_log log]. rewrite <- app_assoc. reflexivity.
  - rewrite Hpend3. destruct finput; reflexivity.
  - rewrite Hlvl3. exact Hlvl1.
  - destruct (negb (k =? len (st_dst (snd r)))) eqn:Hk;
      unfold bind; rewrite Hwrite, Hk; [apply EXM_THROW_eq | reflexivity].
Qed.

Lemma fed_thrown (error : Z) (w : World) : fed (thrown_events error w) = [].
Proof. unfold thrown_events. destruct (1 <=? g_displayLevel w); reflexivity. Qed.

Lemma chunks_read_thrown (error : Z) (w : World) :
  chunks_read (thrown_events error w) = [].
Proof. unfold thrown_events. destruct (1 <=? g_displayLevel w); reflexivity. Qed.

(** Throughout the main loop, whichever way it ends, the encoder has been
    fed exactly the chunks that were read, each in one call. *)
Lemma compress_loop_feeds_reads (fuel : nat) :
  forall ctx finput foutput inBuff inBuffSize outBuffSize filesize csize w,
  exists evs,
    log (final (compress_loop K fuel ctx finput foutput inBuff inBuffSize
                  outBuffSize filesize csize w)) = log w ++ evs
    /\ fed evs = chunks_read evs.
Proof.
  induction fuel as [| fuel IH]; intros.
  - exists []. split; [symmetry; apply app_nil_r | reflexivity].
  - destruct (compress_loop_iteration fuel ctx finput foutput inBuff
                inBuffSize outBuffSize filesize csize w)
      as (w1 & Hlog1 & _ & _ & Hrun).
    set (got := firstn (Z.to_nat inBuffSize) (pending_input finput w)) in *.
    set (r := ZBUFF_compressContinue K ctx outBuffSize got) in *.
    set (e := ev_compressContinue got (st_dst (snd r)) (st_used (snd r))
                (st_result (snd r))) in *.
    destruct (len got =? 0) eqn:Hgot.
    { rewrite Hrun. exists [ev_fread finput inBuffSize got].
      split; [exact Hlog1 |]. cbn [fed chunks_read]. rewrite Hgot.
      reflexivity. }
    destruct (ZBUFF_isError K (st_result (snd r))).
    { rewrite Hrun. cbn [final]. rewrite thrown_log.
      exists ([ev_fread finput inBuffSize got; e] ++ thrown_events 23 (emit e w1)).
      split.
      - cbn [emit set_log log]. rewrite Hlog1, <- !app_assoc. reflexivity.
      - rewrite fed_app, chunks_read_app, fed_thrown, chunks_read_thrown.
        cbn [fed chunks_read e]. rewrite Hgot. reflexivity. }
    destruct (negb (len got =? st_used (snd r))).
    { rewrite Hrun. cbn [final]. rewrite thrown_log.
      exists ([ev_fread finput inBuffSize got; e] ++ thrown_events 24 (emit e w1)).
      split.
      - cbn [emit set_log log]. rewrite Hlog1, <- !app_assoc. reflexivity.
      - rewrite fed_app, chunks_read_app, fed_thrown, chunks_read_thrown.
        cbn [fed chunks_read e]. rewrite Hgot. reflexivity. }
    destruct Hrun as (k & w3 & Hlog3 & _ & _ & Hrun).
    destruct (negb (k =? len (st_dst (snd r)))).
    { rewrite Hrun. cbn [final]. rewrite thrown_log.
      exists ([ev_fread finput inBuffSize got; e;
               ev_fwrite foutput (st_dst (snd r)) k] ++ thrown_events 25 w3).
      split.
      - rewrite Hlog3, Hlog1, <- !app_assoc. reflexivity.
      - rewrite fed_app, chunks_read_app, fed_thrown, chunks_read_thrown.
        cbn [fed chunks_read e]. rewrite Hgot. reflexivity. }
    rewrite Hrun.
    destruct (IH (fst r) finput foutput (store got inBuff) inBuffSize
                outBuffSize (to_U64 (filesize + len got))
                (to_U64 (csize + len (st_dst (snd r)))) w3)
      as (evs & Hlog & Hfed).
    exists ([ev_fread finput inBuffSize got; e;
             ev_fwrite foutput (st_dst (snd r)) k] ++ evs).
    split.
    + rewrite Hlog, Hlog3, Hlog1, <- !app_assoc. reflexivity.
    + rewrite fed_app, chunks_read_app, Hfed.
      cbn [fed chunks_read e]. rewrite Hgot. reflexivity.
Qed.

(** C6.  In the main compression loop the chunks handed to "compress
    continue" are exactly the chunks read from the source, one call per
    chunk; and when a call that reports no error has not consumed the
    whole chunk, the process exits at once with code 24 ("input block not
    fully consumed"): the log ends with the read, that single call and the
    error message. *)
Theorem chunk_fed_whole (fuel : nat) (ctx : CCtx K) (finput foutput : FILE)
  (inBuff : list byte) (inBuffSize outBuffSize filesize csize : Z)
  (w : World) :
  (exists evs,
     log (final (compress_loop K fuel ctx finput foutput inBuff inBuffSize
                   outBuffSize filesize csize w)) = log w ++ evs
     /\ fed evs = chunks_read evs)
  /\
  (let got := firstn (Z.to_nat inBuffSize) (pending_input finput w) in
   let r := ZBUFF_compressContinue K ctx outBuffSize got in
   len got <> 0 ->
   ZBUFF_isError K (st_result (snd r)) = false ->
   st_used (snd r) <> len got ->
   exists w2,
     compress_loop K (S fuel) ctx finput foutput inBuff inBuffSize
       outBuffSize filesize csize w = Exit 24 w2
     /\ log w2
        = log w ++ ev_fread finput inBuffSize got
            :: ev_compressContinue got (st_dst (snd r)) (st_used (snd r))
                 (st_result (snd r))
            :: thrown_events 24 w).
Proof.
  split; [apply compress_loop_feeds_reads |].
  intros got r Hgot Herr Hused.
  destruct (compress_loop_iteration fuel ctx finput foutput inBuff
              inBuffSize outBuffSize filesize csize w)
    as (w1 & Hlog1 & _ & Hlvl & Hrun).
  fold got in Hlog1, Hrun. fold r in Hrun.
  destruct (Z.eqb_spec (len got) 0) as [E | _]; [contradiction |].
  rewrite Herr in Hrun.
  destruct (Z.eqb_spec (len got) (st_used (snd r))) as [E | _];
    [symmetry in E; contradiction |].
  cbn [negb] in Hrun. eexists. split; [exact Hrun |].
  rewrite thrown_log. cbn [emit set_log log]. rewrite Hlog1, <- !app_assoc.
  unfold thrown_events. cbn [g_displayLevel emit set_log]. rewrite Hlvl.
  reflexivity.
Qed.

End CompressLoop.

Lemma chunk_fed_whole_witness :
  exists w2,
    compress_loop (Store.collab 4 false) 1 false (f_named "in") (f_named "c")
      (repeat x00 8) 8 16 0 0
      (set_src_rest [x41; x42; x43; x44; x45] (world_of 2 false [])) = Exit 24 w2
    /\ log w2
       = [] ++ ev_fread (f_named "in") 8 [x41; x42; x43; x44; x45]
           :: ev_compressContinue [x41; x42; x43; x44; x45]
                [x53; x54; x4f; x52; x04; x41; x42; x43; x44] 4 0
           :: [ev_display (msg_error 24)].
Proof.
  apply (proj2 (chunk_fed_whole (Store.collab 4 false) 0 false (f_named "in")
                  (f_named "c") (repeat x00 8) 8 16 0 0
                  (set_src_rest [x41; x42; x43; x44; x45]
                     (world_of 2 false [])))).
  - discriminate.
  - reflexivity.
  - discriminate.
Defined.

(** ** A whole compression run *)

Lemma flushes_app (a b : list event) : flushes (a ++ b) = (flushes a + flushes b)%nat.
Proof. unfold flushes. rewrite filter_app, length_app. reflexivity. Qed.

Lemma no_flush_flushes (evs : list event) : Forall no_flush evs -> flushes evs = 0%nat.
Proof.
  unfold flushes. induction 1 as [| e evs He _ IH]; [reflexivity |].
  cbn [filter]. rewrite He. exact IH.
Qed.




Ltac setup_step :=
  first
    [ apply emits_ret
    | apply emits_EXM_THROW; reflexivity
    | apply emits_DISPLAYLEVEL; reflexivity
    | apply emits_malloc
    | apply emits_fclose_output
    | apply emits_getchar; reflexivity
    | apply emits_fopen_rb; reflexivity
    | apply emits_file_exists; reflexivity
    | apply emits_fopen_wb; reflexivity
    | apply emits_bind; [| intros ]
    | match goal with
      | |- emits _ (if ?c then _ else _) => destruct c
      | |- emits _ (match ?x with Some _ => _ | None => _ end) => destruct x
      end ].

Lemma overwrite_gate_setup (name : string) :
  emits setup_event (overwrite_gate name).
Proof.
  intros w. unfold overwrite_gate.
  destruct (negb (g_overwrite w)).
  - destruct (g_displayLevel w <=? 1).
    + apply emits_EXM_THROW. reflexivity.
    + revert w. change (emits setup_event
        (DISPLAYLEVEL 2 (msg_already_exists name) ;;
         DISPLAYLEVEL 2 msg_overwrite_prompt ;;
         ch <- getchar ;;
         if negb (Byte.eqb ch x59) && negb (Byte.eqb ch x79)
         then EXM_THROW 11 else ret tt)).
      repeat setup_step.
  - apply (emits_ret setup_event tt w).
Qed.

Lemma FIO_getFileHandles_setup (K : Collab)
  (input_filename output_filename : string) :
  emits setup_event (FIO_getFileHandles K input_filename output_filename).
Proof.
  unfold FIO_getFileHandles.
  repeat (setup_step || apply overwrite_gate_setup).
Qed.

(** A computation that returns has run both halves of a [bind]. *)
Lemma bind_Ok {A B} (m : M A) (k : A -> M B) (w w' : World) (b : B) :
  bind m k w = Ok b w' -> exists a w1, m w = Ok a w1 /\ k a w1 = Ok b w'.
Proof.
  unfold bind. destruct (m w) as [a w1 | c w1 | w1]; intros H;
    [exists a, w1; split; [reflexivity | exact H] | discriminate H
    | discriminate H].
Qed.

Lemma emits_Ok (P : event -> Prop) {A} (m : M A) (w w' : World) (a : A) :
  emits P m -> m w = Ok a w' ->
  exists evs, log w' = log w ++ evs /\ Forall P evs.
Proof. intros Hm Hrun. specialize (Hm w). rewrite Hrun in Hm. exact Hm. Qed.

Lemma to_U64_add_l (a b : Z) : to_U64 (to_U64 a + b) = to_U64 (a + b).
Proof. unfold to_U64. apply Z.add_mod_idemp_l. lia. Qed.

Lemma to_U64_small (a : Z) : 0 <= a < 2 ^ 64 -> to_U64 a = a.
Proof. intros H. unfold to_U64. apply Z.mod_small. exact H. Qed.


Lemma flushes_quiet {A} (m : M A) : emits no_flush m -> flushes_at_most 0 m.
Proof.
  intros Hm w. destruct (Hm w) as (evs & Hlog & Hq). exists evs.
  split; [exact Hlog |]. rewrite (no_flush_flushes evs Hq). lia.
Qed.

Lemma flushes_bind (a b : nat) {A B} (m : M A) (k : A -> M B) :
  flushes_at_most a m -> (forall x, flushes_at_most b (k x)) ->
  flushes_at_most (a + b) (bind m k).
Proof.
  intros Hm Hk w. unfold bind. destruct (Hm w) as (e1 & H1 & F1).
  destruct (m w) as [x w1 | c w1 | w1]; cbn [final] in *.
  - destruct (Hk x w1) as (e2 & H2 & F2). exists (e1 ++ e2). split.
    + rewrite H2, H1. symmetry. apply app_assoc.
    + rewrite flushes_app. lia.
  - exists e1. split; [exact H1 | lia].
  - exists e1. split; [exact H1 | lia].
Qed.

Lemma emits_getFileSize (P : event -> Prop) (name : string) :
  emits P (FIO_getFileSize name).
Proof. intros w. exists []. split; [symmetry; apply app_nil_r | constructor]. Qed.

Section CompressRun.

Variable K : Collab.



(** The block "End of Frame", in its three ways to end. *)
Lemma compress_end_of_frame_cases (ctx : CCtx K) (foutput : FILE)
  (outBuffSize csize : Z) (w : World) :
  let r := ZBUFF_compressEnd K ctx outBuffSize in
  let dst := fst (snd r) in
  let w1 := emit (ev_compressEnd dst (snd (snd r))) w in
  let run := compress_end_of_frame K ctx foutput outBuffSize csize w in
  if negb (snd (snd r) =? 0) then run = Exit 26 (thrown 26 w1)
  else
    exists k w2,
      log w2 = log w ++ [ev_compressEnd dst (snd (snd r)); ev_fwrite foutput dst k]
      /\ if negb (k =? len dst) then run = Exit 27 (thrown 27 w2)
         else run = Ok (fst r, to_U64 (csize + len dst)) w2.
Proof.
  intros r dst w1 run.
  assert (Hrun :
    run = if negb (snd (snd r) =? 0) then Exit 26 (thrown 26 w1)
          else (sizeCheck <- fwrite dst foutput ;;
                if negb (sizeCheck =? len dst) then EXM_THROW 27
                else ret (fst r, to_U64 (csize + len dst))) w1).
  { unfold run, compress_end_of_frame.
    unfold bind at 1, compressEnd at 1. cbv zeta. fold r. fold dst. fold w1.
    destruct (negb (snd (snd r) =? 0)); [apply EXM_THROW_eq | reflexivity]. }
  clearbody run. subst run.
  destruct (negb (snd (snd r) =? 0)); [reflexivity |].
  destruct (fwrite_spec dst foutput w1) as (k & w2 & Hwrite & Hlog2 & _).
  exists k, w2. split.
  - rewrite Hlog2. unfold w1. cbn [emit set_log log].
    rewrite <- app_assoc. reflexivity.
  - destruct (negb (k =? len dst)) eqn:Hk; unfold bind;
      rewrite Hwrite, Hk; [apply EXM_THROW_eq | reflexivity].
Qed.


Lemma compress_end_of_frame_flushes (ctx : CCtx K) (foutput : FILE)
  (outBuffSize csize : Z) :
  flushes_at_most 1 (compress_end_of_frame K ctx foutput outBuffSize csize).
Proof.
  intros w.
  pose proof (compress_end_of_frame_cases ctx foutput outBuffSize csize w)
    as Hcases.
  cbv zeta in Hcases.
  set (r := ZBUFF_compressEnd K ctx outBuffSize) in *.
  destruct (negb (snd (snd r) =? 0)).
  - rewrite Hcases. cbn [final]. rewrite thrown_log. cbn [emit set_log log].
    eexists. split; [rewrite <- app_assoc; reflexivity |].
    rewrite flushes_app. unfold thrown_events.
    destruct (1 <=? _); cbn; lia.
  - destruct Hcases as (k & w2 & Hlog2 & Hcases).
    destruct (negb (k =? len (fst (snd r)))); rewrite Hcases; cbn [final].
    + rewrite thrown_log, Hlog2. eexists.
      split; [rewrite <- app_assoc; reflexivity |].
      rewrite flushes_app. unfold thrown_events.
      destruct (1 <=? _); cbn; lia.
    + rewrite Hlog2. eexists. split; [reflexivity |]. cbn. lia.
Qed.

Lemma FIO_compressFilename_flushes (fuel : nat)
  (output_filename input_filename : string) (cLevel : Z) :
  flushes_at_most 1
    (FIO_compressFilename K fuel output_filename input_filename cLevel).
Proof.
  unfold FIO_compressFilename.
  apply (flushes_bind 0 1); [apply flushes_quiet, emits_malloc |].
  intros inBuff.
  apply (flushes_bind 0 1); [apply flushes_quiet, emits_malloc |].
  intros outBuff.
  assert (Hthrow : flushes_at_most 1 (@EXM_THROW Z 21)).
  { apply (flushes_bind 0 1 (ret tt) (fun _ => EXM_THROW 21)).
    - apply flushes_quiet, emits_ret.
    - intros _ w. destruct (emits_EXM_THROW no_flush (A := Z) 21 eq_refl w)
        as (evs & Hlog & Hq).
      exists evs. split; [exact Hlog |].
      rewrite (no_flush_flushes evs Hq). lia. }
  destruct inBuff as [inBuff |]; [| exact Hthrow].
  destruct outBuff as [outBuff |]; [| exact Hthrow].
  destruct (ZBUFF_createCCtx K) as [ctx |]; [| exact Hthrow].
  apply (flushes_bind 0 1);
    [apply flushes_quiet, FIO_getFileHandles_quiet |].
  intros handles.
  apply (flushes_bind 0 1); [apply flushes_quiet, emits_getFileSize |].
  intros filesize.
  destruct (ZBUFF_isError K _).
  { intros w. destruct (emits_EXM_THROW no_flush (A := Z) 22 eq_refl w)
      as (evs & Hlog & Hq).
    exists evs. split; [exact Hlog |].
    rewrite (no_flush_flushes evs Hq). lia. }
  apply (flushes_bind 0 1); [apply flushes_quiet, compress_loop_quiet |].
  intros main.
  apply (flushes_bind 1 0); [apply compress_end_of_frame_flushes |].
  intros fin. apply flushes_quiet. repeat quiet_step.
Qed.










End CompressRun.

(** ** How much input a run can find *)

Lemma narrows_refl (w : World) : narrows w w.
Proof. split; [apply Nat.le_refl | left; reflexivity]. Qed.

Lemma narrows_trans (a b c : World) : narrows a b -> narrows b c -> narrows a c.
Proof.
  intros [H1 H2] [H3 H4]. split; [lia |].
  destruct H4 as [H4 | H4]; [| right; exact H4].
  destruct H2 as [H2 | H2]; [left | right]; congruence.
Qed.

Lemma keeps_ret {A} (a : A) : keeps_input (ret a).
Proof. intros w. apply narrows_refl. Qed.

Lemma keeps_bind {A B} (m : M A) (k : A -> M B) :
  keeps_input m -> (forall a, keeps_input (k a)) -> keeps_input (bind m k).
Proof.
  intros Hm Hk w. unfold bind. specialize (Hm w).
  destruct (m w) as [a w1 | c w1 | w1]; cbn [final] in *; [| exact Hm ..].
  eapply narrows_trans; [exact Hm | apply Hk].
Qed.

Ltac same_input := split; [apply Nat.le_refl | left; reflexivity].

Lemma keeps_DISPLAYLEVEL (l : Z) (m : message) : keeps_input (DISPLAYLEVEL l m).
Proof.
  intros w. unfold DISPLAYLEVEL. cbn [final].
  destruct (l <=? g_displayLevel w); same_input.
Qed.

Lemma keeps_EXM_THROW {A} (error : Z) : keeps_input (@EXM_THROW A error).
Proof. intros w. apply (keeps_DISPLAYLEVEL 1 (msg_error error) w). Qed.

Lemma keeps_getchar : keeps_input getchar.
Proof.
  intros w. unfold getchar. destruct (stdin_rest w) as [| c rest] eqn:E;
    cbn [final]; split; cbn; rewrite ?E; cbn; try lia; left; reflexivity.
Qed.

Lemma keeps_file_exists (name : string) : keeps_input (file_exists name).
Proof. intros w. same_input. Qed.

Lemma keeps_fopen_wb (K : Collab) (name : string) : keeps_input (fopen_wb K name).
Proof.
  intros w. unfold fopen_wb. destruct (mem_name name (wprotect w));
    [same_input |].
  destruct (String.eqb name (nulmark K)); [same_input |].
  destruct (truncate_source_same name w) as (rest & -> & Hrest).
  split; [apply Nat.le_refl | exact Hrest].
Qed.

Lemma keeps_overwrite_gate (name : string) : keeps_input (overwrite_gate name).
Proof.
  intros w. unfold overwrite_gate. destruct (negb (g_overwrite w)).
  - destruct (g_displayLevel w <=? 1); [apply keeps_EXM_THROW |].
    revert w. change (keeps_input
      (DISPLAYLEVEL 2 (msg_already_exists name) ;;
       DISPLAYLEVEL 2 msg_overwrite_prompt ;;
       ch <- getchar ;;
       if negb (Byte.eqb ch x59) && negb (Byte.eqb ch x79)
       then EXM_THROW 11 else ret tt)).
    apply keeps_bind; [apply keeps_DISPLAYLEVEL | intros _].
    apply keeps_bind; [apply keeps_DISPLAYLEVEL | intros _].
    apply keeps_bind; [apply keeps_getchar | intros ch].
    destruct (_ && _); [apply keeps_EXM_THROW | apply keeps_ret].
  - apply narrows_refl.
Qed.

(** The stream [FIO_getFileHandles] returns for reading holds no more than
    [input_bound]. *)
Lemma getFileHandles_pending (K : Collab)
  (input_filename output_filename : string) (w w1 : World)
  (finput foutput : FILE) :
  FIO_getFileHandles K input_filename output_filename w
  = Ok (finput, foutput) w1 ->
  (length (pending_input finput w1) <= input_bound input_filename w)%nat.
Proof.
  unfold FIO_getFileHandles. intros H.
  apply bind_Ok in H. destruct H as (pfinput & w_in & Hin & H).
  apply bind_Ok in H. destruct H as (pfoutput & w_o & Hout & H).
  assert (Hkeep : narrows w_in w_o).
  { match type of Hout with
    | ?m w_in = _ => assert (Hm : keeps_input m)
    end.
    { destruct (String.eqb output_filename (stdoutmark K)).
      - apply keeps_bind; [apply keeps_DISPLAYLEVEL | intros; apply keeps_ret].
      - apply keeps_bind.
        + destruct (negb _); [apply keeps_file_exists | apply keeps_ret].
        + intros found. apply keeps_bind; [| intros; apply keeps_fopen_wb].
          destruct found; [apply keeps_overwrite_gate | apply keeps_ret]. }
    specialize (Hm w_in). rewrite Hout in Hm. exact Hm. }
  destruct Hkeep as [Hstdin Hsrc].
  destruct pfinput as [fi |]; [| discriminate H].
  destruct pfoutput as [fo |]; [| discriminate H].
  injection H as Hfi Hfo Hw. subst fi fo w_o.
  unfold input_bound.
  destruct (String.eqb input_filename (stdinmark K)).
  - unfold bind, DISPLAYLEVEL, ret in Hin. injection Hin as Hfi Hw.
    subst finput. cbn [pending_input].
    assert (stdin_rest w_in = stdin_rest w) as E
      by (subst w_in; destruct (4 <=? g_displayLevel w); reflexivity).
    rewrite E in Hstdin. lia.
  - unfold fopen_rb in Hin.
    destruct (fs_lookup input_filename (fs w)) as [c |];
      [| discriminate Hin].
    injection Hin as Hfi Hw. subst finput. cbn [pending_input].
    destruct Hsrc as [Hsrc | Hsrc]; rewrite Hsrc; subst w_in; cbn; lia.
Qed.

(** ** Computations that never run out of fuel *)

Lemma total_bind {A B} (m : M A) (k : A -> M B) :
  total m -> (forall a, total (k a)) -> total (bind m k).
Proof.
  intros Hm Hk w w'. unfold bind. specialize (Hm w).
  destruct (m w) as [a w1 | c w1 | w1];
    [apply Hk | discriminate | intros H; apply (Hm w1); reflexivity].
Qed.


Lemma total_EXM_THROW {A} (error : Z) : total (@EXM_THROW A error).
Proof. intros w w'. rewrite EXM_THROW_eq. discriminate. Qed.

Lemma total_overwrite_gate (name : string) : total (overwrite_gate name).
Proof.
  intros w w'. unfold overwrite_gate. destruct (negb (g_overwrite w));
    [| discriminate].
  destruct (g_displayLevel w <=? 1); [apply total_EXM_THROW |].
  revert w w'. change (total
    (DISPLAYLEVEL 2 (msg_already_exists name) ;;
     DISPLAYLEVEL 2 msg_overwrite_prompt ;;
     ch <- getchar ;;
     if negb (Byte.eqb ch x59) && negb (Byte.eqb ch x79)
     then EXM_THROW 11 else ret tt)).
  apply total_bind; [intros w w'; discriminate | intros _].
  apply total_bind; [intros w w'; discriminate | intros _].
  apply total_bind.
  - intros w w'. unfold getchar. destruct (stdin_rest w); discriminate.
  - intros ch. destruct (_ && _); [apply total_EXM_THROW | discriminate].
Qed.

Lemma total_FIO_getFileHandles (K : Collab)
  (input_filename output_filename : string) :
  total (FIO_getFileHandles K input_filename output_filename).
Proof.
  unfold FIO_getFileHandles. apply total_bind.
  - destruct (String.eqb input_filename (stdinmark K)).
    + apply total_bind; intros; discriminate.
    + intros w w'. unfold fopen_rb.
      destruct (fs_lookup input_filename (fs w)); discriminate.
  - intros pfinput. apply total_bind.
    + destruct (String.eqb output_filename (stdoutmark K)).
      * apply total_bind; intros; discriminate.
      * apply total_bind.
        { destruct (negb _); intros w w'; discriminate. }
        intros found. apply total_bind.
        { destruct found; [apply total_overwrite_gate | discriminate]. }
        intros _ w w'. unfold fopen_wb.
        destruct (mem_name output_filename (wprotect w)); [discriminate |].
        destruct (String.eqb output_filename (nulmark K)); discriminate.
    + intros pfoutput. destruct pfinput, pfoutput;
        try apply total_EXM_THROW. discriminate.
Qed.



Section CompressCount.

Variable K : Collab.


End CompressCount.

(** ** An empty source *)

(** A write that fits goes through whole. *)
Lemma fwrite_fits (data : list byte) (f : FILE) (w : World) :
  f <> f_stdin -> len data <= room w ->
  exists w1,
    fwrite data f w = Ok (len data) w1
    /\ log w1 = log w ++ [ev_fwrite f data (len data)]
    /\ fclose_ok w1 = fclose_ok w
    /\ g_displayLevel w1 = g_displayLevel w.
Proof.
  intros Hf Hroom.
  destruct (fwrite_spec data f w) as (k & w1 & Hwrite & Hlog & _ & Hc & Hl).
  assert (Hk : k = len data).
  { unfold fwrite in Hwrite. destruct f; try contradiction;
      try (destruct (Z.leb_spec (len data) (room w)); [| lia]);
      injection Hwrite as Hk _; symmetry; exact Hk. }
  subst k. exists w1. repeat split; assumption.
Qed.

(** The destination [FIO_getFileHandles] returns is never stdin. *)
Lemma getFileHandles_output (K : Collab)
  (input_filename output_filename : string) (w w1 : World)
  (finput foutput : FILE) :
  FIO_getFileHandles K input_filename output_filename w
  = Ok (finput, foutput) w1 -> foutput <> f_stdin.
Proof.
  unfold FIO_getFileHandles. intros H.
  apply bind_Ok in H. destruct H as (pfinput & w_in & _ & H).
  apply bind_Ok in H. destruct H as (pfoutput & w_o & Hout & H).
  destruct pfinput as [fi |]; [| discriminate H].
  destruct pfoutput as [fo |]; [| discriminate H].
  injection H as _ Hfo _. subst fo.
  destruct (String.eqb output_filename (stdoutmark K)).
  - apply bind_Ok in Hout. destruct Hout as (u & w2 & _ & Hout).
    injection Hout as Hfo _. subst foutput. discriminate.
  - apply bind_Ok in Hout. destruct Hout as (found & w2 & _ & Hout).
    apply bind_Ok in Hout. destruct Hout as (u & w3 & _ & Hout).
    unfold fopen_wb in Hout.
    destruct (mem_name output_filename (wprotect w3)); [discriminate Hout |].
    destruct (String.eqb output_filename (nulmark K));
      injection Hout as Hfo _; subst foutput; discriminate.
Qed.

Section EmptyInput.

Variable K : Collab.

(** C10.  The source is empty, the set-up succeeds, "compress end"
    returns 0 and its output fits the destination.  Then the run makes no
    "compress continue" call: after the set-up it reads nothing, calls
    "compress end" once, writes its output whole, and returns the size of
    that output. *)
Theorem empty_input_frame (fuel : nat)
  (output_filename input_filename : string) (cLevel : Z) (w w1 : World)
  (finput foutput : FILE) (ctx : CCtx K) :
  heap_ok w = true ->
  ZBUFF_createCCtx K = Some ctx ->
  FIO_getFileHandles K input_filename output_filename w
  = Ok (finput, foutput) w1 ->
  pending_input finput w1 = [] ->
  let filesize := match fs_lookup input_filename (fs w1) with
                  | Some c => to_U64 (len c)
                  | None => 0
                  end in
  let init := ZBUFF_compressInit_advanced K ctx
                (ZSTD_getParams K cLevel filesize) in
  let r := ZBUFF_compressEnd K (fst init) (ZBUFF_recommendedCOutSize K) in
  let dst := fst (snd r) in
  ZBUFF_isError K (snd init) = false ->
  snd (snd r) = 0 ->
  len dst <= room w1 ->
  fclose_ok w1 = true ->
  exists w' post,
    FIO_compressFilename K (S fuel) output_filename input_filename cLevel w
    = Ok (to_U64 (len dst)) w'
    /\ log w' = log w1
                ++ [ev_fread finput (ZBUFF_recommendedCInSize K) [];
                    ev_compressEnd dst 0;
                    ev_fwrite foutput dst (len dst)] ++ post
    /\ Forall setup_event post
    /\ (len dst < 2 ^ 64 -> to_U64 (len dst) = len dst).
Proof.
  intros Hheap Hctx Hhandles Hempty filesize init r dst Hinit Hres Hroom Hclose.
  pose proof (getFileHandles_output K _ _ _ _ _ _ Hhandles) as Hfo.
  destruct (fread_spec (ZBUFF_recommendedCInSize K) finput w1)
    as (w2 & Hread & Hlog2 & _ & _ & Hroom2 & Hclose2 & Hlvl2).
  rewrite Hempty, firstn_nil in Hread, Hlog2.
  set (w3 := emit (ev_compressEnd dst 0) w2).
  destruct (fwrite_fits dst foutput w3 Hfo)
    as (w4 & Hwrite & Hlog4 & Hclose4 & Hlvl4).
  { unfold w3. cbn [room emit set_log]. rewrite Hroom2. exact Hroom. }
  set (d1 := if 2 <=? g_displayLevel w4
             then [ev_display msg_clear_line] else []).
  set (d2 := if 2 <=? g_displayLevel w4
             then [ev_display (msg_compressed 0 (to_U64 (0 + len dst)))]
             else []).
  set (w5 := set_log (log w4 ++ d1 ++ d2) w4).
  assert (Hrun : FIO_compressFilename K (S fuel) output_filename
                   input_filename cLevel w
                 = Ok (to_U64 (0 + len dst)) w5).
  { unfold FIO_compressFilename. unfold bind at 1 2, malloc.
    rewrite Hheap, Hctx. unfold bind at 1. rewrite Hhandles.
    unfold bind at 1, FIO_getFileSize. cbn [fst snd].
    fold filesize. fold init. rewrite Hinit.
    unfold bind at 1. cbn [compress_loop]. unfold bind at 1.
    rewrite Hread. change (len [] =? 0) with true. cbv iota.
    unfold ret at 1. cbn [fst snd].
    unfold bind at 1, compress_end_of_frame.
    unfold bind at 1, compressEnd at 1. cbv zeta.
    fold r. fold dst. rewrite Hres. change (negb (0 =? 0)) with false.
    cbv iota. fold w3. unfold bind at 1. rewrite Hwrite, Z.eqb_refl.
    cbn [negb]. unfold ret at 1. cbn [fst snd].
    unfold bind, DISPLAYLEVEL, fclose_output, ret.
    unfold w5, d1, d2.
    destruct (2 <=? g_displayLevel w4) eqn:Hlvl;
      cbn [g_displayLevel emit set_log fclose_ok log]; rewrite ?Hlvl;
      cbn [g_displayLevel emit set_log fclose_ok log];
      rewrite Hclose4; unfold w3; cbn [fclose_ok emit set_log];
      rewrite Hclose2, Hclose; cbn [negb].
    - unfold emit, set_log. cbn. rewrite <- app_assoc. reflexivity.
    - rewrite !app_nil_r. destruct w4; reflexivity. }
  exists w5, (d1 ++ d2). rewrite Z.add_0_l in Hrun.
  split; [exact Hrun |]. split; [| split].
  - unfold w5. cbn [log set_log]. rewrite Hlog4. unfold w3.
    cbn [log emit set_log]. rewrite Hlog2, <- !app_assoc. reflexivity.
  - unfold d1, d2. destruct (2 <=? g_displayLevel w4); repeat constructor.
  - intros Hsmall. apply to_U64_small. pose proof (len_nonneg dst). lia.
Qed.

End EmptyInput.

(** ** Concrete runs *)



Lemma empty_input_frame_witness :
  exists w' post,
    FIO_compressFilename (Store.collab 8 false) 1 "c" "in" 1 empty_world
    = Ok 5 w'
    /\ log w' = [ev_fopen "in" false; ev_fopen "c" false; ev_fopen "c" true]
                ++ [ev_fread (f_named "in") 8 [];
                    ev_compressEnd [x53; x54; x4f; x52; x00] 0;
                    ev_fwrite (f_named "c") [x53; x54; x4f; x52; x00] 5]
                ++ post
    /\ Forall setup_event post
    /\ (5 < 2 ^ 64 -> to_U64 5 = 5).
Proof.
  eapply (empty_input_frame (Store.collab 8 false) 0 "c" "in" 1 empty_world
            _ (f_named "in") (f_named "c") false eq_refl eq_refl eq_refl
            eq_refl eq_refl eq_refl).
  - cbn. lia.
  - reflexivity.
Defined.

(** ** Carry-over in the decode loop *)

Section CarryOver.

Variable K : Collab.

(** An iteration in which the decoder leaves part of its input and asks
    for more goes on without a read, with [readSize] reduced by what was
    consumed, on the same buffer: the next call is made on the front of
    the buffer again, [view inBuff 0 _], since [inStart] is back to 0. *)
Lemma carry_over_step (fuel : nat) (foutput finput : FILE)
  (inBuff : list byte) (inBuffSize outBuffSize : Z) (dctx : DCtx K)
  (frameSize readSize : Z) (w w2 : World) :
  let r := ZBUFF_decompressContinue K dctx outBuffSize (view inBuff 0 readSize) in
  let e := ev_decompressContinue (view inBuff 0 readSize) (st_dst (snd r))
             (st_used (snd r)) (st_result (snd r)) in
  let left := to_size_t (readSize - st_used (snd r)) in
  ZBUFF_isError K (st_result (snd r)) = false ->
  st_result (snd r) <> 0 ->
  left <> 0 ->
  fwrite (st_dst (snd r)) foutput (emit e w) = Ok (len (st_dst (snd r))) w2 ->
  decompress_loop K (S fuel) foutput finput inBuff inBuffSize outBuffSize
    dctx frameSize readSize w
  = decompress_loop K fuel foutput finput inBuff inBuffSize outBuffSize
      (fst r) (to_U64 (frameSize + len (st_dst (snd r)))) left w2
  /\ exists k, log w2 = log w ++ [e; ev_fwrite foutput (st_dst (snd r)) k].
Proof.
  intros r e left Herr Hmore Hleft Hwrite. split.
  - cbn [decompress_loop]. unfold bind at 1, decompressContinue at 1.
    cbv zeta. fold r. fold e. rewrite Herr. unfold bind at 1.
    rewrite Hwrite, Z.eqb_refl. cbn [negb].
    destruct (Z.eqb_spec (st_result (snd r)) 0) as [E | _]; [contradiction |].
    fold left. destruct (Z.eqb_spec left 0) as [E | _]; [contradiction |].
    reflexivity.
  - destruct (fwrite_spec (st_dst (snd r)) foutput (emit e w))
      as (k & w2' & Hw & Hlog & _).
    rewrite Hwrite in Hw. injection Hw as Hk Hw2. subst w2'.
    exists k. rewrite Hlog. cbn [emit set_log log]. rewrite <- app_assoc.
    reflexivity.
Qed.

End CarryOver.

(** C1, on the code.  The decoder is given "ABCD" and takes "A".  The
    three bytes "BCD" are pending, the driver reads nothing and calls the
    decoder again, but on "ABC", then on "AB", then on "A": the frame is
    decoded as "AAAA". *)
Theorem carry_over_feeds_front_again :
  decoder_inputs (log (final echo_run))
  = [[x41; x42; x43; x44]; [x41; x42; x43]; [x41; x42]; [x41]]
  /\ chunks_read (log (final echo_run)) = []
  /\ fs_lookup "out" (fs (final echo_run)) = Some [x41; x41; x41; x41]
  /\ exists d buf w, echo_run = Ok (4, d, buf) w.
Proof.
  repeat split; try (vm_compute; reflexivity).
  do 3 eexists. vm_compute. reflexivity.
Qed.



(** ** The two runs in a calm environment *)

Lemma evolves_refl (name : string) (w : World) : evolves name [] w w.
Proof.
  constructor; try reflexivity.
  - intros old H. rewrite app_nil_r. exact H.
  - change (len []) with 0. lia.
Qed.

Lemma evolves_trans (name : string) (d1 d2 : list byte) (a b c : World) :
  evolves name d1 a b -> evolves name d2 b c -> evolves name (d1 ++ d2) a c.
Proof.
  intros [F1 O1 R1 H1 C1 P1 L1] [F2 O2 R2 H2 C2 P2 L2]. constructor.
  - intros old H. rewrite app_assoc. apply F2, F1, H.
  - intros other H. rewrite O2, O1 by exact H. reflexivity.
  - rewrite R2, R1, len_app. lia.
  - congruence.
  - congruence.
  - congruence.
  - congruence.
Qed.

Lemma evolves_same (name : string) (w w' : World) :
  fs w' = fs w -> room w' = room w -> heap_ok w' = heap_ok w ->
  fclose_ok w' = fclose_ok w -> wprotect w' = wprotect w ->
  g_displayLevel w' = g_displayLevel w ->
  evolves name [] w w'.
Proof.
  intros Hfs Hroom Hheap Hclose Hwp Hlvl. constructor; try assumption.
  - intros old H. rewrite app_nil_r, Hfs. exact H.
  - intros other _. rewrite Hfs. reflexivity.
  - rewrite Hroom. change (len []) with 0. lia.
Qed.

Lemma evolves_DISPLAYLEVEL (name : string) (l : Z) (m : message)
  (w w' : World) (u : unit) :
  DISPLAYLEVEL l m w = Ok u w' -> evolves name [] w w'.
Proof.
  unfold DISPLAYLEVEL. intros H. injection H as _ Hw. subst w'.
  destruct (l <=? g_displayLevel w);
    [apply evolves_same; reflexivity | apply evolves_refl].
Qed.

(** A write to a named file that exists and has room. *)
Lemma fwrite_named (name : string) (data old : list byte) (w : World) :
  fs_lookup name (fs w) = Some old -> len data <= room w ->
  exists w1,
    fwrite data (f_named name) w = Ok (len data) w1
    /\ evolves name data w w1
    /\ src_rest w1 = src_rest w.
Proof.
  intros Hold Hroom. unfold fwrite.
  destruct (Z.leb_spec (len data) (room w)) as [_ | Hlt]; [| lia].
  eexists. split; [reflexivity |]. cbn [append_to]. rewrite Hold. split.
  - constructor; cbn; try reflexivity.
    + intros old' H. rewrite Hold in H. injection H as H. subst old'.
      apply fs_lookup_store_same.
    + intros other H. apply fs_lookup_store_other. exact H.
  - reflexivity.
Qed.

Section RoundTrip.

Variable K : Collab.

(** The main loop follows [spec_encode_blocks]: it returns, and the
    blocks have been appended to the destination. *)
Lemma compress_loop_encodes (source packed : string) (fuel : nat) :
  forall ctx B inBuff filesize csize w ctx' F old,
    spec_encode_blocks K fuel ctx B = Some (ctx', F) ->
    src_rest w = B ->
    fs_lookup packed (fs w) = Some old ->
    len F <= room w ->
    exists fsz csz w',
      compress_loop K fuel ctx (f_named source) (f_named packed) inBuff
        (ZBUFF_recommendedCInSize K) (ZBUFF_recommendedCOutSize K)
        filesize csize w = Ok (ctx', fsz, csz) w'
      /\ evolves packed F w w'
      /\ to_U64 csz = to_U64 (csize + len F).
Proof.
  induction fuel as [| fuel IH]; intros until old; intros Hspec Hsrc Hold Hroom;
    [discriminate Hspec |].
  cbn [spec_encode_blocks] in Hspec. cbn [compress_loop].
  unfold bind at 1. cbn [fread]. rewrite Hsrc.
  set (n := Z.to_nat (ZBUFF_recommendedCInSize K)) in *.
  set (chunk := firstn n B) in *.
  set (w1 := emit (ev_fread (f_named source) (ZBUFF_recommendedCInSize K) chunk)
               (set_src_rest (skipn n B) w)).
  destruct (len chunk =? 0).
  { injection Hspec as Hctx HF. subst ctx' F. do 3 eexists.
    split; [reflexivity |]. split.
    - apply evolves_same; reflexivity.
    - change (len []) with 0. rewrite Z.add_0_r. reflexivity. }
  unfold bind at 1, compressContinue at 1. cbv zeta.
  rewrite (view_store chunk inBuff).
  set (r := ZBUFF_compressContinue K ctx (ZBUFF_recommendedCOutSize K) chunk)
    in *.
  set (e := ev_compressContinue chunk (st_dst (snd r)) (st_used (snd r))
              (st_result (snd r))).
  destruct (ZBUFF_isError K (st_result (snd r))); [discriminate Hspec |].
  destruct (negb (len chunk =? st_used (snd r))); [discriminate Hspec |].
  destruct (spec_encode_blocks K fuel (fst r) (skipn n B))
    as [[ctx2 F2] |] eqn:Hrest; [| discriminate Hspec].
  injection Hspec as Hctx HF. subst ctx2 F. rewrite len_app in Hroom.
  pose proof (len_nonneg F2) as HF2. pose proof (len_nonneg (st_dst (snd r))).
  destruct (fwrite_named packed (st_dst (snd r)) old (emit e w1))
    as (w3 & Hwrite & Hgrow & Hsrc3); [exact Hold | cbn; lia |].
  unfold bind at 1. rewrite Hwrite, Z.eqb_refl. cbn [negb].
  destruct (IH (fst r) (skipn n B) (store chunk inBuff)
              (to_U64 (filesize + len chunk))
              (to_U64 (csize + len (st_dst (snd r)))) w3 ctx' F2
              (old ++ st_dst (snd r)) Hrest)
    as (fsz & csz & w' & Hloop & Hgrow' & Hcount).
  - rewrite Hsrc3. reflexivity.
  - apply (grow_file _ _ _ _ Hgrow). exact Hold.
  - rewrite (grow_room _ _ _ _ Hgrow). cbn. lia.
  - exists fsz, csz, w'. split; [exact Hloop |]. split.
    + eapply evolves_trans; [| exact Hgrow'].
      destruct Hgrow as [G1 G2 G3 G4 G5 G6 G7]. constructor; assumption.
    + rewrite Hcount, to_U64_add_l, len_app. f_equal. lia.
Qed.

(** [FIO_getFileHandles] on a source file that exists and a destination
    that is a new, writable name: both are opened, nobody is asked, and the
    destination starts empty. *)
Lemma getFileHandles_calm (input_filename output_filename : string)
  (B : list byte) (w : World) :
  fs_lookup input_filename (fs w) = Some B ->
  String.eqb input_filename (stdinmark K) = false ->
  fs_lookup output_filename (fs w) = None ->
  String.eqb output_filename (stdoutmark K) = false ->
  String.eqb output_filename (nulmark K) = false ->
  mem_name output_filename (wprotect w) = false ->
  exists w1,
    FIO_getFileHandles K input_filename output_filename w
    = Ok (f_named input_filename, f_named output_filename) w1
    /\ src_rest w1 = B
    /\ fs w1 = fs_store output_filename [] (fs w)
    /\ room w1 = room w /\ heap_ok w1 = heap_ok w
    /\ fclose_ok w1 = fclose_ok w /\ wprotect w1 = wprotect w
    /\ g_displayLevel w1 = g_displayLevel w.
Proof.
  intros Hin Hstdin Hout Hstdout Hnul Hfree.
  assert (Hdiff : String.eqb input_filename output_filename = false).
  { destruct (String.eqb_spec input_filename output_filename) as [E | _];
      [| reflexivity].
    subst output_filename. rewrite Hin in Hout. discriminate Hout. }
  unfold FIO_getFileHandles. rewrite Hstdin, Hstdout, Hnul.
  unfold bind, fopen_rb, file_exists, fopen_wb, ret, truncate_source.
  rewrite Hin.
  cbn [negb fs emit set_log set_src_rest set_src_name wprotect src_name].
  rewrite Hout.
  cbn [negb fs emit set_log set_src_rest set_src_name wprotect src_name].
  rewrite Hfree, Hnul, Hdiff.
  eexists. split; [reflexivity |]. repeat split.
Qed.

(** Under [spec_encode] and in a calm environment [FIO_compressFilename]
    returns the size of the frame and leaves the frame in the destination. *)
Lemma compress_calm (cLevel : Z) (source packed : string) (B F : list byte)
  (w : World) :
  spec_encode K cLevel B = Some F ->
  fs_lookup source (fs w) = Some B ->
  String.eqb source (stdinmark K) = false ->
  fs_lookup packed (fs w) = None ->
  String.eqb packed (stdoutmark K) = false ->
  String.eqb packed (nulmark K) = false ->
  mem_name packed (wprotect w) = false ->
  heap_ok w = true -> fclose_ok w = true -> len F <= room w ->
  exists w1,
    FIO_compressFilename K (S (length B)) packed source cLevel w
    = Ok (to_U64 (len F)) w1
    /\ fs_lookup packed (fs w1) = Some F
    /\ (forall other, String.eqb other packed = false ->
                      fs_lookup other (fs w1) = fs_lookup other (fs w))
    /\ room w1 = room w - len F /\ heap_ok w1 = true
    /\ fclose_ok w1 = true /\ wprotect w1 = wprotect w.
Proof.
  intros Hspec Hsrc Hstdin Hnew Hstdout Hnul Hfree Hheap Hclose Hroom.
  destruct (getFileHandles_calm source packed B w Hsrc Hstdin Hnew Hstdout
              Hnul Hfree)
    as (w1 & Hhandles & Hsrc1 & Hfs1 & Hroom1 & Hheap1 & Hclose1 & Hwp1 & Hlvl1).
  assert (Hdiff : String.eqb source packed = false).
  { destruct (String.eqb_spec source packed) as [E | _]; [| reflexivity].
    subst packed. rewrite Hsrc in Hnew. discriminate Hnew. }
  unfold spec_encode in Hspec.
  unfold FIO_compressFilename. unfold bind at 1 2, malloc. rewrite Hheap.
  destruct (ZBUFF_createCCtx K) as [ctx |]; [| discriminate Hspec].
  unfold bind at 1. rewrite Hhandles.
  unfold bind at 1, FIO_getFileSize. cbn [fst snd].
  rewrite Hfs1, (fs_lookup_store_other packed source [] (fs w) Hdiff), Hsrc.
  set (init := ZBUFF_compressInit_advanced K ctx
                 (ZSTD_getParams K cLevel (to_U64 (len B)))) in *.
  destruct (ZBUFF_isError K (snd init)); [discriminate Hspec |].
  destruct (spec_encode_blocks K (S (length B)) (fst init) B)
    as [[ctx' F1] |] eqn:Hblocks; [| discriminate Hspec].
  set (r := ZBUFF_compressEnd K ctx' (ZBUFF_recommendedCOutSize K)) in *.
  destruct (Z.eqb_spec (snd (snd r)) 0) as [Hres | _]; [| discriminate Hspec].
  injection Hspec as HF. subst F. rewrite len_app in Hroom.
  pose proof (len_nonneg F1). pose proof (len_nonneg (fst (snd r))).
  destruct (compress_loop_encodes source packed (S (length B)) (fst init) B
              (repeat x00 (Z.to_nat (ZBUFF_recommendedCInSize K))) 0 0 w1
              ctx' F1 [] Hblocks Hsrc1)
    as (fsz & csz & w2 & Hloop & Hgrow2 & Hcount).
  { rewrite Hfs1. apply fs_lookup_store_same. }
  { rewrite Hroom1. lia. }
  unfold bind at 1. rewrite Hloop. cbn [fst snd].
  unfold bind at 1, compress_end_of_frame.
  unfold bind at 1, compressEnd at 1. cbv zeta. fold r. rewrite Hres.
  change (negb (0 =? 0)) with false. cbv iota.
  set (w3 := emit (ev_compressEnd (fst (snd r)) 0) w2).
  destruct (fwrite_named packed (fst (snd r)) ([] ++ F1) w3)
    as (w4 & Hwrite & Hgrow4 & _).
  { apply (grow_file _ _ _ _ Hgrow2). rewrite Hfs1.
    apply fs_lookup_store_same. }
  { unfold w3. cbn [room emit set_log].
    rewrite (grow_room _ _ _ _ Hgrow2), Hroom1. lia. }
  unfold bind at 1. rewrite Hwrite, Z.eqb_refl. cbn [negb].
  unfold ret at 1. cbn [fst snd].
  assert (Hgrow : evolves packed (F1 ++ fst (snd r)) w1 w4).
  { eapply evolves_trans; [exact Hgrow2 |].
    destruct Hgrow4 as [G1 G2 G3 G4 G5 G6 G7]. constructor; assumption. }
  unfold bind at 1.
  destruct (DISPLAYLEVEL 2 msg_clear_line w4) as [u1 w5 | |] eqn:Hd1;
    [| discriminate Hd1 ..].
  unfold bind at 1.
  match goal with
  | |- context [DISPLAYLEVEL 2 ?m w5] =>
      destruct (DISPLAYLEVEL 2 m w5) as [u2 w6 | |] eqn:Hd2;
        [| discriminate Hd2 ..]
  end.
  apply (evolves_DISPLAYLEVEL packed) in Hd1, Hd2.
  pose proof (evolves_trans _ _ _ _ _ _ Hgrow
                (evolves_trans _ _ _ _ _ _ Hd1 Hd2)) as Hall.
  rewrite !app_nil_r in Hall. destruct Hall as [G1 G2 G3 G4 G5 G6 G7].
  unfold bind, fclose_output. rewrite G5, Hclose1, Hclose. cbn [negb].
  exists w6. split.
  - unfold ret. f_equal. rewrite <- to_U64_add_l, Hcount, to_U64_add_l.
    rewrite len_app. f_equal.
  - split; [| split; [| split; [| split; [| split]]]].
    + rewrite (G1 []); [reflexivity |]. rewrite Hfs1.
      apply fs_lookup_store_same.
    + intros other Hother. rewrite (G2 other Hother), Hfs1.
      apply fs_lookup_store_other. exact Hother.
    + rewrite G3, Hroom1, len_app. reflexivity.
    + rewrite G4, Hheap1. exact Hheap.
    + rewrite G5, Hclose1. exact Hclose.
    + rewrite G6. exact Hwp1.
Qed.

(** The decode loop follows [whole_decode_frame]: it returns, the decoded
    bytes have been appended to the destination, and the source is left
    where the frame ends. *)
Lemma decompress_loop_decodes (restored packed : string) (fuel : nat) :
  forall dctx chunk rest inBuff frameSize w out rest' old,
    whole_decode_frame K fuel dctx chunk rest = Some (out, rest') ->
    src_rest w = rest ->
    fs_lookup restored (fs w) = Some old ->
    len out <= room w ->
    exists fsz dctx' buf' w',
      decompress_loop K fuel (f_named restored) (f_named packed)
        (store chunk inBuff) (ZBUFF_recommendedDInSize K)
        (ZBUFF_recommendedDOutSize K) dctx frameSize (len chunk) w
      = Ok (fsz, dctx', buf') w'
      /\ evolves restored out w w'
      /\ src_rest w' = rest'
      /\ to_U64 fsz = to_U64 (frameSize + len out).
Proof.
  induction fuel as [| fuel IH]; intros until old; intros Hspec Hsrc Hold Hroom;
    [discriminate Hspec |].
  cbn [whole_decode_frame] in Hspec. cbn [decompress_loop].
  unfold bind at 1, decompressContinue at 1. cbv zeta.
  rewrite (view_store chunk inBuff).
  set (r := ZBUFF_decompressContinue K dctx (ZBUFF_recommendedDOutSize K)
              chunk) in *.
  set (e := ev_decompressContinue chunk (st_dst (snd r)) (st_used (snd r))
              (st_result (snd r))).
  destruct (ZBUFF_isError K (st_result (snd r))); [discriminate Hspec |].
  destruct (Z.eqb_spec (st_used (snd r)) (len chunk)) as [Hused | _];
    cbn [negb] in Hspec; [| discriminate Hspec].
  rewrite Hused, Z.sub_diag. change (to_size_t 0) with 0.
  pose proof (len_nonneg (st_dst (snd r))) as Hdst.
  assert (Hfit : len (st_dst (snd r)) <= room w).
  { destruct (st_result (snd r) =? 0).
    - injection Hspec as Hout _. subst out. exact Hroom.
    - destruct (ZBUFF_recommendedDInSize K <? st_result (snd r));
        [discriminate Hspec |].
      destruct (negb _); [discriminate Hspec |].
      destruct (whole_decode_frame K fuel _ _ _) as [[o r'] |];
        [| discriminate Hspec].
      injection Hspec as Hout _. subst out. rewrite len_app in Hroom.
      pose proof (len_nonneg o). lia. }
  destruct (fwrite_named restored (st_dst (snd r)) old (emit e w))
    as (w2 & Hwrite & Hgrow & Hsrc2); [exact Hold | exact Hfit |].
  assert (Hgrow2 : evolves restored (st_dst (snd r)) w w2).
  { destruct Hgrow as [G1 G2 G3 G4 G5 G6 G7]. constructor; assumption. }
  unfold bind at 1. rewrite Hwrite, Z.eqb_refl. cbn [negb].
  destruct (st_result (snd r) =? 0).
  { injection Hspec as Hout Hrest. subst out rest'.
    do 4 eexists. split; [reflexivity |]. split; [exact Hgrow2 |].
    split; [rewrite Hsrc2; exact Hsrc |].
    unfold to_U64. apply Z.mod_mod. lia. }
  change (negb (0 =? 0)) with false. cbv iota.
  destruct (ZBUFF_recommendedDInSize K <? st_result (snd r));
    [discriminate Hspec |].
  unfold bind at 1. cbn [fread]. rewrite Hsrc2. cbn [src_rest emit set_log].
  rewrite Hsrc.
  set (next := firstn (Z.to_nat (st_result (snd r))) rest) in *.
  destruct (Z.eqb_spec (len next) (st_result (snd r))) as [Hnext | _];
    cbn [negb] in Hspec |- *; [| discriminate Hspec].
  destruct (whole_decode_frame K fuel (fst r) next
              (skipn (Z.to_nat (st_result (snd r))) rest))
    as [[o r'] |] eqn:Hrec; [| discriminate Hspec].
  injection Hspec as Hout Hrest. subst out r'. rewrite len_app in Hroom.
  set (w3 := emit (ev_fread (f_named packed) (st_result (snd r)) next)
               (set_src_rest (skipn (Z.to_nat (st_result (snd r))) rest) w2)).
  destruct (IH (fst r) next (skipn (Z.to_nat (st_result (snd r))) rest)
              (store chunk inBuff)
              (to_U64 (frameSize + len (st_dst (snd r)))) w3 o rest'
              (old ++ st_dst (snd r)) Hrec)
    as (fsz & d' & buf' & w' & Hloop & Hgrow' & Hsrc' & Hcount).
  - reflexivity.
  - apply (grow_file _ _ _ _ Hgrow2). exact Hold.
  - unfold w3. cbn [room emit set_log set_src_rest].
    rewrite (grow_room _ _ _ _ Hgrow2). lia.
  - exists fsz, d', buf', w'. split; [exact Hloop |].
    split; [| split; [exact Hsrc' |]].
    + eapply evolves_trans; [exact Hgrow2 |].
      destruct Hgrow' as [G1 G2 G3 G4 G5 G6 G7]. constructor; assumption.
    + rewrite Hcount, to_U64_add_l, len_app. f_equal. lia.
Qed.

Lemma MEM_readLE32_store (magic buf : list byte) :
  len magic = 4 -> MEM_readLE32 (store magic buf) = MEM_readLE32 magic.
Proof.
  intros H. destruct magic as [| a [| b [| c [| d [| x t]]]]];
    try discriminate H; [reflexivity |].
  unfold len in H. cbn [length] in H. lia.
Qed.

(** Under [whole_decode_stream] and in a calm environment
    [FIO_decompressFilename] returns the size of the decoded frame and
    leaves the decoded bytes in the destination. *)
Lemma decompress_calm (packed restored : string) (fuel : nat)
  (F B : list byte) (w : World) :
  whole_decode_stream K fuel F = Some B ->
  fs_lookup packed (fs w) = Some F ->
  String.eqb packed (stdinmark K) = false ->
  fs_lookup restored (fs w) = None ->
  String.eqb restored (stdoutmark K) = false ->
  String.eqb restored (nulmark K) = false ->
  mem_name restored (wprotect w) = false ->
  heap_ok w = true -> fclose_ok w = true -> len B <= room w ->
  exists w2,
    FIO_decompressFilename K (S fuel) restored packed w
    = Ok (to_U64 (len B)) w2
    /\ fs_lookup restored (fs w2) = Some B.
Proof.
  intros Hspec Hsrc Hstdin Hnew Hstdout Hnul Hfree Hheap Hclose Hroom.
  destruct (getFileHandles_calm packed restored F w Hsrc Hstdin Hnew Hstdout
              Hnul Hfree)
    as (w1 & Hhandles & Hsrc1 & Hfs1 & Hroom1 & Hheap1 & Hclose1 & _ & _).
  unfold whole_decode_stream in Hspec.
  set (magic := firstn 4 F) in *.
  destruct (Z.eqb_spec (len magic) 4) as [Hlen | _]; cbn [negb] in Hspec;
    [| discriminate Hspec].
  destruct (ZSTD_isLegacy K (MEM_readLE32 magic)) eqn:Hleg;
    [discriminate Hspec |].
  destruct (whole_decode_frame K fuel
              (ZBUFF_decompressInit K (ZBUFF_createDCtx K)) magic (skipn 4 F))
    as [[out rest'] |] eqn:Hframe; [| discriminate Hspec].
  destruct rest' as [| x t]; [| discriminate Hspec].
  injection Hspec as Hout. subst out.
  destruct fuel as [| fuel']; [discriminate Hframe |].
  unfold FIO_decompressFilename. unfold bind at 1. rewrite Hhandles.
  cbn [fst snd]. unfold bind at 1 2, malloc. rewrite Hheap1, Hheap.
  set (buf := repeat x00 (Z.to_nat (ZBUFF_recommendedDInSize K))).
  unfold bind at 1.
  assert (Hloop : exists w4,
    frames_loop K (S (S fuel')) (f_named restored) (f_named packed) buf
      (ZBUFF_recommendedDInSize K) (ZBUFF_recommendedDOutSize K)
      (ZBUFF_createDCtx K) 0 w1 = Ok (to_U64 (len B)) w4
    /\ evolves restored B w1 w4).
  { cbn [frames_loop]. unfold bind at 1. cbn [fread]. rewrite Hsrc1.
    change (firstn (Z.to_nat 4) F) with magic.
    change (skipn (Z.to_nat 4) F) with (skipn 4 F).
    rewrite Hlen. change (4 =? 0) with false. change (negb (4 =? 4)) with false.
    cbv iota. rewrite (MEM_readLE32_store magic buf Hlen), Hleg.
    unfold bind at 1, FIO_decompressFrame. unfold bind at 1, decompressInit.
    set (w2 := emit ev_decompressInit
                 (emit (ev_fread (f_named packed) 4 magic)
                    (set_src_rest (skipn 4 F) w1))).
    destruct (decompress_loop_decodes restored packed (S fuel')
                (ZBUFF_decompressInit K (ZBUFF_createDCtx K)) magic
                (skipn 4 F) buf 0 w2 B [] [] Hframe)
      as (fsz & d' & buf' & w3 & Hrun & Hgrow & Hsrc3 & Hcount).
    - reflexivity.
    - unfold w2. cbn [fs emit set_log set_src_rest]. rewrite Hfs1.
      apply fs_lookup_store_same.
    - unfold w2. cbn [room emit set_log set_src_rest]. rewrite Hroom1.
      exact Hroom.
    - rewrite Hlen in Hrun. rewrite Hrun. cbn [fst snd].
      unfold bind at 1. cbn [fread]. rewrite Hsrc3.
      change (firstn (Z.to_nat 4) []) with (@nil byte).
      change (len [] =? 0) with true. cbv iota. unfold ret.
      rewrite Z.add_0_l, Hcount, Z.add_0_l. eexists.
      split; [reflexivity |].
      destruct Hgrow as [G1 G2 G3 G4 G5 G6 G7]. constructor; assumption. }
  destruct Hloop as (w4 & Hloop & Hgrow). rewrite Hloop.
  unfold bind at 1.
  destruct (DISPLAYLEVEL 2 msg_clear_line w4) as [u1 w5 | |] eqn:Hd1;
    [| discriminate Hd1 ..].
  unfold bind at 1.
  destruct (DISPLAYLEVEL 2 (msg_decoded (to_U64 (len B))) w5)
    as [u2 w6 | |] eqn:Hd2; [| discriminate Hd2 ..].
  apply (evolves_DISPLAYLEVEL restored) in Hd1, Hd2.
  pose proof (evolves_trans _ _ _ _ _ _ Hgrow
                (evolves_trans _ _ _ _ _ _ Hd1 Hd2)) as Hall.
  rewrite !app_nil_r in Hall. destruct Hall as [G1 G2 G3 G4 G5 G6 G7].
  unfold bind, fclose_output. rewrite G5, Hclose1, Hclose. cbn [negb].
  exists w6. split; [reflexivity |].
  rewrite (G1 []); [reflexivity |]. rewrite Hfs1. apply fs_lookup_store_same.
Qed.

(** X16.  The round trip where nothing is carried over.  In a calm
    environment, let the encoder, driven as section 4.2 prescribes, turn
    [B] into the frame [F] ([spec_encode]), and let the decoder, given the
    first four bytes of [F] and then exactly what it asks for, consume all
    it is given at every call and return [B] at the end of [F]
    ([whole_decode_stream]).  Then compressing the file that holds [B] and
    decompressing the result restores [B]: both runs return, the first
    with the size of [F] and the second with the size of [B]. *)
Theorem round_trip_of_whole_chunks (cLevel : Z)
  (source packed restored : string) (fuel : nat) (B F : list byte)
  (w : World) :
  calm K source packed restored B (len F + len B) w ->
  spec_encode K cLevel B = Some F ->
  whole_decode_stream K fuel F = Some B ->
  round_trip K cLevel source packed restored w B
  /\ exists w1 w2,
       FIO_compressFilename K (S (length B)) packed source cLevel w
       = Ok (to_U64 (len F)) w1
       /\ fs_lookup packed (fs w1) = Some F
       /\ FIO_decompressFilename K (S fuel) restored packed w1
          = Ok (to_U64 (len B)) w2
       /\ fs_lookup restored (fs w2) = Some B.
Proof.
  intros [Hsrc Hpk Hrs Hdist Hsf Hpi Hpo Hpn Hro Hrn Hpf Hrf Hheap Hclose Hroom]
    Henc Hdec.
  pose proof (len_nonneg F). pose proof (len_nonneg B).
  destruct (compress_calm cLevel source packed B F w Henc Hsrc Hsf Hpk Hpo Hpn
              Hpf Hheap Hclose)
    as (w1 & Hc & Hfile & Hothers & Hroom1 & Hheap1 & Hclose1 & Hwp1);
    [lia |].
  destruct (decompress_calm packed restored fuel F B w1 Hdec Hfile Hpi)
    as (w2 & Hd & Hout); try assumption.
  - rewrite (Hothers restored Hdist). exact Hrs.
  - rewrite Hwp1. exact Hrf.
  - lia.
  - split.
    + exists (S (length B)), (S fuel), (to_U64 (len F)), w1,
        (to_U64 (len B)), w2.
      repeat split; assumption.
    + exists w1, w2. repeat split; assumption.
Qed.

End RoundTrip.

Lemma round_trip_of_whole_chunks_witness :
  round_trip (Store.collab 8 false) 1 "in" "c" "out" demo_world ten_bytes
  /\ exists w1 w2,
       FIO_compressFilename (Store.collab 8 false) (S (length ten_bytes))
         "c" "in" 1 demo_world = Ok (to_U64 (len ten_bytes_frame)) w1
       /\ fs_lookup "c" (fs w1) = Some ten_bytes_frame
       /\ FIO_decompressFilename (Store.collab 8 false) 11 "out" "c" w1
          = Ok (to_U64 (len ten_bytes)) w2
       /\ fs_lookup "out" (fs w2) = Some ten_bytes.
Proof.
  apply (round_trip_of_whole_chunks (Store.collab 8 false) 1 "in" "c" "out"
           10 ten_bytes ten_bytes_frame demo_world).
  - constructor; try reflexivity. vm_compute. discriminate.
  - vm_compute. reflexivity.
  - vm_compute. reflexivity.
Defined.

(** By design there is no round trip when the encoder breaks the contract
    of section 4.2.  The environment is calm and the source is empty, but
    the encoder needs a second "compress end" call to finish its frame: the
    first returns 1, and the process exits with code 26 instead of
    draining.  No amount of fuel makes the compression return, so there is
    nothing to decompress. *)
Lemma round_trip_stops_at_lazy_flush :
  calm (Store.collab 8 true) "in" "c" "out" [] 0 empty_world
  /\ spec_encode (Store.collab 8 true) 1 [] = None
  /\ (forall fuel, exists w',
        FIO_compressFilename (Store.collab 8 true) (S fuel) "c" "in" 1
          empty_world = Exit 26 w')
  /\ ~ round_trip (Store.collab 8 true) 1 "in" "c" "out" empty_world [].
Proof.
  split; [| split; [| split]].
  - constructor; try reflexivity. vm_compute. discriminate.
  - reflexivity.
  - intros fuel. eexists. vm_compute. reflexivity.
  - intros (fuel1 & fuel2 & n & w1 & m & w2 & Hc & _).
    destruct fuel1; vm_compute in Hc; discriminate Hc.
Qed.

(** What [whole_decode_frame] decodes, the sub-loop of the specification
    decodes to the same: a call that consumes all it is given leaves
    nothing to carry over. *)
Lemma whole_decode_is_spec_decode (K : Collab) (fuel : nat) :
  forall dctx chunk rest r,
    whole_decode_frame K fuel dctx chunk rest = Some r ->
    spec_decode_carry K fuel dctx chunk rest = Some r.
Proof.
  induction fuel as [| fuel IH]; intros dctx chunk rest r Hwhole;
    [discriminate Hwhole |].
  cbn [whole_decode_frame] in Hwhole. cbn [spec_decode_carry].
  set (s := ZBUFF_decompressContinue K dctx (ZBUFF_recommendedDOutSize K)
              chunk) in *.
  destruct (ZBUFF_isError K (st_result (snd s))); [discriminate Hwhole |].
  destruct (Z.eqb_spec (st_used (snd s)) (len chunk)) as [Hused | _];
    cbn [negb] in Hwhole; [| discriminate Hwhole].
  destruct (st_result (snd s) =? 0); [exact Hwhole |].
  assert (Hnone : skipn (Z.to_nat (st_used (snd s))) chunk = []).
  { rewrite Hused. unfold len. rewrite Nat2Z.id. apply skipn_all. }
  rewrite Hnone. change (negb (len [] =? 0)) with false. cbv iota.
  destruct (ZBUFF_recommendedDInSize K <? st_result (snd s));
    [discriminate Hwhole |].
  destruct (negb (len (firstn (Z.to_nat (st_result (snd s))) rest)
                  =? st_result (snd s))); [discriminate Hwhole |].
  destruct (whole_decode_frame K fuel (fst s)
              (firstn (Z.to_nat (st_result (snd s))) rest)
              (skipn (Z.to_nat (st_result (snd s))) rest))
    as [[out rest'] |] eqn:Hrec; [| discriminate Hwhole].
  rewrite (IH _ _ _ _ Hrec). exact Hwhole.
Qed.

(** C2.  The round trip fails on an engine that does what the
    specification asks of it.  The store codec whose decoder takes the
    magic number in two calls consumes every chunk whole and closes the
    frame with one "compress end" call, and the decode sub-loop of the
    specification (4.4, carry-over included) restores the ten bytes from
    the frame.  [FIO_compressFilename] writes that frame; but
    [FIO_decompressFilename] hands the decoder the front of the buffer
    again instead of the two bytes the first call left ([inStart] starts
    from 0 at every iteration), the decoder reports an error and the
    process exits with code 36.  The destination stays empty, and no
    amount of fuel gives the round trip. *)
Theorem round_trip_breaks_on_carry_over :
  calm Split.collab "in" "c" "out" ten_bytes
    (len ten_bytes_frame + len ten_bytes) demo_world
  /\ spec_encode Split.collab 1 ten_bytes = Some ten_bytes_frame
  /\ spec_decode_carry_stream Split.collab 10 ten_bytes_frame
     = Some ten_bytes
  /\ (exists w1,
        FIO_compressFilename Split.collab 11 "c" "in" 1 demo_world = Ok 17 w1
        /\ fs_lookup "c" (fs w1) = Some ten_bytes_frame
        /\ forall fuel,
             exists w2,
               FIO_decompressFilename Split.collab (S (S (S fuel))) "out" "c"
                 w1 = Exit 36 w2
               /\ decoder_inputs (log w2)
                  = [Store.magic; firstn 2 Store.magic]
               /\ fs_lookup "out" (fs w2) = Some [])
  /\ ~ round_trip Split.collab 1 "in" "c" "out" demo_world ten_bytes.
Proof.
  split; [| split; [| split; [| split]]].
  - constructor; try reflexivity. vm_compute. discriminate.
  - vm_compute. reflexivity.
  - vm_compute. reflexivity.
  - eexists. split; [vm_compute; reflexivity |].
    split; [vm_compute; reflexivity |].
    intros fuel. eexists. split; [vm_compute; reflexivity |].
    split; vm_compute; reflexivity.
  - intros (fuel1 & fuel2 & n & w1 & m & w2 & Hc & Hd & _).
    destruct fuel1 as [| [| [| fuel1]]]; vm_compute in Hc;
      try discriminate Hc.
    injection Hc as _ Hw1. subst w1.
    destruct fuel2 as [| [| [| fuel2]]]; vm_compute in Hd; discriminate Hd.
Qed.

(** * Further properties of the drivers *)

(** ** What reaches the encoder and what reaches the destination *)

Lemma firstn_whole (n : nat) (l : list byte) :
  len (firstn n l) = len l -> firstn n l = l.
Proof.
  unfold len. rewrite length_firstn. intros H. apply firstn_all2. lia.
Qed.

Lemma outputs_app (a b : list event) : outputs (a ++ b) = outputs a ++ outputs b.
Proof.
  induction a as [| e a IH]; [reflexivity |].
  destruct e; cbn [app outputs]; rewrite IH, ?app_assoc; reflexivity.
Qed.

Lemma setup_outputs (evs : list event) : Forall setup_event evs -> outputs evs = [].
Proof.
  induction 1 as [| e evs He _ IH]; [reflexivity |].
  destruct e; try discriminate He; exact IH.
Qed.

Lemma setup_fed (evs : list event) : Forall setup_event evs -> fed evs = [].
Proof.
  induction 1 as [| e evs He _ IH]; [reflexivity |].
  destruct e; try discriminate He; exact IH.
Qed.

Lemma fread_sink (n : Z) (f g : FILE) (w w1 : World) (got : list byte) :
  fread n f w = Ok got w1 -> sink_content g w1 = sink_content g w.
Proof.
  unfold fread. destruct f; intros H; injection H as _ Hw; subst w1;
    destruct g; reflexivity.
Qed.

Lemma DISPLAYLEVEL_sink (l : Z) (m : message) (g : FILE) (w w1 : World)
  (u : unit) :
  DISPLAYLEVEL l m w = Ok u w1 ->
  sink_content g w1 = sink_content g w
  /\ exists evs, log w1 = log w ++ evs /\ Forall setup_event evs.
Proof.
  unfold DISPLAYLEVEL. intros H. injection H as _ Hw. subst w1.
  destruct (l <=? g_displayLevel w).
  - split; [destruct g; reflexivity |]. exists [ev_display m].
    split; [reflexivity | repeat constructor].
  - split; [reflexivity |]. exists []. split; [symmetry; apply app_nil_r |].
    constructor.
Qed.

(** A write reported as complete has appended all the bytes. *)
Lemma fwrite_sink (data old : list byte) (f : FILE) (w w1 : World) :
  fwrite data f w = Ok (len data) w1 ->
  sink_content f w = Some old ->
  sink_content f w1 = Some (old ++ data).
Proof.
  unfold fwrite. intros H Hold.
  destruct f; try discriminate Hold.
  - cbn [sink_content] in Hold. injection Hold as Hold. subst old.
    destruct (len data <=? room w).
    + injection H as Hw. subst w1. reflexivity.
    + injection H as Hk Hw. subst w1. apply firstn_whole in Hk.
      rewrite Hk. reflexivity.
  - cbn [sink_content] in Hold.
    destruct (len data <=? room w).
    + injection H as Hw. subst w1.
      cbn [sink_content append_to emit set_log set_room fs]. rewrite Hold.
      cbn [fs set_fs set_src_rest]. apply fs_lookup_store_same.
    + injection H as Hk Hw. subst w1. apply firstn_whole in Hk. rewrite Hk.
      cbn [sink_content append_to emit set_log set_room fs]. rewrite Hold.
      cbn [fs set_fs set_src_rest]. apply fs_lookup_store_same.
Qed.

Section CompressTrace.

Variable K : Collab.

(** A main loop that returns: the destination has received the blocks the
    encoder produced, in order, and the chunks fed to the encoder are the
    part of the source that was read; the last read found nothing. *)
Lemma compress_loop_trace (fuel : nat) :
  forall ctx finput foutput inBuff inBuffSize outBuffSize filesize csize w
         res w',
    compress_loop K fuel ctx finput foutput inBuff inBuffSize outBuffSize
      filesize csize w = Ok res w' ->
    exists evs,
      log w' = log w ++ evs
      /\ (forall old, sink_content foutput w = Some old ->
                      sink_content foutput w' = Some (old ++ outputs evs))
      /\ concat (fed evs) ++ pending_input finput w' = pending_input finput w
      /\ firstn (Z.to_nat inBuffSize) (pending_input finput w') = [].
Proof.
  induction fuel as [| fuel IH]; intros until w'; intros H;
    [discriminate H |].
  cbn [compress_loop] in H.
  destruct (fread_spec inBuffSize finput w)
    as (w1 & Hread & Hlog1 & Hpend1 & _).
  set (got := firstn (Z.to_nat inBuffSize) (pending_input finput w)) in *.
  unfold bind at 1 in H. rewrite Hread in H.
  destruct (Z.eqb_spec (len got) 0) as [Hgot | Hgot].
  { injection H as _ Hw. subst w'. apply len_zero_nil in Hgot.
    exists [ev_fread finput inBuffSize got]. split; [exact Hlog1 |].
    assert (Hsame : pending_input finput w1 = pending_input finput w).
    { rewrite Hpend1.
      rewrite <- (firstn_skipn (Z.to_nat inBuffSize) (pending_input finput w))
        at 2.
      fold got. rewrite Hgot. reflexivity. }
    split; [| split].
    - intros old Hold. cbn [outputs]. rewrite app_nil_r.
      rewrite (fread_sink _ _ foutput _ _ _ Hread). exact Hold.
    - cbn [fed concat app]. exact Hsame.
    - rewrite Hsame. exact Hgot. }
  apply bind_Ok in H. destruct H as (r & w2 & Hcc & H).
  unfold compressContinue in Hcc. rewrite (view_store got inBuff) in Hcc.
  injection Hcc as Hr Hw2. subst r w2.
  set (r := ZBUFF_compressContinue K ctx outBuffSize got) in *.
  set (e := ev_compressContinue got (st_dst (snd r)) (st_used (snd r))
              (st_result (snd r))) in *.
  destruct (ZBUFF_isError K (st_result (snd r)));
    [rewrite EXM_THROW_eq in H; discriminate H |].
  destruct (negb (len got =? st_used (snd r)));
    [rewrite EXM_THROW_eq in H; discriminate H |].
  apply bind_Ok in H. destruct H as (k & w3 & Hwrite & H).
  destruct (Z.eqb_spec k (len (st_dst (snd r)))) as [Hk | Hk];
    cbn [negb] in H; [| rewrite EXM_THROW_eq in H; discriminate H].
  subst k.
  destruct (fwrite_spec (st_dst (snd r)) foutput (emit e w1))
    as (k' & w3' & Hwrite' & Hlog3 & Hpend3 & _).
  rewrite Hwrite in Hwrite'. injection Hwrite' as Hk' Hw3. subst k' w3'.
  apply IH in H. destruct H as (evs & Hlog & Hsink & Hfed & Hlast).
  exists ([ev_fread finput inBuffSize got; e;
           ev_fwrite foutput (st_dst (snd r)) (len (st_dst (snd r)))] ++ evs).
  split; [| split; [| split]].
  - rewrite Hlog, Hlog3. cbn [emit set_log log]. rewrite Hlog1, <- !app_assoc.
    reflexivity.
  - intros old Hold. rewrite outputs_app. cbn [outputs e app].
    rewrite app_nil_r, app_assoc. apply Hsink.
    apply (fwrite_sink _ _ _ _ _ Hwrite).
    change (sink_content foutput (emit e w1)) with (sink_content foutput w1).
    rewrite (fread_sink _ _ foutput _ _ _ Hread). exact Hold.
  - rewrite fed_app. cbn [fed e app concat]. rewrite <- app_assoc, Hfed.
    rewrite Hpend3.
    change (pending_input finput (emit e w1)) with (pending_input finput w1).
    rewrite Hpend1. apply firstn_skipn.
  - exact Hlast.
Qed.

End CompressTrace.

(** ** What FIO_getFileHandles touches *)

Section Steps.

Variable R : World -> World -> Prop.
Hypothesis R_refl : forall w, R w w.
Hypothesis R_trans : forall a b c, R a b -> R b c -> R a c.

Lemma steps_ret {A} (a : A) : steps R (ret a).
Proof. intros w. apply R_refl. Qed.

Lemma steps_bind {A B} (m : M A) (k : A -> M B) :
  steps R m -> (forall a, steps R (k a)) -> steps R (bind m k).
Proof.
  intros Hm Hk w. unfold bind. specialize (Hm w).
  destruct (m w) as [a w1 | c w1 | w1]; cbn [final] in *; [| exact Hm ..].
  eapply R_trans; [exact Hm | apply Hk].
Qed.

End Steps.

Lemma opens_refl (name : string) (w : World) : opens name w w.
Proof.
  constructor; try reflexivity; [left; reflexivity | exists O; reflexivity].
Qed.

Lemma opens_trans (name : string) (a b c : World) :
  opens name a b -> opens name b c -> opens name a c.
Proof.
  intros [L1 O1 P1 R1 H1 C1 S1 F1 D1 [k1 I1]] [L2 O2 P2 R2 H2 C2 S2 F2 D2 [k2 I2]].
  constructor; try congruence.
  - intros other H. rewrite F2, F1 by exact H. reflexivity.
  - destruct D2 as [D2 | D2]; [| right; exact D2].
    destruct D1 as [D1 | D1]; [left | right]; congruence.
  - exists (k1 + k2)%nat. rewrite I2, I1, skipn_skipn.
    f_equal. lia.
Qed.

(** A step that only adds to the log, or moves the read position of the
    source file. *)
Lemma opens_same (name : string) (w w' : World) :
  g_displayLevel w' = g_displayLevel w -> g_overwrite w' = g_overwrite w ->
  wprotect w' = wprotect w -> room w' = room w -> heap_ok w' = heap_ok w ->
  fclose_ok w' = fclose_ok w -> stdout_data w' = stdout_data w ->
  fs w' = fs w -> stdin_rest w' = stdin_rest w ->
  opens name w w'.
Proof.
  intros. constructor; try assumption.
  - intros other _. congruence.
  - left. congruence.
  - exists O. assumption.
Qed.

Lemma opens_DISPLAYLEVEL (name : string) (l : Z) (m : message) :
  steps (opens name) (DISPLAYLEVEL l m).
Proof.
  intros w. unfold DISPLAYLEVEL. cbn [final].
  destruct (l <=? g_displayLevel w);
    [apply opens_same; reflexivity | apply opens_refl].
Qed.

Lemma opens_EXM_THROW (name : string) {A} (error : Z) :
  steps (opens name) (@EXM_THROW A error).
Proof. intros w. apply (opens_DISPLAYLEVEL name 1 (msg_error error) w). Qed.

Lemma opens_overwrite_gate (name output_filename : string) :
  steps (opens name) (overwrite_gate output_filename).
Proof.
  intros w. unfold overwrite_gate. destruct (negb (g_overwrite w));
    [| apply opens_refl].
  destruct (g_displayLevel w <=? 1); [apply opens_EXM_THROW |].
  revert w. change (steps (opens name)
    (DISPLAYLEVEL 2 (msg_already_exists output_filename) ;;
     DISPLAYLEVEL 2 msg_overwrite_prompt ;;
     ch <- getchar ;;
     if negb (Byte.eqb ch x59) && negb (Byte.eqb ch x79)
     then EXM_THROW 11 else ret tt)).
  apply (steps_bind _ (opens_trans name)); [apply opens_DISPLAYLEVEL | intros _].
  apply (steps_bind _ (opens_trans name)); [apply opens_DISPLAYLEVEL | intros _].
  apply (steps_bind _ (opens_trans name)).
  - intros w. unfold getchar. destruct (stdin_rest w) as [| c rest] eqn:E;
      cbn [final].
    + apply opens_same; reflexivity.
    + constructor; try reflexivity; [left; reflexivity |].
      exists 1%nat. cbn. rewrite E. reflexivity.
  - intros ch. destruct (_ && _);
      [apply opens_EXM_THROW | apply (steps_ret _ (opens_refl name))].
Qed.

Section Handles.

Variable K : Collab.

(** Whatever way [FIO_getFileHandles] ends, it has changed no file but the
    destination, which is as it was or empty; the globals, stdout and the
    device are as they were, and stdin has lost at most a prefix. *)
Lemma getFileHandles_opens
  (input_filename output_filename : string) (w : World) :
  opens output_filename w
    (final (FIO_getFileHandles K input_filename output_filename w)).
Proof.
  revert w. change (steps (opens output_filename)
                      (FIO_getFileHandles K input_filename output_filename)).
  unfold FIO_getFileHandles.
  apply (steps_bind _ (opens_trans output_filename)).
  - destruct (String.eqb input_filename (stdinmark K)).
    + apply (steps_bind _ (opens_trans output_filename));
        [apply opens_DISPLAYLEVEL |].
      intros _. apply (steps_ret _ (opens_refl output_filename)).
    + intros w. unfold fopen_rb.
      destruct (fs_lookup input_filename (fs w)); cbn [final];
        apply opens_same; reflexivity.
  - intros pfinput. apply (steps_bind _ (opens_trans output_filename)).
    + destruct (String.eqb output_filename (stdoutmark K)).
      * apply (steps_bind _ (opens_trans output_filename));
          [apply opens_DISPLAYLEVEL |].
        intros _. apply (steps_ret _ (opens_refl output_filename)).
      * apply (steps_bind _ (opens_trans output_filename)).
        { destruct (negb _).
          - intros w. apply opens_same; reflexivity.
          - apply (steps_ret _ (opens_refl output_filename)). }
        intros found. apply (steps_bind _ (opens_trans output_filename)).
        { destruct found; [apply opens_overwrite_gate |].
          apply (steps_ret _ (opens_refl output_filename)). }
        intros _ w. unfold fopen_wb.
        destruct (mem_name output_filename (wprotect w));
          [apply opens_same; reflexivity |].
        destruct (String.eqb output_filename (nulmark K));
          [apply opens_same; reflexivity |].
        destruct (truncate_source_same output_filename w) as (cut & -> & _).
        cbn [final]. constructor; try reflexivity.
        { intros other H. cbn. apply fs_lookup_store_other. exact H. }
        { right. cbn. apply fs_lookup_store_same. }
        { exists O. reflexivity. }
    + intros pfoutput. destruct pfinput, pfoutput;
        try apply opens_EXM_THROW.
      apply (steps_ret _ (opens_refl output_filename)).
Qed.

Lemma DISPLAYLEVEL_source (l : Z) (m : message) (w w' : World) (u : unit) :
  DISPLAYLEVEL l m w = Ok u w' ->
  src_rest w' = src_rest w /\ src_name w' = src_name w.
Proof.
  unfold DISPLAYLEVEL. intros H. injection H as _ Hw. subst w'.
  destruct (l <=? g_displayLevel w); split; reflexivity.
Qed.

(** The gate leaves the stream opened "rb" alone. *)
Lemma overwrite_gate_source (name : string) (w w' : World) (u : unit) :
  overwrite_gate name w = Ok u w' ->
  src_rest w' = src_rest w /\ src_name w' = src_name w.
Proof.
  unfold overwrite_gate. intros H.
  destruct (negb (g_overwrite w));
    [| injection H as _ Hw; subst w'; split; reflexivity].
  destruct (g_displayLevel w <=? 1);
    [rewrite EXM_THROW_eq in H; discriminate H |].
  apply bind_Ok in H. destruct H as (u1 & x1 & Hd1 & H).
  apply bind_Ok in H. destruct H as (u2 & x2 & Hd2 & H).
  apply bind_Ok in H. destruct H as (ch & x3 & Hch & H).
  apply DISPLAYLEVEL_source in Hd1, Hd2.
  destruct Hd1 as [R1 N1], Hd2 as [R2 N2].
  assert (H3 : src_rest x3 = src_rest x2 /\ src_name x3 = src_name x2).
  { unfold getchar in Hch. destruct (stdin_rest x2);
      injection Hch as _ Hx; subst x3; split; reflexivity. }
  destruct H3 as [R3 N3].
  destruct (_ && _); [rewrite EXM_THROW_eq in H; discriminate H |].
  injection H as _ Hw. subst w'. split; congruence.
Qed.

(** Opening a destination that is not the file being read leaves that
    stream as it is. *)
Lemma open_output_keeps_source (input_filename output_filename : string)
  (w_in w1 : World) (pfoutput : option FILE) :
  (if String.eqb output_filename (stdoutmark K)
   then (DISPLAYLEVEL 4 msg_using_stdout ;; ret (Some f_stdout))
   else
     (found <- (if negb (String.eqb output_filename (nulmark K))
                then file_exists output_filename
                else ret false) ;;
      (if found then overwrite_gate output_filename else ret tt) ;;
      fopen_wb K output_filename)) w_in = Ok pfoutput w1 ->
  src_name w_in = Some input_filename ->
  String.eqb input_filename output_filename = false ->
  src_rest w1 = src_rest w_in.
Proof.
  intros Hout Hname Hdiff.
  destruct (String.eqb output_filename (stdoutmark K)).
  - apply bind_Ok in Hout. destruct Hout as (u & w2 & Hd & Hout).
    apply DISPLAYLEVEL_source in Hd. injection Hout as _ Hw. subst w1.
    apply Hd.
  - apply bind_Ok in Hout. destruct Hout as (found & w2 & Hfound & Hout).
    apply bind_Ok in Hout. destruct Hout as (u & w3 & Hgate & Hout).
    assert (H2 : src_rest w2 = src_rest w_in /\ src_name w2 = src_name w_in).
    { destruct (negb _); injection Hfound as _ Hw; subst w2;
        split; reflexivity. }
    assert (H3 : src_rest w3 = src_rest w2 /\ src_name w3 = src_name w2).
    { destruct found; [exact (overwrite_gate_source _ _ _ _ Hgate) |].
      injection Hgate as _ Hw. subst w3. split; reflexivity. }
    destruct H2 as [R2 N2], H3 as [R3 N3].
    unfold fopen_wb, truncate_source in Hout.
    rewrite N3, N2, Hname, Hdiff in Hout.
    destruct (mem_name output_filename (wprotect w3));
      [| destruct (String.eqb output_filename (nulmark K))];
      injection Hout as _ Hw; subst w1; cbn; congruence.
Qed.

(** The handles [FIO_getFileHandles] returns: stdin or the named source,
    whose content is what is about to be read unless it is the destination
    as well; stdout, to which nothing has been written, or the named
    destination, which is empty. *)
Lemma getFileHandles_returns (input_filename output_filename : string)
  (w w1 : World) (finput foutput : FILE) :
  FIO_getFileHandles K input_filename output_filename w
  = Ok (finput, foutput) w1 ->
  (String.eqb input_filename (stdinmark K) = true -> finput = f_stdin)
  /\
  (String.eqb input_filename (stdinmark K) = false ->
   finput = f_named input_filename
   /\ (String.eqb input_filename output_filename = false ->
       fs_lookup input_filename (fs w) = Some (src_rest w1)))
  /\
  (String.eqb output_filename (stdoutmark K) = true ->
   foutput = f_stdout /\ stdout_data w1 = stdout_data w)
  /\
  (String.eqb output_filename (stdoutmark K) = false ->
   String.eqb output_filename (nulmark K) = false ->
   foutput = f_named output_filename
   /\ fs_lookup output_filename (fs w1) = Some []).
Proof.
  intros Hrun.
  pose proof (getFileHandles_opens input_filename
                output_filename w) as Hopens.
  rewrite Hrun in Hopens. cbn [final] in Hopens.
  unfold FIO_getFileHandles in Hrun.
  apply bind_Ok in Hrun. destruct Hrun as (pfinput & w_in & Hin & H).
  apply bind_Ok in H. destruct H as (pfoutput & w_o & Hout & H).
  destruct pfinput as [fi |]; [| rewrite EXM_THROW_eq in H; discriminate H].
  destruct pfoutput as [fo |]; [| rewrite EXM_THROW_eq in H; discriminate H].
  injection H as Hfi Hfo Hw. subst fi fo w_o.
  assert (Hkeep : narrows w_in w1).
  { match type of Hout with
    | ?m w_in = _ => assert (Hm : keeps_input m)
    end.
    { destruct (String.eqb output_filename (stdoutmark K)).
      - apply keeps_bind; [apply keeps_DISPLAYLEVEL | intros; apply keeps_ret].
      - apply keeps_bind.
        + destruct (negb _); [apply keeps_file_exists | apply keeps_ret].
        + intros found. apply keeps_bind; [| intros; apply keeps_fopen_wb].
          destruct found; [apply keeps_overwrite_gate | apply keeps_ret]. }
    specialize (Hm w_in). rewrite Hout in Hm. exact Hm. }
  destruct Hkeep as [_ Hsrc].
  split; [| split; [| split]].
  - intros E. rewrite E in Hin.
    unfold bind, DISPLAYLEVEL, ret in Hin. injection Hin as Hfi _.
    symmetry. exact Hfi.
  - intros E. rewrite E in Hin. unfold fopen_rb in Hin.
    destruct (fs_lookup input_filename (fs w)) as [c |];
      [| discriminate Hin].
    injection Hin as Hfi Hwin. split; [symmetry; exact Hfi |].
    intros Hdiff.
    rewrite (open_output_keeps_source input_filename output_filename w_in w1
               _ Hout); [subst w_in; reflexivity | subst w_in; reflexivity
                         | exact Hdiff].
  - intros E. rewrite E in Hout.
    apply bind_Ok in Hout. destruct Hout as (u & w2 & _ & Hout).
    injection Hout as Hfo _. split; [symmetry; exact Hfo |].
    apply (op_stdout _ _ _ Hopens).
  - intros E1 E2. rewrite E1 in Hout.
    apply bind_Ok in Hout. destruct Hout as (found & w2 & _ & Hout).
    apply bind_Ok in Hout. destruct Hout as (u & w3 & _ & Hout).
    unfold fopen_wb in Hout.
    destruct (mem_name output_filename (wprotect w3)); [discriminate Hout |].
    rewrite E2 in Hout. injection Hout as Hfo Hw1.
    split; [symmetry; exact Hfo |]. subst w1. cbn.
    apply fs_lookup_store_same.
Qed.

End Handles.

Section CompressContent.

Variable K : Collab.

(** A run of [FIO_compressFilename] that returns, seen from the opened
    handles: the destination has received what the encoder produced, and
    the encoder has been fed what the source held. *)
Lemma compress_run_trace (fuel : nat)
  (output_filename input_filename : string) (cLevel : Z) (w w' : World)
  (n : Z) :
  FIO_compressFilename K fuel output_filename input_filename cLevel w
  = Ok n w' ->
  exists finput foutput w1 setup evs,
    FIO_getFileHandles K input_filename output_filename w
    = Ok (finput, foutput) w1
    /\ log w1 = log w ++ setup /\ Forall setup_event setup
    /\ log w' = log w1 ++ evs
    /\ (forall old, sink_content foutput w1 = Some old ->
                    sink_content foutput w' = Some (old ++ outputs evs))
    /\ (0 < ZBUFF_recommendedCInSize K ->
        concat (fed evs) = pending_input finput w1).
Proof.
  unfold FIO_compressFilename. unfold bind at 1 2, malloc.
  destruct (heap_ok w); [| intros H; discriminate H].
  destruct (ZBUFF_createCCtx K) as [ctx |]; [| intros H; discriminate H].
  intros H.
  apply bind_Ok in H. destruct H as ([finput foutput] & w1 & Hhandles & H).
  apply bind_Ok in H. destruct H as (fsz & w1' & Hsize & H).
  unfold FIO_getFileSize in Hsize. injection Hsize as _ Hw1. subst w1'.
  cbn [fst snd] in H.
  destruct (ZBUFF_isError K _); [discriminate H |].
  apply bind_Ok in H. destruct H as (main & w2 & Hloop & H).
  apply bind_Ok in H. destruct H as (fin & w3 & Hend & H).
  apply bind_Ok in H. destruct H as (u1 & w4 & Hd1 & H).
  apply bind_Ok in H. destruct H as (u2 & w5 & Hd2 & H).
  apply bind_Ok in H. destruct H as (failed & w6 & Hclose & H).
  unfold fclose_output in Hclose. injection Hclose as _ Hw6. subst w6.
  destruct failed; [discriminate H |]. injection H as _ Hw'. subst w'.
  destruct (emits_Ok setup_event _ _ _ _
              (FIO_getFileHandles_setup K input_filename output_filename)
              Hhandles) as (setup & Hlog1 & Hsetup).
  apply compress_loop_trace in Hloop.
  destruct Hloop as (pre & Hlog2 & Hsink2 & Hfed & Hlast).
  unfold compress_end_of_frame in Hend.
  apply bind_Ok in Hend. destruct Hend as (r & x & Hce & Hend).
  unfold compressEnd in Hce. injection Hce as Hr Hx. subst r x.
  set (r := ZBUFF_compressEnd K (fst (fst main)) (ZBUFF_recommendedCOutSize K))
    in *.
  set (e := ev_compressEnd (fst (snd r)) (snd (snd r))) in *.
  destruct (negb (snd (snd r) =? 0));
    [rewrite EXM_THROW_eq in Hend; discriminate Hend |].
  apply bind_Ok in Hend. destruct Hend as (k & x & Hwrite & Hend).
  destruct (Z.eqb_spec k (len (fst (snd r)))) as [Hk | Hk]; cbn [negb] in Hend;
    [| rewrite EXM_THROW_eq in Hend; discriminate Hend].
  injection Hend as _ Hx. subst x k.
  destruct (fwrite_spec (fst (snd r)) foutput (emit e w2))
    as (k' & x & Hwrite' & Hlog3 & _).
  rewrite Hwrite in Hwrite'. injection Hwrite' as Hk' Hx. subst k' x.
  destruct (DISPLAYLEVEL_sink _ _ foutput _ _ _ Hd1)
    as (Hs4 & d1 & Hlog4 & Hq4).
  destruct (DISPLAYLEVEL_sink _ _ foutput _ _ _ Hd2)
    as (Hs5 & d2 & Hlog5 & Hq5).
  exists finput, foutput, w1, setup,
    (pre ++ [e; ev_fwrite foutput (fst (snd r)) (len (fst (snd r)))]
         ++ d1 ++ d2).
  split; [exact Hhandles |]. split; [exact Hlog1 |].
  split; [exact Hsetup |]. split; [| split].
  - rewrite Hlog5, Hlog4, Hlog3. cbn [emit set_log log].
    rewrite Hlog2, <- !app_assoc. reflexivity.
  - intros old Hold. rewrite Hs5, Hs4.
    rewrite !outputs_app, (setup_outputs d1 Hq4), (setup_outputs d2 Hq5).
    cbn [outputs e app]. rewrite !app_nil_r, app_assoc.
    apply (fwrite_sink _ _ _ _ _ Hwrite).
    change (sink_content foutput (emit e w2)) with (sink_content foutput w2).
    apply Hsink2. exact Hold.
  - intros Hpos. rewrite !fed_app, (setup_fed d1 Hq4), (setup_fed d2 Hq5).
    cbn [fed e app]. rewrite app_nil_r, <- Hfed.
    assert (Hnil : pending_input finput w2 = []).
    { destruct (pending_input finput w2) as [| b t]; [reflexivity |].
      destruct (Z.to_nat (ZBUFF_recommendedCInSize K)) eqn:E; [lia |].
      discriminate Hlast. }
    rewrite Hnil, app_nil_r. reflexivity.
Qed.

(** X1.  When [FIO_compressFilename] returns and the destination is a named
    file, that file holds exactly the bytes the encoder produced, call
    after call; when the destination is stdout, exactly these bytes have
    been added to it. *)
Theorem compressed_file_is_encoder_output (fuel : nat)
  (output_filename input_filename : string) (cLevel : Z) (w w' : World)
  (n : Z) :
  FIO_compressFilename K fuel output_filename input_filename cLevel w
  = Ok n w' ->
  exists evs,
    log w' = log w ++ evs
    /\ (String.eqb output_filename (stdoutmark K) = true ->
        stdout_data w' = stdout_data w ++ outputs evs)
    /\ (String.eqb output_filename (stdoutmark K) = false ->
        String.eqb output_filename (nulmark K) = false ->
        fs_lookup output_filename (fs w') = Some (outputs evs)).
Proof.
  intros Hrun. apply compress_run_trace in Hrun.
  destruct Hrun as (finput & foutput & w1 & setup & evs & Hh & Hlog1 & Hsetup
                    & Hlog & Hsink & _).
  destruct (getFileHandles_returns K _ _ _ _ _ _ Hh) as (_ & _ & Hout & Hnamed).
  exists (setup ++ evs).
  split; [rewrite Hlog, Hlog1, <- app_assoc; reflexivity |].
  rewrite outputs_app, (setup_outputs setup Hsetup). cbn [app]. split.
  - intros E. destruct (Hout E) as [Hfo Hstd]. subst foutput.
    specialize (Hsink (stdout_data w1) eq_refl). cbn [sink_content] in Hsink.
    injection Hsink as Hsink. rewrite Hsink, Hstd. reflexivity.
  - intros E1 E2. destruct (Hnamed E1 E2) as [Hfo Hempty]. subst foutput.
    apply (Hsink [] Hempty).
Qed.

(** X2.  When [FIO_compressFilename] returns, the source is a named file
    other than the destination and the recommended input size is positive,
    the chunks fed to the encoder, put end to end, are the content of the
    source: every byte is fed, once and in order. *)
Theorem source_is_fed_whole (fuel : nat)
  (output_filename input_filename : string) (cLevel : Z) (w w' : World)
  (n : Z) (B : list byte) :
  FIO_compressFilename K fuel output_filename input_filename cLevel w
  = Ok n w' ->
  String.eqb input_filename (stdinmark K) = false ->
  String.eqb input_filename output_filename = false ->
  fs_lookup input_filename (fs w) = Some B ->
  0 < ZBUFF_recommendedCInSize K ->
  exists evs, log w' = log w ++ evs /\ concat (fed evs) = B.
Proof.
  intros Hrun Hfile Hdiff HB Hpos. apply compress_run_trace in Hrun.
  destruct Hrun as (finput & foutput & w1 & setup & evs & Hh & Hlog1 & Hsetup
                    & Hlog & _ & Hfed).
  destruct (getFileHandles_returns K _ _ _ _ _ _ Hh) as (_ & Hin & _).
  destruct (Hin Hfile) as [Hfi Hsrc]. specialize (Hsrc Hdiff). subst finput.
  exists (setup ++ evs).
  split; [rewrite Hlog, Hlog1, <- app_assoc; reflexivity |].
  rewrite fed_app, (setup_fed setup Hsetup). cbn [app].
  rewrite (Hfed Hpos). cbn [pending_input]. congruence.
Qed.

End CompressContent.

Lemma compressed_file_is_encoder_output_witness :
  exists evs,
    log (final (FIO_compressFilename (Store.collab 8 false) 11 "c" "in" 1
                  demo_world)) = log demo_world ++ evs
    /\ (String.eqb "c" "stdout" = false -> String.eqb "c" "/dev/null" = false ->
        fs_lookup "c"
          (fs (final (FIO_compressFilename (Store.collab 8 false) 11 "c" "in"
                        1 demo_world)))
        = Some (outputs evs)).
Proof.
  destruct (compressed_file_is_encoder_output (Store.collab 8 false) 11 "c"
              "in" 1 demo_world
              (final (FIO_compressFilename (Store.collab 8 false) 11 "c" "in"
                        1 demo_world)) 17)
    as (evs & Hlog & _ & Hfile); [vm_compute; reflexivity |].
  exists evs. split; [exact Hlog | exact Hfile].
Defined.

Lemma source_is_fed_whole_witness :
  exists evs,
    log (final (FIO_compressFilename (Store.collab 8 false) 11 "c" "in" 1
                  demo_world)) = log demo_world ++ evs
    /\ concat (fed evs) = ten_bytes.
Proof.
  apply (source_is_fed_whole (Store.collab 8 false) 11 "c" "in" 1 demo_world
           _ 17 ten_bytes).
  - vm_compute. reflexivity.
  - reflexivity.
  - reflexivity.
  - reflexivity.
  - reflexivity.
Defined.

(** ** What a decoded frame leaves *)

Lemma decoder_outputs_app (a b : list event) :
  decoder_outputs (a ++ b) = decoder_outputs a ++ decoder_outputs b.
Proof.
  induction a as [| e a IH]; [reflexivity |].
  destruct e; cbn [app decoder_outputs]; rewrite IH, ?app_assoc; reflexivity.
Qed.

Lemma decoded_app (a b : list event) : decoded (a ++ b) = decoded a + decoded b.
Proof.
  induction a as [| e a IH]; [reflexivity |].
  destruct e; cbn [app decoded]; rewrite IH; lia.
Qed.

Lemma inits_app (a b : list event) : inits (a ++ b) = (inits a + inits b)%nat.
Proof.
  induction a as [| e a IH]; [reflexivity |].
  destruct e; cbn [app inits]; rewrite IH; reflexivity.
Qed.

Section DecodeTrace.

Variable K : Collab.

(** A decode loop that returns: every block the decoder produced has been
    written whole, in order, and the frame size has grown by their total. *)
Lemma decompress_loop_trace (fuel : nat) :
  forall foutput finput inBuff inBuffSize outBuffSize dctx frameSize readSize
         w res w',
    decompress_loop K fuel foutput finput inBuff inBuffSize outBuffSize dctx
      frameSize readSize w = Ok res w' ->
    exists evs,
      log w' = log w ++ evs
      /\ to_U64 (fst (fst res)) = to_U64 (frameSize + decoded evs)
      /\ written evs = decoded evs
      /\ inits evs = 0%nat
      /\ (forall old, sink_content foutput w = Some old ->
            sink_content foutput w' = Some (old ++ decoder_outputs evs))
      /\ to_U64 (fst (fst res)) = fst (fst res).
Proof.
  induction fuel as [| fuel IH]; intros until w'; intros H;
    [discriminate H |].
  cbn [decompress_loop] in H.
  apply bind_Ok in H. destruct H as (r & x & Hdc & H).
  unfold decompressContinue in Hdc. injection Hdc as Hr Hx. subst r x.
  set (r := ZBUFF_decompressContinue K dctx outBuffSize
              (view inBuff 0 readSize)) in *.
  set (e := ev_decompressContinue (view inBuff 0 readSize) (st_dst (snd r))
              (st_used (snd r)) (st_result (snd r))) in *.
  destruct (ZBUFF_isError K (st_result (snd r)));
    [rewrite EXM_THROW_eq in H; discriminate H |].
  apply bind_Ok in H. destruct H as (k & w2 & Hwrite & H).
  destruct (Z.eqb_spec k (len (st_dst (snd r)))) as [Hk | Hk]; cbn [negb] in H;
    [| rewrite EXM_THROW_eq in H; discriminate H].
  subst k.
  destruct (fwrite_spec (st_dst (snd r)) foutput (emit e w))
    as (k' & x & Hwrite' & Hlog2 & _).
  rewrite Hwrite in Hwrite'. injection Hwrite' as Hk' Hx. subst k' x.
  assert (Hsink2 : forall old, sink_content foutput w = Some old ->
            sink_content foutput w2 = Some (old ++ st_dst (snd r))).
  { intros old Hold. apply (fwrite_sink _ _ _ _ _ Hwrite). exact Hold. }
  assert (Hlog2' : log w2 = log w ++ [e; ev_fwrite foutput (st_dst (snd r))
                                           (len (st_dst (snd r)))]).
  { rewrite Hlog2. cbn [emit set_log log]. rewrite <- app_assoc. reflexivity. }
  assert (Hnext : forall (x : World) (mid : list event),
    log x = log w2 ++ mid ->
    decoded mid = 0 -> written mid = 0 -> inits mid = 0%nat ->
    decoder_outputs mid = [] ->
    (forall old, sink_content foutput w2 = Some old ->
                 sink_content foutput x = Some old) ->
    (exists evs,
       log w' = log x ++ evs
       /\ to_U64 (fst (fst res))
          = to_U64 (to_U64 (frameSize + len (st_dst (snd r))) + decoded evs)
       /\ written evs = decoded evs /\ inits evs = 0%nat
       /\ (forall old, sink_content foutput x = Some old ->
             sink_content foutput w' = Some (old ++ decoder_outputs evs))
       /\ to_U64 (fst (fst res)) = fst (fst res)) ->
    exists evs,
      log w' = log w ++ evs
      /\ to_U64 (fst (fst res)) = to_U64 (frameSize + decoded evs)
      /\ written evs = decoded evs /\ inits evs = 0%nat
      /\ (forall old, sink_content foutput w = Some old ->
            sink_content foutput w' = Some (old ++ decoder_outputs evs))
      /\ to_U64 (fst (fst res)) = fst (fst res)).
  { intros x mid Hm Hm1 Hm2 Hm3 Hm4 Hfw (evs & Hl & Hc & Hwr & Hin & Hs & Hrg).
    exists ([e; ev_fwrite foutput (st_dst (snd r)) (len (st_dst (snd r)))]
            ++ mid ++ evs).
    split; [rewrite Hl, Hm, Hlog2', <- !app_assoc; reflexivity |].
    split; [| split; [| split; [| split; [| exact Hrg]]]].
    - rewrite Hc, to_U64_add_l, !decoded_app, Hm1. cbn [decoded e].
      f_equal. lia.
    - rewrite !written_app, !decoded_app, Hm1, Hm2, Hwr. cbn [written decoded e].
      lia.
    - rewrite !inits_app, Hm3, Hin. reflexivity.
    - intros old Hold. rewrite !decoder_outputs_app, Hm4.
      cbn [decoder_outputs e app]. rewrite app_nil_r, app_assoc.
      apply Hs, Hfw, Hsink2, Hold. }
  destruct (st_result (snd r) =? 0).
  { injection H as Hres Hw. subst res w'.
    exists [e; ev_fwrite foutput (st_dst (snd r)) (len (st_dst (snd r)))].
    split; [exact Hlog2' |]. cbn [fst decoded written inits decoder_outputs e].
    rewrite app_nil_r, !Z.add_0_r.
    repeat split; try reflexivity; [| exact Hsink2 |];
      unfold to_U64; apply Z.mod_mod; lia. }
  destruct (negb (to_size_t (readSize - st_used (snd r)) =? 0)).
  { apply (Hnext w2 []); try reflexivity.
    - symmetry. apply app_nil_r.
    - intros old Hold. exact Hold.
    - apply IH in H. exact H. }
  destruct (inBuffSize <? st_result (snd r));
    [rewrite EXM_THROW_eq in H; discriminate H |].
  apply bind_Ok in H. destruct H as (got & w3 & Hread & H).
  destruct (negb (len got =? st_result (snd r)));
    [rewrite EXM_THROW_eq in H; discriminate H |].
  destruct (fread_spec (st_result (snd r)) finput w2)
    as (x & Hread' & Hlog3 & _).
  rewrite Hread in Hread'. injection Hread' as Hgot Hx. subst x.
  apply (Hnext w3 [ev_fread finput (st_result (snd r))
                     (firstn (Z.to_nat (st_result (snd r)))
                        (pending_input finput w2))]); try reflexivity.
  - exact Hlog3.
  - intros old Hold. rewrite (fread_sink _ _ foutput _ _ _ Hread). exact Hold.
  - apply IH in H. exact H.
Qed.

(** X3.  When [FIO_decompressFrame] returns, it has initialised the
    decoder once, before anything else; the size it returns is the number
    of bytes the decoder produced, as a 64-bit unsigned integer; every
    block has been written whole, and the destination has grown by exactly
    these bytes, in order. *)
Theorem decoded_frame_account (fuel : nat) (foutput finput : FILE)
  (inBuff : list byte) (inBuffSize alreadyLoaded outBuffSize : Z)
  (dctx : DCtx K) (w w' : World) (res : Z * DCtx K * list byte) :
  FIO_decompressFrame K fuel foutput finput inBuff inBuffSize alreadyLoaded
    outBuffSize dctx w = Ok res w' ->
  exists evs,
    log w' = log w ++ ev_decompressInit :: evs
    /\ inits evs = 0%nat
    /\ fst (fst res) = to_U64 (decoded evs)
    /\ written evs = decoded evs
    /\ (forall old, sink_content foutput w = Some old ->
          sink_content foutput w' = Some (old ++ decoder_outputs evs)).
Proof.
  unfold FIO_decompressFrame. intros H.
  apply bind_Ok in H. destruct H as (d & x & Hinit & H).
  unfold decompressInit in Hinit. injection Hinit as Hd Hx. subst d x.
  apply decompress_loop_trace in H.
  destruct H as (evs & Hlog & Hcount & Hwritten & Hinits & Hsink & Hrange).
  exists evs. split; [| split; [exact Hinits | split; [| split]]].
  - rewrite Hlog. cbn [emit set_log log]. rewrite <- app_assoc. reflexivity.
  - rewrite <- Hrange, Hcount. reflexivity.
  - exact Hwritten.
  - intros old Hold. apply Hsink. exact Hold.
Qed.

End DecodeTrace.

Lemma decoded_frame_account_witness :
  exists evs,
    log (final echo_run) = log echo_world ++ ev_decompressInit :: evs
    /\ inits evs = 0%nat
    /\ 4 = to_U64 (decoded evs)
    /\ written evs = decoded evs
    /\ (forall old, sink_content (f_named "out") echo_world = Some old ->
          sink_content (f_named "out") (final echo_run)
          = Some (old ++ decoder_outputs evs)).
Proof.
  apply (decoded_frame_account Echo.collab 4 (f_named "out") (f_named "c")
           (store [x41; x42; x43; x44] (repeat x00 8)) 8 4 8 4 echo_world
           (final echo_run)
           (4, 0, store [x41; x42; x43; x44] (repeat x00 8))).
  vm_compute. reflexivity.
Defined.

(** ** A decoder that stalls *)

Lemma fwrite_nothing (f : FILE) (w : World) :
  exists w1, fwrite [] f w = Ok 0 w1.
Proof.
  unfold fwrite. destruct f; try (eexists; reflexivity);
    destruct (len [] <=? room w); rewrite ?firstn_nil; eexists; reflexivity.
Qed.

Section Stalled.

Variable K : Collab.

(** X4.  The decode loop has no guard against a decoder that makes no
    progress: when, on the pending bytes, the decoder consumes nothing,
    produces nothing, keeps its context and asks for more, the loop calls
    it again on the same bytes for ever; no bound on the iterations lets
    [FIO_decompressFrame]'s loop return or exit. *)
Theorem stalled_decoder_never_returns (foutput finput : FILE)
  (inBuff : list byte) (inBuffSize outBuffSize : Z) (dctx : DCtx K)
  (readSize : Z) :
  let r := ZBUFF_decompressContinue K dctx outBuffSize (view inBuff 0 readSize) in
  0 < readSize < 2 ^ 64 ->
  fst r = dctx ->
  st_used (snd r) = 0 -> st_dst (snd r) = [] ->
  ZBUFF_isError K (st_result (snd r)) = false ->
  st_result (snd r) <> 0 ->
  forall fuel frameSize w,
    exists w',
      decompress_loop K fuel foutput finput inBuff inBuffSize outBuffSize
        dctx frameSize readSize w = Fuel_out w'
      /\ chunks_read (log w') = chunks_read (log w).
Proof.
  intros r Hpending Hctx Hused Hdst Herr Hmore fuel.
  induction fuel as [| fuel IH]; intros frameSize w.
  - exists w. split; reflexivity.
  - cbn [decompress_loop]. unfold bind at 1, decompressContinue at 1.
    cbv zeta. fold r. rewrite Herr, Hdst.
    set (e := ev_decompressContinue (view inBuff 0 readSize) []
                (st_used (snd r)) (st_result (snd r))).
    destruct (fwrite_nothing foutput (emit e w)) as (w2 & Hwrite).
    unfold bind at 1. rewrite Hwrite. change (len []) with 0.
    change (negb (0 =? 0)) with false. cbv iota.
    destruct (Z.eqb_spec (st_result (snd r)) 0) as [E | _]; [contradiction |].
    rewrite Hused, Z.sub_0_r.
    assert (Hrs : to_size_t readSize = readSize)
      by (unfold to_size_t; apply Z.mod_small; lia).
    rewrite Hrs.
    destruct (Z.eqb_spec readSize 0) as [E | _]; [lia |]. cbn [negb].
    rewrite Hctx.
    destruct (IH (to_U64 (frameSize + 0)) w2) as (w' & Hrun & Hreads).
    exists w'. split; [exact Hrun |]. rewrite Hreads.
    destruct (fwrite_spec [] foutput (emit e w)) as (k & x & Hw & Hlog & _).
    rewrite Hwrite in Hw. injection Hw as _ Hx. subst x.
    rewrite Hlog. cbn [emit set_log log].
    rewrite !chunks_read_app. cbn [chunks_read e]. rewrite !app_nil_r.
    reflexivity.
Qed.

End Stalled.

Lemma stalled_decoder_never_returns_witness :
  exists w',
    decompress_loop Stall.collab 1000 (f_named "out") (f_named "c")
      (store [x41; x42; x43; x44] (repeat x00 8)) 8 8 tt 0 4 echo_world
    = Fuel_out w'
    /\ chunks_read (log w') = chunks_read (log echo_world).
Proof.
  apply (stalled_decoder_never_returns Stall.collab (f_named "out")
           (f_named "c") (store [x41; x42; x43; x44] (repeat x00 8)) 8 8 tt 4).
  - cbn. lia.
  - reflexivity.
  - reflexivity.
  - reflexivity.
  - reflexivity.
  - discriminate.
Defined.

(** ** Streams of several frames *)

Lemma firstn_exact_app (n : Z) (l t : list byte) :
  len (firstn (Z.to_nat n) l) = n ->
  firstn (Z.to_nat n) (l ++ t) = firstn (Z.to_nat n) l
  /\ skipn (Z.to_nat n) (l ++ t) = skipn (Z.to_nat n) l ++ t.
Proof.
  unfold len. rewrite length_firstn. intros H.
  assert (Hle : (Z.to_nat n <= length l)%nat) by lia.
  rewrite firstn_app, skipn_app.
  replace (Z.to_nat n - length l)%nat with O by lia.
  cbn [firstn skipn]. rewrite app_nil_r. split; reflexivity.
Qed.

Section FrameSpec.

Variable K : Collab.

(** More fuel does not change what [whole_decode_frame] finds. *)
Lemma whole_decode_frame_fuel (fuel : nat) :
  forall fuel' dctx chunk rest r,
    whole_decode_frame K fuel dctx chunk rest = Some r ->
    (fuel <= fuel')%nat ->
    whole_decode_frame K fuel' dctx chunk rest = Some r.
Proof.
  induction fuel as [| fuel IH]; intros fuel' dctx chunk rest r Hspec Hle;
    [discriminate Hspec |].
  destruct fuel' as [| fuel']; [lia |].
  cbn [whole_decode_frame] in Hspec |- *.
  set (s := ZBUFF_decompressContinue K dctx (ZBUFF_recommendedDOutSize K)
              chunk) in *.
  destruct (ZBUFF_isError K (st_result (snd s))); [discriminate Hspec |].
  destruct (negb (st_used (snd s) =? len chunk)); [discriminate Hspec |].
  destruct (st_result (snd s) =? 0); [exact Hspec |].
  destruct (ZBUFF_recommendedDInSize K <? st_result (snd s));
    [discriminate Hspec |].
  destruct (negb (len (firstn (Z.to_nat (st_result (snd s))) rest)
                  =? st_result (snd s))); [discriminate Hspec |].
  destruct (whole_decode_frame K fuel (fst s)
              (firstn (Z.to_nat (st_result (snd s))) rest)
              (skipn (Z.to_nat (st_result (snd s))) rest))
    as [[out rest'] |] eqn:Hrec; [| discriminate Hspec].
  rewrite (IH fuel' _ _ _ _ Hrec); [exact Hspec | lia].
Qed.

(** A frame is decoded the same way whatever follows it in the source. *)
Lemma whole_decode_frame_tail (fuel : nat) (tail : list byte) :
  forall dctx chunk rest out rest',
    whole_decode_frame K fuel dctx chunk rest = Some (out, rest') ->
    whole_decode_frame K fuel dctx chunk (rest ++ tail)
    = Some (out, rest' ++ tail).
Proof.
  induction fuel as [| fuel IH]; intros dctx chunk rest out rest' Hspec;
    [discriminate Hspec |].
  cbn [whole_decode_frame] in Hspec |- *.
  set (s := ZBUFF_decompressContinue K dctx (ZBUFF_recommendedDOutSize K)
              chunk) in *.
  destruct (ZBUFF_isError K (st_result (snd s))); [discriminate Hspec |].
  destruct (negb (st_used (snd s) =? len chunk)); [discriminate Hspec |].
  destruct (st_result (snd s) =? 0).
  { injection Hspec as Ho Hr. subst out rest'. reflexivity. }
  destruct (ZBUFF_recommendedDInSize K <? st_result (snd s));
    [discriminate Hspec |].
  destruct (Z.eqb_spec (len (firstn (Z.to_nat (st_result (snd s))) rest))
              (st_result (snd s))) as [Hlen | _]; cbn [negb] in Hspec;
    [| discriminate Hspec].
  destruct (firstn_exact_app _ rest tail Hlen) as [Hfirst Hskip].
  rewrite Hfirst, Hskip, Hlen, Z.eqb_refl. cbn [negb].
  destruct (whole_decode_frame K fuel (fst s)
              (firstn (Z.to_nat (st_result (snd s))) rest)
              (skipn (Z.to_nat (st_result (snd s))) rest))
    as [[o r'] |] eqn:Hrec; [| discriminate Hspec].
  rewrite (IH _ _ _ _ _ Hrec). injection Hspec as Ho Hr. subst out rest'.
  reflexivity.
Qed.

Lemma whole_decode_frames_fuel (fuel : nat) :
  forall fuel' F B,
    whole_decode_frames K fuel F = Some B -> (fuel <= fuel')%nat ->
    whole_decode_frames K fuel' F = Some B.
Proof.
  induction fuel as [| fuel IH]; intros fuel' F B Hspec Hle;
    [discriminate Hspec |].
  destruct fuel' as [| fuel']; [lia |].
  cbn [whole_decode_frames] in Hspec |- *.
  destruct (len (firstn 4 F) =? 0); [exact Hspec |].
  destruct (negb (len (firstn 4 F) =? 4)); [discriminate Hspec |].
  destruct (ZSTD_isLegacy K (MEM_readLE32 (firstn 4 F)));
    [discriminate Hspec |].
  destruct (whole_decode_frame K fuel
              (ZBUFF_decompressInit K (ZBUFF_createDCtx K)) (firstn 4 F)
              (skipn 4 F)) as [[out rest] |] eqn:Hframe;
    [| discriminate Hspec].
  rewrite (whole_decode_frame_fuel fuel fuel' _ _ _ _ Hframe) by lia.
  destruct (whole_decode_frames K fuel rest) as [more |] eqn:Hmore;
    [| discriminate Hspec].
  rewrite (IH fuel' _ _ Hmore) by lia. exact Hspec.
Qed.

(** One frame followed by a sequence of frames is a sequence of frames. *)
Lemma whole_decode_frames_cons (f1 f2 : nat) (F1 F2 B1 B2 : list byte) :
  whole_decode_stream K f1 F1 = Some B1 ->
  whole_decode_frames K f2 F2 = Some B2 ->
  whole_decode_frames K (S (Nat.max f1 f2)) (F1 ++ F2) = Some (B1 ++ B2).
Proof.
  intros H1 H2. unfold whole_decode_stream in H1.
  destruct (Z.eqb_spec (len (firstn 4 F1)) 4) as [Hlen | _];
    cbn [negb] in H1; [| discriminate H1].
  destruct (ZSTD_isLegacy K (MEM_readLE32 (firstn 4 F1))) eqn:Hleg;
    [discriminate H1 |].
  destruct (whole_decode_frame K f1
              (ZBUFF_decompressInit K (ZBUFF_createDCtx K)) (firstn 4 F1)
              (skipn 4 F1)) as [[out rest] |] eqn:Hframe;
    [| discriminate H1].
  destruct rest as [| x t]; [| discriminate H1].
  injection H1 as Hout. subst out.
  cbn [whole_decode_frames].
  destruct (firstn_exact_app 4 F1 F2 Hlen) as [Hfirst Hskip].
  change (Z.to_nat 4) with 4%nat in Hfirst, Hskip.
  rewrite Hfirst, Hskip, Hlen. change (4 =? 0) with false.
  change (negb (4 =? 4)) with false. cbv iota. rewrite Hleg.
  apply (whole_decode_frame_tail f1 F2) in Hframe.
  rewrite (whole_decode_frame_fuel f1 (Nat.max f1 f2) _ _ _ _ Hframe) by lia.
  cbn [app].
  rewrite (whole_decode_frames_fuel f2 (Nat.max f1 f2) _ _ H2) by lia.
  reflexivity.
Qed.

End FrameSpec.

Section SeveralFrames.

Variable K : Collab.

(** One turn of the loop "for each frame" on a current-format frame that
    [whole_decode_frame] decodes: the frame's bytes go to the destination
    and the loop goes on where the frame ends. *)
Lemma frames_loop_step (restored packed : string) (fuel : nat)
  (F out rest' old inBuff : list byte) (dctx : DCtx K) (filesize : Z)
  (w : World) :
  reinit_clean K ->
  len (firstn 4 F) = 4 ->
  ZSTD_isLegacy K (MEM_readLE32 (firstn 4 F)) = false ->
  whole_decode_frame K fuel (ZBUFF_decompressInit K (ZBUFF_createDCtx K))
    (firstn 4 F) (skipn 4 F) = Some (out, rest') ->
  src_rest w = F ->
  fs_lookup restored (fs w) = Some old ->
  len out <= room w ->
  exists fsz dctx' buf' w',
    frames_loop K (S fuel) (f_named restored) (f_named packed) inBuff
      (ZBUFF_recommendedDInSize K) (ZBUFF_recommendedDOutSize K) dctx
      filesize w
    = frames_loop K fuel (f_named restored) (f_named packed) buf'
        (ZBUFF_recommendedDInSize K) (ZBUFF_recommendedDOutSize K) dctx'
        (to_U64 (filesize + fsz)) w'
    /\ evolves restored out w w'
    /\ src_rest w' = rest'
    /\ to_U64 fsz = to_U64 (len out).
Proof.
  intros Hclean Hlen Hleg Hframe Hsrc Hold Hroom.
  set (magic := firstn 4 F) in *.
  cbn [frames_loop]. unfold bind at 1. cbn [fread]. rewrite Hsrc.
  change (firstn (Z.to_nat 4) F) with magic.
  change (skipn (Z.to_nat 4) F) with (skipn 4 F).
  rewrite Hlen. change (4 =? 0) with false. change (negb (4 =? 4)) with false.
  cbv iota. rewrite (MEM_readLE32_store magic inBuff Hlen), Hleg.
  unfold bind at 1, FIO_decompressFrame. unfold bind at 1, decompressInit.
  rewrite (Hclean dctx).
  set (w2 := emit ev_decompressInit
               (emit (ev_fread (f_named packed) 4 magic)
                  (set_src_rest (skipn 4 F) w))).
  destruct (decompress_loop_decodes K restored packed fuel
              (ZBUFF_decompressInit K (ZBUFF_createDCtx K)) magic
              (skipn 4 F) inBuff 0 w2 out rest' old Hframe)
    as (fsz & d' & buf' & w3 & Hrun & Hgrow & Hsrc3 & Hcount).
  - reflexivity.
  - exact Hold.
  - exact Hroom.
  - rewrite Hlen in Hrun. rewrite Hrun. cbn [fst snd].
    exists fsz, d', buf', w3. split; [reflexivity |].
    split; [| split; [exact Hsrc3 | rewrite Hcount, Z.add_0_l; reflexivity]].
    destruct Hgrow as [G1 G2 G3 G4 G5 G6 G7]. constructor; assumption.
Qed.

Lemma to_U64_range (a : Z) : 0 <= to_U64 a < 2 ^ 64.
Proof. unfold to_U64. apply Z.mod_pos_bound. lia. Qed.

Lemma to_U64_sum (filesize fsz a b : Z) :
  to_U64 fsz = to_U64 a ->
  to_U64 (to_U64 (filesize + fsz) + b) = to_U64 (filesize + (a + b)).
Proof.
  intros H. rewrite to_U64_add_l.
  replace (filesize + fsz + b) with (fsz + (filesize + b)) by lia.
  rewrite <- to_U64_add_l, H, to_U64_add_l. f_equal. lia.
Qed.

(** The loop "for each frame" follows [whole_decode_frames]. *)
Lemma frames_loop_decodes (restored packed : string) (fuel : nat) :
  reinit_clean K ->
  forall F B old inBuff dctx filesize w,
    whole_decode_frames K fuel F = Some B ->
    src_rest w = F ->
    fs_lookup restored (fs w) = Some old ->
    len B <= room w ->
    0 <= filesize < 2 ^ 64 ->
    exists w',
      frames_loop K fuel (f_named restored) (f_named packed) inBuff
        (ZBUFF_recommendedDInSize K) (ZBUFF_recommendedDOutSize K) dctx
        filesize w
      = Ok (to_U64 (filesize + len B)) w'
      /\ evolves restored B w w'.
Proof.
  intros Hclean.
  induction fuel as [| fuel IH];
    intros F B old inBuff dctx filesize w Hspec Hsrc Hold Hroom Hsize;
    [discriminate Hspec |].
  cbn [whole_decode_frames] in Hspec.
  destruct (Z.eqb_spec (len (firstn 4 F)) 0) as [Hnone | Hsome].
  - injection Hspec as HB. subst B.
    cbn [frames_loop]. unfold bind at 1. cbn [fread]. rewrite Hsrc.
    change (firstn (Z.to_nat 4) F) with (firstn 4 F).
    rewrite Hnone. change (0 =? 0) with true. cbv iota. unfold ret.
    change (len []) with 0. rewrite Z.add_0_r, (to_U64_small _ Hsize).
    eexists. split; [reflexivity |].
    apply evolves_same; reflexivity.
  - destruct (Z.eqb_spec (len (firstn 4 F)) 4) as [Hlen | _];
      cbn [negb] in Hspec; [| discriminate Hspec].
    destruct (ZSTD_isLegacy K (MEM_readLE32 (firstn 4 F))) eqn:Hleg;
      [discriminate Hspec |].
    destruct (whole_decode_frame K fuel
                (ZBUFF_decompressInit K (ZBUFF_createDCtx K)) (firstn 4 F)
                (skipn 4 F)) as [[out rest] |] eqn:Hframe;
      [| discriminate Hspec].
    destruct (whole_decode_frames K fuel rest) as [more |] eqn:Hmore;
      [| discriminate Hspec].
    injection Hspec as HB. subst B. rewrite len_app in Hroom.
    pose proof (len_nonneg out) as Hout. pose proof (len_nonneg more) as Hm.
    destruct (frames_loop_step restored packed fuel F out rest old inBuff
                dctx filesize w Hclean Hlen Hleg Hframe Hsrc Hold)
      as (fsz & d' & buf' & w1 & Hstep & Hgrow & Hsrc1 & Hcount); [lia |].
    rewrite Hstep.
    destruct (IH rest more (old ++ out) buf' d' (to_U64 (filesize + fsz)) w1
                Hmore Hsrc1) as (w2 & Hrun & Hgrow2).
    + apply (grow_file _ _ _ _ Hgrow). exact Hold.
    + rewrite (grow_room _ _ _ _ Hgrow). lia.
    + apply to_U64_range.
    + rewrite Hrun, (to_U64_sum filesize fsz (len out) (len more) Hcount),
        len_app.
      exists w2. split; [reflexivity |].
      apply (evolves_trans _ _ _ _ _ _ Hgrow Hgrow2).
Qed.

(** [FIO_decompressFilename] in a calm environment, around its loop: the
    loop starts on the whole source with an empty destination; an exit of
    the loop is the exit of the run, and when the loop returns the run
    returns the same count and the destination holds what was appended. *)
Lemma decompress_run_calm (packed restored : string) (fuel : nat)
  (F : list byte) (w : World) :
  fs_lookup packed (fs w) = Some F ->
  String.eqb packed (stdinmark K) = false ->
  fs_lookup restored (fs w) = None ->
  String.eqb restored (stdoutmark K) = false ->
  String.eqb restored (nulmark K) = false ->
  mem_name restored (wprotect w) = false ->
  heap_ok w = true -> fclose_ok w = true ->
  exists w1 buf,
    src_rest w1 = F
    /\ fs_lookup restored (fs w1) = Some []
    /\ room w1 = room w
    /\ (forall code w4,
          frames_loop K fuel (f_named restored) (f_named packed) buf
            (ZBUFF_recommendedDInSize K) (ZBUFF_recommendedDOutSize K)
            (ZBUFF_createDCtx K) 0 w1 = Exit code w4 ->
          FIO_decompressFilename K fuel restored packed w = Exit code w4)
    /\ (forall n w4 B,
          frames_loop K fuel (f_named restored) (f_named packed) buf
            (ZBUFF_recommendedDInSize K) (ZBUFF_recommendedDOutSize K)
            (ZBUFF_createDCtx K) 0 w1 = Ok n w4 ->
          evolves restored B w1 w4 ->
          exists w2,
            FIO_decompressFilename K fuel restored packed w = Ok n w2
            /\ fs_lookup restored (fs w2) = Some B).
Proof.
  intros Hsrc Hstdin Hnew Hstdout Hnul Hfree Hheap Hclose.
  destruct (getFileHandles_calm K packed restored F w Hsrc Hstdin Hnew Hstdout
              Hnul Hfree)
    as (w1 & Hhandles & Hsrc1 & Hfs1 & Hroom1 & Hheap1 & Hclose1 & _ & _).
  exists w1, (repeat x00 (Z.to_nat (ZBUFF_recommendedDInSize K))).
  assert (Hstart : FIO_decompressFilename K fuel restored packed w
    = (filesize <- frames_loop K fuel (f_named restored) (f_named packed)
                     (repeat x00 (Z.to_nat (ZBUFF_recommendedDInSize K)))
                     (ZBUFF_recommendedDInSize K)
                     (ZBUFF_recommendedDOutSize K) (ZBUFF_createDCtx K) 0 ;;
       DISPLAYLEVEL 2 msg_clear_line ;;
       DISPLAYLEVEL 2 (msg_decoded filesize) ;;
       failed <- fclose_output ;;
       if failed then EXM_THROW 38 else ret filesize) w1).
  { unfold FIO_decompressFilename. unfold bind at 1. rewrite Hhandles.
    cbn [fst snd]. unfold bind at 1 2, malloc. rewrite Hheap1, Hheap.
    reflexivity. }
  split; [exact Hsrc1 |].
  split; [rewrite Hfs1; apply fs_lookup_store_same |].
  split; [exact Hroom1 |].
  split.
  - intros code w4 Hloop. rewrite Hstart. unfold bind at 1. rewrite Hloop.
    reflexivity.
  - intros n w4 B Hloop Hgrow. rewrite Hstart. unfold bind at 1.
    rewrite Hloop. unfold bind at 1.
    destruct (DISPLAYLEVEL 2 msg_clear_line w4) as [u1 w5 | |] eqn:Hd1;
      [| discriminate Hd1 ..].
    unfold bind at 1.
    destruct (DISPLAYLEVEL 2 (msg_decoded n) w5)
      as [u2 w6 | |] eqn:Hd2; [| discriminate Hd2 ..].
    apply (evolves_DISPLAYLEVEL restored) in Hd1, Hd2.
    pose proof (evolves_trans _ _ _ _ _ _ Hgrow
                  (evolves_trans _ _ _ _ _ _ Hd1 Hd2)) as Hall.
    rewrite !app_nil_r in Hall. destruct Hall as [G1 G2 G3 G4 G5 G6 G7].
    unfold bind, fclose_output. rewrite G5, Hclose1, Hclose. cbn [negb].
    exists w6. split; [reflexivity |].
    rewrite (G1 []); [reflexivity |]. rewrite Hfs1.
    apply fs_lookup_store_same.
Qed.

(** X5.  A source that holds any number of current-format frames one
    after the other is decoded frame by frame: when the decoder consumes
    whole what it is given and initialising it forgets the frame before,
    [FIO_decompressFilename] returns in a calm environment, the destination
    holds the decoded frames in order, and the count returned is their
    total size modulo 2^64. *)
Theorem frames_decoded_in_sequence (packed restored : string) (fuel : nat)
  (F B : list byte) (w : World) :
  reinit_clean K ->
  whole_decode_frames K fuel F = Some B ->
  fs_lookup packed (fs w) = Some F ->
  String.eqb packed (stdinmark K) = false ->
  fs_lookup restored (fs w) = None ->
  String.eqb restored (stdoutmark K) = false ->
  String.eqb restored (nulmark K) = false ->
  mem_name restored (wprotect w) = false ->
  heap_ok w = true -> fclose_ok w = true -> len B <= room w ->
  exists w2,
    FIO_decompressFilename K fuel restored packed w = Ok (to_U64 (len B)) w2
    /\ fs_lookup restored (fs w2) = Some B.
Proof.
  intros Hclean Hspec Hsrc Hstdin Hnew Hstdout Hnul Hfree Hheap Hclose Hroom.
  destruct (decompress_run_calm packed restored fuel F w Hsrc Hstdin Hnew
              Hstdout Hnul Hfree Hheap Hclose)
    as (w1 & buf & Hsrc1 & Hdst1 & Hroom1 & _ & Hok).
  destruct (frames_loop_decodes restored packed fuel Hclean F B [] buf
              (ZBUFF_createDCtx K) 0 w1 Hspec Hsrc1 Hdst1)
    as (w4 & Hloop & Hgrow); [lia | lia |].
  rewrite Z.add_0_l in Hloop. exact (Hok _ _ _ Hloop Hgrow).
Qed.

(** X6.  With a decoder that consumes all it is given at every call and
    whose initialisation forgets the frame before, two frames written one
    after the other decode to the two contents one after the other: if
    [F1] alone and [F2] alone are decoded by such calls to [B1] and [B2]
    ([whole_decode_stream]), then in a calm environment
    [FIO_decompressFilename] restores the file that holds [F1 ++ F2] to
    [B1 ++ B2] and returns the sum of the two sizes modulo 2^64. *)
Theorem concatenated_frames_decode (packed restored : string)
  (f1 f2 fuel : nat) (F1 F2 B1 B2 : list byte) (w : World) :
  reinit_clean K ->
  whole_decode_stream K f1 F1 = Some B1 ->
  whole_decode_stream K f2 F2 = Some B2 ->
  (f1 + f2 + 3 <= fuel)%nat ->
  fs_lookup packed (fs w) = Some (F1 ++ F2) ->
  String.eqb packed (stdinmark K) = false ->
  fs_lookup restored (fs w) = None ->
  String.eqb restored (stdoutmark K) = false ->
  String.eqb restored (nulmark K) = false ->
  mem_name restored (wprotect w) = false ->
  heap_ok w = true -> fclose_ok w = true -> len B1 + len B2 <= room w ->
  exists w2,
    FIO_decompressFilename K fuel restored packed w
    = Ok (to_U64 (len B1 + len B2)) w2
    /\ fs_lookup restored (fs w2) = Some (B1 ++ B2).
Proof.
  intros Hclean H1 H2 Hfuel Hsrc Hstdin Hnew Hstdout Hnul Hfree Hheap Hclose
    Hroom.
  assert (Hspec : whole_decode_frames K fuel (F1 ++ F2) = Some (B1 ++ B2)).
  { pose proof (whole_decode_frames_cons K f2 1 F2 [] B2 [] H2 eq_refl) as Hb.
    rewrite !app_nil_r in Hb.
    apply (whole_decode_frames_fuel K _ fuel _ _
             (whole_decode_frames_cons K f1 _ F1 F2 B1 B2 H1 Hb)).
    lia. }
  destruct (decompress_run_calm packed restored fuel (F1 ++ F2) w Hsrc Hstdin
              Hnew Hstdout Hnul Hfree Hheap Hclose)
    as (w1 & buf & Hsrc1 & Hdst1 & Hroom1 & _ & Hok).
  destruct (frames_loop_decodes restored packed fuel Hclean (F1 ++ F2)
              (B1 ++ B2) [] buf (ZBUFF_createDCtx K) 0 w1 Hspec Hsrc1 Hdst1)
    as (w4 & Hloop & Hgrow); [rewrite len_app; lia | lia |].
  rewrite Z.add_0_l, len_app in Hloop. exact (Hok _ _ _ Hloop Hgrow).
Qed.

(** After the last frame, one to three stray bytes stop the loop "for each
    frame" with code 31, once every frame before them has been decoded to
    the destination. *)
Lemma frames_loop_trailing (restored packed : string) (T : list byte)
  (fuel : nat) :
  reinit_clean K -> 0 < len T < 4 ->
  forall F B old inBuff dctx filesize w,
    whole_decode_frames K fuel F = Some B ->
    src_rest w = F ++ T ->
    fs_lookup restored (fs w) = Some old ->
    len B <= room w ->
    exists w',
      frames_loop K fuel (f_named restored) (f_named packed) inBuff
        (ZBUFF_recommendedDInSize K) (ZBUFF_recommendedDOutSize K) dctx
        filesize w
      = Exit 31 w'
      /\ evolves restored B w w'.
Proof.
  intros Hclean HT.
  induction fuel as [| fuel IH];
    intros F B old inBuff dctx filesize w Hspec Hsrc Hold Hroom;
    [discriminate Hspec |].
  cbn [whole_decode_frames] in Hspec.
  destruct (Z.eqb_spec (len (firstn 4 F)) 0) as [Hnone | Hsome].
  - injection Hspec as HB. subst B.
    assert (HF : F = []).
    { destruct F as [| x t]; [reflexivity |].
      unfold len in Hnone. cbn in Hnone. lia. }
    subst F. cbn [app] in Hsrc.
    cbn [frames_loop]. unfold bind at 1. cbn [fread]. rewrite Hsrc.
    assert (Hgot : firstn (Z.to_nat 4) T = T)
      by (apply firstn_all2; unfold len in HT; lia).
    rewrite Hgot.
    destruct (Z.eqb_spec (len T) 0) as [E | _]; [lia |].
    destruct (Z.eqb_spec (len T) 4) as [E | _]; [lia |]. cbn [negb].
    unfold EXM_THROW, DISPLAYLEVEL. eexists. split; [reflexivity |].
    destruct (1 <=? _); apply evolves_same; reflexivity.
  - destruct (Z.eqb_spec (len (firstn 4 F)) 4) as [Hlen | _];
      cbn [negb] in Hspec; [| discriminate Hspec].
    destruct (ZSTD_isLegacy K (MEM_readLE32 (firstn 4 F))) eqn:Hleg;
      [discriminate Hspec |].
    destruct (whole_decode_frame K fuel
                (ZBUFF_decompressInit K (ZBUFF_createDCtx K)) (firstn 4 F)
                (skipn 4 F)) as [[out rest] |] eqn:Hframe;
      [| discriminate Hspec].
    destruct (whole_decode_frames K fuel rest) as [more |] eqn:Hmore;
      [| discriminate Hspec].
    injection Hspec as HB. subst B. rewrite len_app in Hroom.
    pose proof (len_nonneg out) as Hout. pose proof (len_nonneg more) as Hm.
    destruct (firstn_exact_app 4 F T Hlen) as [Hfirst Hskip].
    change (Z.to_nat 4) with 4%nat in Hfirst, Hskip.
    apply (whole_decode_frame_tail K fuel T) in Hframe.
    rewrite <- Hfirst, <- Hskip in Hframe.
    rewrite <- Hfirst in Hlen, Hleg.
    destruct (frames_loop_step restored packed fuel (F ++ T) out (rest ++ T)
                old inBuff dctx filesize w Hclean Hlen Hleg Hframe Hsrc Hold)
      as (fsz & d' & buf' & w1 & Hstep & Hgrow & Hsrc1 & Hcount); [lia |].
    rewrite Hstep.
    destruct (IH rest more (old ++ out) buf' d' (to_U64 (filesize + fsz)) w1
                Hmore Hsrc1) as (w2 & Hrun & Hgrow2).
    + apply (grow_file _ _ _ _ Hgrow). exact Hold.
    + rewrite (grow_room _ _ _ _ Hgrow). lia.
    + exists w2. split; [exact Hrun |].
      apply (evolves_trans _ _ _ _ _ _ Hgrow Hgrow2).
Qed.

(** X7.  With a decoder that consumes all it is given at every call and
    whose initialisation forgets the frame before, one to three stray
    bytes after the last frame are a fatal error: if the frames [F] are
    decoded by such calls to [B] ([whole_decode_frames]), then in a calm
    environment [FIO_decompressFilename] on the file that holds [F ++ T],
    with [T] of one to three bytes, exits with code 31 after every frame
    has been decoded, and the destination is left in place and holds
    [B]. *)
Theorem stray_bytes_after_frames (packed restored : string) (fuel : nat)
  (F T B : list byte) (w : World) :
  reinit_clean K ->
  whole_decode_frames K fuel F = Some B ->
  0 < len T < 4 ->
  fs_lookup packed (fs w) = Some (F ++ T) ->
  String.eqb packed (stdinmark K) = false ->
  fs_lookup restored (fs w) = None ->
  String.eqb restored (stdoutmark K) = false ->
  String.eqb restored (nulmark K) = false ->
  mem_name restored (wprotect w) = false ->
  heap_ok w = true -> fclose_ok w = true -> len B <= room w ->
  exists w',
    FIO_decompressFilename K fuel restored packed w = Exit 31 w'
    /\ fs_lookup restored (fs w') = Some B.
Proof.
  intros Hclean Hspec HT Hsrc Hstdin Hnew Hstdout Hnul Hfree Hheap Hclose
    Hroom.
  destruct (decompress_run_calm packed restored fuel (F ++ T) w Hsrc Hstdin
              Hnew Hstdout Hnul Hfree Hheap Hclose)
    as (w1 & buf & Hsrc1 & Hdst1 & Hroom1 & Hexit & _).
  destruct (frames_loop_trailing restored packed T fuel Hclean HT F B [] buf
              (ZBUFF_createDCtx K) 0 w1 Hspec Hsrc1 Hdst1)
    as (w4 & Hloop & Hgrow); [lia |].
  exists w4. split; [exact (Hexit _ _ Hloop) |].
  apply (grow_file _ _ _ _ Hgrow []). exact Hdst1.
Qed.

End SeveralFrames.

Lemma store_reinit_clean : reinit_clean (Store.collab 8 false).
Proof. intros d. reflexivity. Qed.

Lemma frames_decoded_in_sequence_witness :
  exists w2,
    FIO_decompressFilename (Store.collab 8 false) 12 "out" "c"
      two_frames_world = Ok (to_U64 (len (ten_bytes ++ ten_bytes))) w2
    /\ fs_lookup "out" (fs w2) = Some (ten_bytes ++ ten_bytes).
Proof.
  apply (frames_decoded_in_sequence (Store.collab 8 false) "c" "out" 12
           (ten_bytes_frame ++ ten_bytes_frame) (ten_bytes ++ ten_bytes)
           two_frames_world store_reinit_clean);
    try reflexivity.
  vm_compute. discriminate.
Defined.

Lemma concatenated_frames_decode_witness :
  exists w2,
    FIO_decompressFilename (Store.collab 8 false) 23 "out" "c"
      two_frames_world = Ok (to_U64 (len ten_bytes + len ten_bytes)) w2
    /\ fs_lookup "out" (fs w2) = Some (ten_bytes ++ ten_bytes).
Proof.
  apply (concatenated_frames_decode (Store.collab 8 false) "c" "out" 10 10
           23 ten_bytes_frame ten_bytes_frame ten_bytes ten_bytes
           two_frames_world store_reinit_clean);
    try reflexivity; try lia.
  vm_compute. discriminate.
Defined.

Lemma stray_bytes_after_frames_witness :
  exists w',
    FIO_decompressFilename (Store.collab 8 false) 12 "out" "c"
      stray_byte_world = Exit 31 w'
    /\ fs_lookup "out" (fs w') = Some ten_bytes.
Proof.
  apply (stray_bytes_after_frames (Store.collab 8 false) "c" "out" 12
           ten_bytes_frame [x00] ten_bytes stray_byte_world
           store_reinit_clean);
    try reflexivity.
  - vm_compute. split; reflexivity.
  - vm_compute. discriminate.
Defined.

(** ** The files a run leaves alone *)

Section StepsWhen.

Variable R : World -> World -> Prop.
Hypothesis R_trans : forall a b c, R a b -> R b c -> R a c.

(** [steps_bind] for a continuation that relies on a property of the
    value it is given. *)
Lemma steps_bind_when {A B} (P : A -> Prop) (m : M A) (k : A -> M B) :
  steps R m -> (forall w a w1, m w = Ok a w1 -> P a) ->
  (forall a, P a -> steps R (k a)) -> steps R (bind m k).
Proof.
  intros Hm HP Hk w. unfold bind. specialize (Hm w). specialize (HP w).
  destruct (m w) as [a w1 | c w1 | w1]; cbn [final] in *; [| exact Hm ..].
  eapply R_trans; [exact Hm | apply Hk, (HP a w1 eq_refl)].
Qed.

End StepsWhen.

Lemma spares_refl (name : string) (w : World) : spares name w w.
Proof. constructor; reflexivity. Qed.

Lemma spares_trans (name : string) (a b c : World) :
  spares name a b -> spares name b c -> spares name a c.
Proof.
  intros [L1 O1 P1 F1] [L2 O2 P2 F2]. constructor; try congruence.
  intros other H. rewrite F2, F1 by exact H. reflexivity.
Qed.

Lemma spares_same (name : string) (w w' : World) :
  g_displayLevel w' = g_displayLevel w -> g_overwrite w' = g_overwrite w ->
  wprotect w' = wprotect w -> fs w' = fs w -> spares name w w'.
Proof.
  intros HL HO HP HF. constructor; try assumption.
  intros other _. rewrite HF. reflexivity.
Qed.

Lemma opens_spares (name : string) (w w' : World) :
  opens name w w' -> spares name w w'.
Proof. intros [L O P _ _ _ _ F _ _]. constructor; assumption. Qed.

Lemma spares_DISPLAYLEVEL (name : string) (l : Z) (m : message) :
  steps (spares name) (DISPLAYLEVEL l m).
Proof. intros w. apply opens_spares, opens_DISPLAYLEVEL. Qed.

Lemma spares_EXM_THROW (name : string) {A} (error : Z) :
  steps (spares name) (@EXM_THROW A error).
Proof. intros w. apply opens_spares, opens_EXM_THROW. Qed.

Lemma spares_fread (name : string) (n : Z) (f : FILE) :
  steps (spares name) (fread n f).
Proof. intros w. destruct f; apply spares_same; reflexivity. Qed.

(** A write changes no file but the one it is made to. *)
Lemma spares_fwrite (name : string) (data : list byte) (f : FILE) :
  destination_of name f -> steps (spares name) (fwrite data f).
Proof.
  intros Hf w. unfold fwrite.
  destruct f as [| | | n]; try (apply spares_same; reflexivity).
  - destruct (len data <=? room w); apply spares_same; reflexivity.
  - cbn [destination_of] in Hf. subst n.
    destruct (len data <=? room w); cbn [final append_to];
      destruct (fs_lookup name (fs w));
      (constructor; try reflexivity; intros other H;
       cbn [emit set_log set_room fs set_fs set_src_rest];
       apply fs_lookup_store_other; exact H).
Qed.

Ltac spares_bind name :=
  apply (steps_bind _ (spares_trans name)).

Ltac spares_quiet := intros w; apply spares_same; reflexivity.

Section Spared.

Variable K : Collab.
Variable name : string.

Lemma spares_compress_loop (fuel : nat) :
  forall ctx finput foutput inBuff inBuffSize outBuffSize filesize csize,
    destination_of name foutput ->
    steps (spares name)
      (compress_loop K fuel ctx finput foutput inBuff inBuffSize outBuffSize
         filesize csize).
Proof.
  induction fuel as [| fuel IH]; intros; [intros w; apply spares_refl |].
  cbn [compress_loop]. spares_bind name; [apply spares_fread | intros got].
  destruct (len got =? 0); [apply (steps_ret _ (spares_refl name)) |].
  spares_bind name; [spares_quiet | intros r].
  destruct (ZBUFF_isError K _); [apply spares_EXM_THROW |].
  destruct (negb _); [apply spares_EXM_THROW |].
  spares_bind name; [apply spares_fwrite; assumption | intros k].
  destruct (negb _); [apply spares_EXM_THROW | apply IH; assumption].
Qed.

Lemma spares_compress_end_of_frame (ctx : CCtx K) (foutput : FILE)
  (outBuffSize csize : Z) :
  destination_of name foutput ->
  steps (spares name) (compress_end_of_frame K ctx foutput outBuffSize csize).
Proof.
  intros Hf. unfold compress_end_of_frame.
  spares_bind name; [spares_quiet | intros r].
  destruct (negb _); [apply spares_EXM_THROW |].
  spares_bind name; [apply spares_fwrite; assumption | intros k].
  destruct (negb _);
    [apply spares_EXM_THROW | apply (steps_ret _ (spares_refl name))].
Qed.

(** The stream [FIO_getFileHandles] binds to the destination is stdout,
    the discarding sink or the file of that name. *)
Lemma getFileHandles_destination (input_filename : string) (w w1 : World)
  (handles : FILE * FILE) :
  FIO_getFileHandles K input_filename name w = Ok handles w1 ->
  destination_of name (snd handles).
Proof.
  intros Hrun. unfold FIO_getFileHandles in Hrun.
  apply bind_Ok in Hrun. destruct Hrun as (pfinput & w_in & _ & H).
  apply bind_Ok in H. destruct H as (pfoutput & w_o & Hout & H).
  destruct pfinput as [fi |]; [| rewrite EXM_THROW_eq in H; discriminate H].
  destruct pfoutput as [fo |]; [| rewrite EXM_THROW_eq in H; discriminate H].
  injection H as Hh _. subst handles. cbn [snd].
  destruct (String.eqb name (stdoutmark K)).
  - apply bind_Ok in Hout. destruct Hout as (u & w2 & _ & Hout).
    injection Hout as Hfo _. subst fo. exact I.
  - apply bind_Ok in Hout. destruct Hout as (found & w2 & _ & Hout).
    apply bind_Ok in Hout. destruct Hout as (u & w3 & _ & Hout).
    unfold fopen_wb in Hout.
    destruct (mem_name name (wprotect w3)); [discriminate Hout |].
    destruct (String.eqb name (nulmark K)); injection Hout as Hfo _;
      subst fo; [exact I | reflexivity].
Qed.

(** X8.  Whatever the engine does and whatever way the run ends,
    [FIO_compressFilename] changes no file but its destination (the source
    included, when it is another file), and leaves the overwrite flag and
    the notification level as they were. *)
Theorem compress_spares_other_files (fuel : nat) (input_filename : string)
  (cLevel : Z) (w : World) :
  spares name w (final (FIO_compressFilename K fuel name input_filename
                          cLevel w)).
Proof.
  revert w. change (steps (spares name)
                      (FIO_compressFilename K fuel name input_filename cLevel)).
  unfold FIO_compressFilename.
  spares_bind name; [spares_quiet | intros inBuff].
  spares_bind name; [spares_quiet | intros outBuff].
  destruct inBuff as [inBuff |]; [| apply spares_EXM_THROW].
  destruct outBuff as [outBuff |]; [| apply spares_EXM_THROW].
  destruct (ZBUFF_createCCtx K) as [ctx |]; [| apply spares_EXM_THROW].
  apply (steps_bind_when _ (spares_trans name) (fun h => destination_of name (snd h))).
  - intros w. apply opens_spares, getFileHandles_opens.
  - intros w a w1. apply getFileHandles_destination.
  - intros handles Hdest.
    spares_bind name; [spares_quiet | intros filesize].
    destruct (ZBUFF_isError K _); [apply spares_EXM_THROW |].
    spares_bind name; [apply spares_compress_loop; exact Hdest | intros main].
    spares_bind name;
      [apply spares_compress_end_of_frame; exact Hdest | intros fin].
    spares_bind name; [apply spares_DISPLAYLEVEL | intros _].
    spares_bind name; [apply spares_DISPLAYLEVEL | intros _].
    spares_bind name; [spares_quiet | intros failed].
    destruct failed;
      [apply spares_EXM_THROW | apply (steps_ret _ (spares_refl name))].
Qed.

Hypothesis legacy_spares :
  forall foutput finput magic,
    destination_of name foutput ->
    steps (spares name) (FIO_decompressLegacyFrame K foutput finput magic).

Lemma spares_decompress_loop (fuel : nat) :
  forall foutput finput inBuff inBuffSize outBuffSize dctx frameSize readSize,
    destination_of name foutput ->
    steps (spares name)
      (decompress_loop K fuel foutput finput inBuff inBuffSize outBuffSize
         dctx frameSize readSize).
Proof.
  induction fuel as [| fuel IH]; intros; [intros w; apply spares_refl |].
  cbn [decompress_loop]. spares_bind name; [spares_quiet | intros r].
  destruct (ZBUFF_isError K _); [apply spares_EXM_THROW |].
  spares_bind name; [apply spares_fwrite; assumption | intros k].
  destruct (negb _); [apply spares_EXM_THROW |].
  destruct (st_result (snd r) =? 0);
    [apply (steps_ret _ (spares_refl name)) |].
  destruct (negb _); [apply IH; assumption |].
  destruct (inBuffSize <? _); [apply spares_EXM_THROW |].
  spares_bind name; [apply spares_fread | intros got].
  destruct (negb _); [apply spares_EXM_THROW | apply IH; assumption].
Qed.

Lemma spares_frames_loop (fuel : nat) :
  forall foutput finput inBuff inBuffSize outBuffSize dctx filesize,
    destination_of name foutput ->
    steps (spares name)
      (frames_loop K fuel foutput finput inBuff inBuffSize outBuffSize dctx
         filesize).
Proof.
  induction fuel as [| fuel IH]; intros; [intros w; apply spares_refl |].
  cbn [frames_loop]. spares_bind name; [apply spares_fread | intros got].
  destruct (len got =? 0); [apply (steps_ret _ (spares_refl name)) |].
  destruct (negb _); [apply spares_EXM_THROW |].
  destruct (ZSTD_isLegacy K _).
  - spares_bind name; [| intros n; apply IH; assumption].
    intros w. unfold decompressLegacyFrame.
    apply (spares_trans name _ (emit (ev_legacyFrame
             (MEM_readLE32 (store got inBuff))) w));
      [apply spares_same; reflexivity | apply legacy_spares; assumption].
  - spares_bind name; [| intros fr; apply IH; assumption].
    unfold FIO_decompressFrame.
    spares_bind name; [spares_quiet | intros d].
    apply spares_decompress_loop. assumption.
Qed.

(** X9.  Whatever the decoder does and whatever way the run ends,
    [FIO_decompressFilename] changes no file but its destination and
    leaves the overwrite flag and the notification level as they were,
    provided the legacy decoder it hands legacy frames to does the same. *)
Theorem unpacking_spares_other_files (fuel : nat) (input_filename : string)
  (w : World) :
  spares name w (final (FIO_decompressFilename K fuel name input_filename w)).
Proof.
  revert w. change (steps (spares name)
                      (FIO_decompressFilename K fuel name input_filename)).
  unfold FIO_decompressFilename.
  apply (steps_bind_when _ (spares_trans name) (fun h => destination_of name (snd h))).
  - intros w. apply opens_spares, getFileHandles_opens.
  - intros w a w1. apply getFileHandles_destination.
  - intros handles Hdest.
    spares_bind name; [spares_quiet | intros inBuff].
    spares_bind name; [spares_quiet | intros outBuff].
    destruct inBuff as [inBuff |]; [| apply spares_EXM_THROW].
    destruct outBuff as [outBuff |]; [| apply spares_EXM_THROW].
    spares_bind name; [apply spares_frames_loop; exact Hdest | intros n].
    spares_bind name; [apply spares_DISPLAYLEVEL | intros _].
    spares_bind name; [apply spares_DISPLAYLEVEL | intros _].
    spares_bind name; [spares_quiet | intros failed].
    destruct failed;
      [apply spares_EXM_THROW | apply (steps_ret _ (spares_refl name))].
Qed.

End Spared.

Lemma legacy_raw_spares (name : string) (foutput finput : FILE) (magic : Z) :
  destination_of name foutput ->
  steps (spares name) (legacy_raw foutput finput magic).
Proof.
  intros Hf. unfold legacy_raw.
  spares_bind name; [apply spares_fread | intros hdr].
  destruct hdr as [| n [| x t]]; try apply spares_EXM_THROW.
  spares_bind name; [apply spares_fread | intros got].
  destruct (negb _); [apply spares_EXM_THROW |].
  spares_bind name; [apply spares_fwrite; exact Hf | intros k].
  destruct (negb _);
    [apply spares_EXM_THROW | apply (steps_ret _ (spares_refl name))].
Qed.

Lemma unpacking_spares_other_files_witness :
  spares "out" two_frames_world
    (final (FIO_decompressFilename (Store.collab 8 false) 12 "out" "c"
              two_frames_world)).
Proof.
  apply (unpacking_spares_other_files (Store.collab 8 false) "out").
  intros foutput finput magic. apply legacy_raw_spares.
Defined.

(** ** A source that cannot be opened *)

Section MissingSource.

Variable K : Collab.

(** The destination is opened before the source is checked: with a source
    that does not exist, [FIO_getFileHandles] exits with code 12 after it
    has created or emptied the destination. *)
Lemma getFileHandles_missing_source (input_filename output_filename : string)
  (w : World) :
  String.eqb input_filename (stdinmark K) = false ->
  fs_lookup input_filename (fs w) = None ->
  String.eqb output_filename (stdoutmark K) = false ->
  String.eqb output_filename (nulmark K) = false ->
  mem_name output_filename (wprotect w) = false ->
  fs_lookup output_filename (fs w) = None \/ g_overwrite w = true ->
  exists w',
    FIO_getFileHandles K input_filename output_filename w = Exit 12 w'
    /\ fs_lookup output_filename (fs w') = Some []
    /\ heap_ok w' = heap_ok w.
Proof.
  intros Hstdin Hin Hstdout Hnul Hfree Hgate.
  unfold FIO_getFileHandles. rewrite Hstdin, Hstdout, Hnul.
  unfold bind at 1, fopen_rb. rewrite Hin.
  unfold bind at 1. unfold bind at 1, file_exists. cbn [negb fs emit set_log].
  set (w1 := emit (ev_fopen output_filename false)
               (emit (ev_fopen input_filename false) w)).
  assert (Hopen : forall x : World,
            fs x = fs w -> wprotect x = wprotect w -> heap_ok x = heap_ok w ->
            exists w',
              (pfoutput <- fopen_wb K output_filename ;;
               match @None FILE, pfoutput with
               | None, _ => EXM_THROW 12
               | _, None => EXM_THROW 13
               | Some finput, Some foutput => ret (finput, foutput)
               end) x = Exit 12 w'
              /\ fs_lookup output_filename (fs w') = Some []
              /\ heap_ok w' = heap_ok w).
  { intros x Hfs Hwp Hheap. unfold bind, fopen_wb.
    destruct (truncate_source_same output_filename x) as (cut & -> & _).
    rewrite Hwp, Hfree, Hnul, EXM_THROW_eq. eexists.
    split; [reflexivity |]. rewrite thrown_fs. cbn [fs emit set_log set_fs set_src_rest].
    split; [apply fs_lookup_store_same |].
    unfold thrown. destruct (1 <=? _); cbn; exact Hheap. }
  destruct (fs_lookup output_filename (fs w)) as [c |] eqn:Hout.
  - destruct Hgate as [Hnone | Hov]; [discriminate Hnone |].
    unfold bind at 1. unfold overwrite_gate.
    change (g_overwrite w1) with (g_overwrite w). rewrite Hov. cbn [negb].
    apply Hopen; reflexivity.
  - unfold bind at 1. unfold ret at 1. apply Hopen; reflexivity.
Qed.

(** X10.  A source file that does not exist stops both drivers with code
    12, but only after the destination has been opened for writing: a
    destination that did not exist has been created, and one that existed
    (overwrite mode on) has lost its content. *)
Theorem missing_source_empties_destination (fuel : nat)
  (input_filename output_filename : string) (cLevel : Z) (w : World) :
  String.eqb input_filename (stdinmark K) = false ->
  fs_lookup input_filename (fs w) = None ->
  String.eqb output_filename (stdoutmark K) = false ->
  String.eqb output_filename (nulmark K) = false ->
  mem_name output_filename (wprotect w) = false ->
  fs_lookup output_filename (fs w) = None \/ g_overwrite w = true ->
  (exists w',
     FIO_decompressFilename K fuel output_filename input_filename w
     = Exit 12 w'
     /\ fs_lookup output_filename (fs w') = Some [])
  /\
  (heap_ok w = true -> ZBUFF_createCCtx K <> None ->
   exists w',
     FIO_compressFilename K fuel output_filename input_filename cLevel w
     = Exit 12 w'
     /\ fs_lookup output_filename (fs w') = Some []).
Proof.
  intros Hstdin Hin Hstdout Hnul Hfree Hgate.
  destruct (getFileHandles_missing_source input_filename output_filename w
              Hstdin Hin Hstdout Hnul Hfree Hgate) as (w' & Hrun & Hempty & _).
  split.
  - exists w'. unfold FIO_decompressFilename, bind. rewrite Hrun.
    split; [reflexivity | exact Hempty].
  - intros Hheap Hctx. exists w'. unfold FIO_compressFilename.
    unfold bind at 1 2, malloc. rewrite Hheap.
    destruct (ZBUFF_createCCtx K) as [ctx |]; [| contradiction].
    unfold bind at 1. rewrite Hrun. split; [reflexivity | exact Hempty].
Qed.

End MissingSource.

Lemma missing_source_empties_destination_witness :
  (exists w',
     FIO_decompressFilename (Store.collab 8 false) 12 "in" "absent"
       (FIO_overwriteMode_world demo_world) = Exit 12 w'
     /\ fs_lookup "in" (fs w') = Some [])
  /\
  (heap_ok (FIO_overwriteMode_world demo_world) = true ->
   ZBUFF_createCCtx (Store.collab 8 false) <> None ->
   exists w',
     FIO_compressFilename (Store.collab 8 false) 12 "in" "absent" 1
       (FIO_overwriteMode_world demo_world) = Exit 12 w'
     /\ fs_lookup "in" (fs w') = Some []).
Proof.
  apply (missing_source_empties_destination (Store.collab 8 false) 12
           "absent" "in" 1 (FIO_overwriteMode_world demo_world));
    try reflexivity.
  right. reflexivity.
Defined.

(** ** The answer to the overwrite prompt *)

Lemma DISPLAYLEVEL_stdin (l : Z) (m : message) (w w' : World) (u : unit) :
  DISPLAYLEVEL l m w = Ok u w' -> stdin_rest w' = stdin_rest w.
Proof.
  unfold DISPLAYLEVEL. intros H. injection H as _ Hw. subst w'.
  destruct (l <=? g_displayLevel w); reflexivity.
Qed.

Section Answer.

Variable K : Collab.

(** When [FIO_getFileHandles] returns although the destination exists and
    the overwrite flag is unset, the user has been asked, and the answer,
    'Y' or 'y', was the first byte of stdin, which is gone from it. *)
Lemma getFileHandles_answered (input_filename output_filename : string)
  (c : list byte) (w w1 : World) (handles : FILE * FILE) :
  String.eqb output_filename (stdoutmark K) = false ->
  String.eqb output_filename (nulmark K) = false ->
  fs_lookup output_filename (fs w) = Some c ->
  g_overwrite w = false ->
  FIO_getFileHandles K input_filename output_filename w = Ok handles w1 ->
  1 < g_displayLevel w
  /\ exists b, (b = x59 \/ b = x79) /\ stdin_rest w = b :: stdin_rest w1.
Proof.
  intros Hout Hnul Hfile Hov Hrun.
  destruct (getFileHandles_existing K input_filename output_filename c w
              Hout Hnul Hfile)
    as (pfinput & w_in & Hov1 & Hlvl & _ & _ & Hstdin & _ & Heq).
  rewrite Heq in Hrun. clear Heq.
  set (w_e := emit (ev_fopen output_filename false) w_in) in *.
  assert (Hov_e : g_overwrite w_e = false) by (rewrite <- Hov, <- Hov1; reflexivity).
  assert (Hlvl_e : g_displayLevel w_e = g_displayLevel w)
    by (rewrite <- Hlvl; reflexivity).
  assert (Hstdin_e : stdin_rest w_e = stdin_rest w)
    by (rewrite <- Hstdin; reflexivity).
  clearbody w_e.
  apply bind_Ok in Hrun. destruct Hrun as (u & w2 & Hgate & Hrest).
  assert (Hafter : stdin_rest w1 = stdin_rest w2).
  { apply bind_Ok in Hrest. destruct Hrest as (pfo & w3 & Hopen & Hret).
    assert (H3 : stdin_rest w3 = stdin_rest w2).
    { unfold fopen_wb in Hopen.
      destruct (truncate_source_same output_filename w2) as (cut & Hcut & _).
      rewrite Hcut in Hopen.
      destruct (mem_name output_filename (wprotect w2));
        [| destruct (String.eqb output_filename (nulmark K))];
        injection Hopen as _ Hw; subst w3; reflexivity. }
    destruct pfinput as [fi |];
      [| rewrite EXM_THROW_eq in Hret; discriminate Hret].
    destruct pfo as [fo |];
      [| rewrite EXM_THROW_eq in Hret; discriminate Hret].
    injection Hret as _ Hw. subst w1. exact H3. }
  unfold overwrite_gate in Hgate. rewrite Hov_e in Hgate. cbn [negb] in Hgate.
  destruct (Z.leb_spec (g_displayLevel w_e) 1) as [Hlow | Hhigh];
    [rewrite EXM_THROW_eq in Hgate; discriminate Hgate |].
  split; [lia |].
  apply bind_Ok in Hgate. destruct Hgate as (u1 & x1 & Hd1 & Hgate).
  apply bind_Ok in Hgate. destruct Hgate as (u2 & x2 & Hd2 & Hgate).
  apply bind_Ok in Hgate. destruct Hgate as (ch & x3 & Hch & Hgate).
  apply DISPLAYLEVEL_stdin in Hd1, Hd2.
  unfold getchar in Hch.
  destruct (stdin_rest x2) as [| b rest] eqn:Hin.
  - injection Hch as Hb Hx. subst ch x3.
    change (negb (Byte.eqb xff x59) && negb (Byte.eqb xff x79)) with true
      in Hgate.
    cbv iota in Hgate. rewrite EXM_THROW_eq in Hgate. discriminate Hgate.
  - injection Hch as Hb Hx. subst ch x3.
    assert (Hyes : b = x59 \/ b = x79).
    { destruct (Byte.eqb b x59) eqn:E1;
        [left; apply Byte.byte_dec_bl; exact E1 |].
      destruct (Byte.eqb b x79) eqn:E2;
        [right; apply Byte.byte_dec_bl; exact E2 |].
      cbn [negb andb] in Hgate. rewrite EXM_THROW_eq in Hgate.
      discriminate Hgate. }
    assert (Hw2 : stdin_rest w2 = rest).
    { destruct (negb (Byte.eqb b x59) && negb (Byte.eqb b x79));
        [rewrite EXM_THROW_eq in Hgate; discriminate Hgate |].
      injection Hgate as _ Hw. subst w2. reflexivity. }
    exists b. split; [exact Hyes |].
    rewrite <- Hstdin_e, <- Hd1, <- Hd2, Hafter, Hw2. reflexivity.
Qed.

End Answer.

Section PipedSource.

Variable K : Collab.

(** X11.  The answer to the overwrite prompt is read from stdin itself:
    when stdin is the source, the destination exists and the overwrite
    flag is unset, a compression that returns has taken the first byte of
    the piped data, 'Y' or 'y', as the answer, and what it has fed to the
    encoder is the data without that byte. *)
Theorem answer_taken_from_piped_source (fuel : nat)
  (output_filename input_filename : string) (cLevel : Z) (w w' : World)
  (n : Z) (c : list byte) :
  FIO_compressFilename K fuel output_filename input_filename cLevel w
  = Ok n w' ->
  String.eqb input_filename (stdinmark K) = true ->
  String.eqb output_filename (stdoutmark K) = false ->
  String.eqb output_filename (nulmark K) = false ->
  fs_lookup output_filename (fs w) = Some c ->
  g_overwrite w = false ->
  0 < ZBUFF_recommendedCInSize K ->
  exists b evs,
    (b = x59 \/ b = x79)
    /\ log w' = log w ++ evs
    /\ stdin_rest w = b :: concat (fed evs).
Proof.
  intros Hrun Hstdin Hout Hnul Hfile Hov Hpos.
  apply compress_run_trace in Hrun.
  destruct Hrun as (finput & foutput & w1 & setup & evs & Hh & Hlog1 & Hsetup
                    & Hlog & _ & Hfed).
  destruct (getFileHandles_returns K _ _ _ _ _ _ Hh) as (Hin & _).
  specialize (Hin Hstdin). subst finput.
  destruct (getFileHandles_answered K input_filename output_filename c w w1
              _ Hout Hnul Hfile Hov Hh) as (_ & b & Hyes & Hrest).
  exists b, (setup ++ evs).
  split; [exact Hyes |].
  split; [rewrite Hlog, Hlog1, <- app_assoc; reflexivity |].
  rewrite fed_app, (setup_fed setup Hsetup). cbn [app].
  rewrite (Hfed Hpos). exact Hrest.
Qed.

End PipedSource.

Lemma answer_taken_from_piped_source_witness :
  exists b evs,
    (b = x59 \/ b = x79)
    /\ log (final (FIO_compressFilename (Store.collab 8 false) 11 "c" "stdin"
                     1 piped_world)) = log piped_world ++ evs
    /\ stdin_rest piped_world = b :: concat (fed evs).
Proof.
  apply (answer_taken_from_piped_source (Store.collab 8 false) 11 "c" "stdin"
           1 piped_world _ 17 [x01]).
  - vm_compute. reflexivity.
  - reflexivity.
  - reflexivity.
  - reflexivity.
  - reflexivity.
  - reflexivity.
  - reflexivity.
Defined.

(** ** Decompression that ends *)

Section Ends.

Variable K : Collab.
Hypothesis Hwhole : whole_consumer K.

(** With a decoder that consumes all it is given, every turn of the decode
    loop that does not end it takes at least one byte from the source: the
    loop returns or exits within one turn per byte still to read, plus
    one. *)
Lemma decompress_loop_ends (fuel : nat) :
  forall foutput finput inBuff inBuffSize outBuffSize dctx frameSize readSize
         w,
    len (view inBuff 0 readSize) = readSize ->
    (length (pending_input finput w) < fuel)%nat ->
    ends_narrowing finput
      (decompress_loop K fuel foutput finput inBuff inBuffSize outBuffSize
         dctx frameSize readSize) w.
Proof.
  induction fuel as [| fuel IH]; intros until w; intros Hview Hfuel; [lia |].
  unfold ends_narrowing. cbn [decompress_loop].
  unfold bind at 1, decompressContinue at 1. cbv zeta.
  set (src := view inBuff 0 readSize) in *.
  set (r := ZBUFF_decompressContinue K dctx outBuffSize src) in *.
  set (e := ev_decompressContinue src (st_dst (snd r)) (st_used (snd r))
              (st_result (snd r))).
  pose proof (Hwhole dctx outBuffSize src) as Hused. fold r in Hused.
  destruct (ZBUFF_isError K (st_result (snd r)));
    [rewrite EXM_THROW_eq; exact I |].
  rewrite (Hused eq_refl), Hview, Z.sub_diag. change (to_size_t 0) with 0.
  destruct (fwrite_spec (st_dst (snd r)) foutput (emit e w))
    as (k & w2 & Hwrite & _ & Hpend2 & _).
  unfold bind at 1. rewrite Hwrite.
  destruct (negb (k =? len (st_dst (snd r))));
    [rewrite EXM_THROW_eq; exact I |].
  assert (Hsame : pending_input finput w2 = pending_input finput w).
  { rewrite Hpend2. destruct finput; reflexivity. }
  destruct (Z.eqb_spec (st_result (snd r)) 0) as [Hdone | Hmore].
  { unfold ret. rewrite Hsame. apply Nat.le_refl. }
  change (negb (0 =? 0)) with false. cbv iota.
  destruct (inBuffSize <? st_result (snd r));
    [rewrite EXM_THROW_eq; exact I |].
  destruct (fread_spec (st_result (snd r)) finput w2)
    as (w3 & Hread & _ & Hpend3 & _).
  unfold bind at 1. rewrite Hread.
  set (got := firstn (Z.to_nat (st_result (snd r))) (pending_input finput w2))
    in *.
  destruct (Z.eqb_spec (len got) (st_result (snd r))) as [Hgot | _];
    cbn [negb]; [| rewrite EXM_THROW_eq; exact I].
  assert (Hless : (length (pending_input finput w3)
                   < length (pending_input finput w))%nat).
  { rewrite Hpend3, length_skipn, <- Hsame.
    assert (Hlen : (length got <= length (pending_input finput w2))%nat)
      by (unfold got; rewrite length_firstn; lia).
    unfold len in Hgot.
    assert (Hpos : (0 < length got)%nat) by lia.
    unfold got in Hpos. rewrite length_firstn in Hpos. lia. }
  specialize (IH foutput finput (store got inBuff) inBuffSize outBuffSize
                (fst r) (to_U64 (frameSize + len (st_dst (snd r)))) (len got)
                w3 (f_equal len (view_store got inBuff))).
  unfold ends_narrowing in IH.
  destruct (decompress_loop K fuel foutput finput (store got inBuff)
              inBuffSize outBuffSize (fst r)
              (to_U64 (frameSize + len (st_dst (snd r)))) (len got) w3)
    as [res w4 | c w4 | w4]; [| exact I | apply IH; lia].
  assert (H4 : (length (pending_input finput w4)
                <= length (pending_input finput w3))%nat) by (apply IH; lia).
  lia.
Qed.

Hypothesis Hlegacy : legacy_ends K.

(** The loop "for each frame" ends as well: every frame takes its four
    magic bytes from the source. *)
Lemma frames_loop_ends (fuel : nat) :
  forall foutput finput inBuff inBuffSize outBuffSize dctx filesize w,
    (length (pending_input finput w) < fuel)%nat ->
    ends_narrowing finput
      (frames_loop K fuel foutput finput inBuff inBuffSize outBuffSize dctx
         filesize) w.
Proof.
  induction fuel as [| fuel IH]; intros until w; intros Hfuel; [lia |].
  unfold ends_narrowing. cbn [frames_loop].
  destruct (fread_spec 4 finput w) as (w1 & Hread & _ & Hpend1 & _).
  unfold bind at 1. rewrite Hread.
  set (got := firstn (Z.to_nat 4) (pending_input finput w)) in *.
  assert (Hle1 : (length (pending_input finput w1)
                  <= length (pending_input finput w))%nat)
    by (rewrite Hpend1, length_skipn; lia).
  destruct (Z.eqb_spec (len got) 0) as [Hnone | Hsome];
    [unfold ret; exact Hle1 |].
  destruct (Z.eqb_spec (len got) 4) as [Hlen | _]; cbn [negb];
    [| rewrite EXM_THROW_eq; exact I].
  assert (Hless : (length (pending_input finput w1) + 4
                   <= length (pending_input finput w))%nat).
  { rewrite Hpend1, length_skipn. unfold len, got in Hlen.
    rewrite length_firstn in Hlen. lia. }
  destruct (ZSTD_isLegacy K (MEM_readLE32 (store got inBuff))).
  - unfold bind at 1, decompressLegacyFrame.
    pose proof (Hlegacy foutput finput (MEM_readLE32 (store got inBuff))
                  (emit (ev_legacyFrame (MEM_readLE32 (store got inBuff))) w1))
      as Hleg.
    unfold ends_narrowing in Hleg.
    destruct (FIO_decompressLegacyFrame K foutput finput _ _)
      as [n w2 | c w2 | w2]; [| exact I | contradiction].
    assert (H2 : (length (pending_input finput w2)
                  <= length (pending_input finput w1))%nat).
    { etransitivity; [exact Hleg |]. destruct finput; apply Nat.le_refl. }
    specialize (IH foutput finput (store got inBuff) inBuffSize outBuffSize
                  dctx (to_U64 (filesize + n)) w2).
    unfold ends_narrowing in IH.
    destruct (frames_loop K fuel foutput finput (store got inBuff) inBuffSize
                outBuffSize dctx (to_U64 (filesize + n)) w2)
      as [m w3 | c w3 | w3]; [| exact I | apply IH; lia].
    assert (H3 : (length (pending_input finput w3)
                  <= length (pending_input finput w2))%nat) by (apply IH; lia).
    lia.
  - unfold bind at 1, FIO_decompressFrame. unfold bind at 1, decompressInit.
    pose proof (decompress_loop_ends fuel foutput finput (store got inBuff)
                  inBuffSize outBuffSize (ZBUFF_decompressInit K dctx) 0 4
                  (emit ev_decompressInit w1)) as Hframe.
    unfold ends_narrowing in Hframe.
    destruct (decompress_loop K fuel foutput finput (store got inBuff)
                inBuffSize outBuffSize (ZBUFF_decompressInit K dctx) 0 4
                (emit ev_decompressInit w1))
      as [fr w2 | c w2 | w2]; [| exact I |].
    + assert (H2 : (length (pending_input finput w2)
                    <= length (pending_input finput w1))%nat).
      { etransitivity; [apply Hframe |].
        - rewrite <- Hlen. f_equal. apply view_store.
        - change (pending_input finput (emit ev_decompressInit w1))
            with (pending_input finput w1). lia.
        - destruct finput; apply Nat.le_refl. }
      specialize (IH foutput finput (snd fr) inBuffSize outBuffSize
                    (snd (fst fr)) (to_U64 (filesize + fst (fst fr))) w2).
      unfold ends_narrowing in IH.
      destruct (frames_loop K fuel foutput finput (snd fr) inBuffSize
                  outBuffSize (snd (fst fr))
                  (to_U64 (filesize + fst (fst fr))) w2)
        as [m w3 | c w3 | w3]; [| exact I | apply IH; lia].
      assert (H3 : (length (pending_input finput w3)
                    <= length (pending_input finput w2))%nat)
        by (apply IH; lia).
      lia.
    + apply Hframe.
      * rewrite <- Hlen. f_equal. apply view_store.
      * change (pending_input finput (emit ev_decompressInit w1))
            with (pending_input finput w1). lia.
Qed.

(** X12.  With a decoder that consumes all it is given (and a legacy
    decoder that ends), decompression always ends: with one turn of fuel
    per byte the source can hold, plus one, [FIO_decompressFilename]
    returns or exits, whatever the source holds. *)
Theorem decompression_ends (fuel : nat)
  (output_filename input_filename : string) (w : World) :
  (input_bound input_filename w < fuel)%nat ->
  (exists n w',
     FIO_decompressFilename K fuel output_filename input_filename w = Ok n w')
  \/ (exists code w',
        FIO_decompressFilename K fuel output_filename input_filename w
        = Exit code w').
Proof.
  intros Hfuel.
  assert (Hends : forall w',
            FIO_decompressFilename K fuel output_filename input_filename w
            <> Fuel_out w').
  { intros w' H. unfold FIO_decompressFilename in H. unfold bind at 1 in H.
    destruct (FIO_getFileHandles K input_filename output_filename w)
      as [[finput foutput] w1 | c w1 | w1] eqn:Hh;
      [| discriminate H | exact (total_FIO_getFileHandles K _ _ _ _ Hh)].
    pose proof (getFileHandles_pending K _ _ _ _ _ _ Hh) as Hpend.
    cbn [fst snd] in H. unfold bind at 1 2, malloc in H.
    destruct (heap_ok w1); [| discriminate H].
    pose proof (frames_loop_ends fuel foutput finput
                  (repeat x00 (Z.to_nat (ZBUFF_recommendedDInSize K)))
                  (ZBUFF_recommendedDInSize K) (ZBUFF_recommendedDOutSize K)
                  (ZBUFF_createDCtx K) 0 w1) as Hloop.
    unfold ends_narrowing in Hloop. unfold bind at 1 in H.
    destruct (frames_loop K fuel foutput finput _ _ _ _ 0 w1)
      as [n w2 | c w2 | w2]; [| discriminate H | apply Hloop; lia].
    unfold bind, DISPLAYLEVEL, fclose_output in H.
    destruct (negb _); discriminate H. }
  destruct (FIO_decompressFilename K fuel output_filename input_filename w)
    as [n w' | c w' | w'];
    [left; eauto | right; eauto | exfalso; exact (Hends w' eq_refl)].
Qed.

End Ends.

Lemma bytes_eqb_len (a b : list byte) : bytes_eqb a b = true -> len a = len b.
Proof.
  revert b. induction a as [| x a IH]; intros [| y b] H; try discriminate H;
    [reflexivity |].
  cbn [bytes_eqb] in H. apply andb_prop in H. destruct H as [_ H].
  unfold len in *. cbn [length]. specialize (IH b H). lia.
Qed.

Lemma store_whole_consumer (limit : Z) (lazy : bool) :
  whole_consumer (Store.collab limit lazy).
Proof.
  intros d cap src. cbn [ZBUFF_decompressContinue ZBUFF_isError Store.collab].
  destruct d as [| | n |]; cbn [Store.dc].
  - destruct (bytes_eqb src Store.magic) eqn:E; [| discriminate].
    intros _. cbn [snd st_used]. symmetry. apply (bytes_eqb_len _ _ E).
  - destruct src as [| b [| x t]]; try discriminate.
    destruct (byte_val b =? 0); intros _; reflexivity.
  - destruct (Z.eqb_spec (len src) n) as [E | _]; [| discriminate].
    intros _. cbn [snd st_used]. symmetry. exact E.
  - discriminate.
Qed.

Lemma legacy_raw_ends (foutput finput : FILE) (magic : Z) (w : World) :
  ends_narrowing finput (legacy_raw foutput finput magic) w.
Proof.
  unfold ends_narrowing, legacy_raw.
  destruct (fread_spec 1 finput w) as (w1 & Hread & _ & Hpend1 & _).
  unfold bind at 1. rewrite Hread.
  destruct (firstn (Z.to_nat 1) (pending_input finput w)) as [| n [| x t]];
    try exact I.
  destruct (fread_spec (byte_val n) finput w1) as (w2 & Hread2 & _ & Hpend2 & _).
  unfold bind at 1. rewrite Hread2.
  destruct (negb _); [exact I |].
  destruct (fwrite_spec (firstn (Z.to_nat (byte_val n)) (pending_input finput w1))
              foutput w2) as (k & w3 & Hwrite & _ & Hpend3 & _).
  unfold bind at 1. rewrite Hwrite.
  destruct (negb _); [exact I |]. unfold ret.
  rewrite Hpend3, Hpend2, Hpend1, !length_skipn. lia.
Qed.

Lemma decompression_ends_witness :
  (exists n w',
     FIO_decompressFilename (Store.collab 8 false) 19 "out" "c"
       stray_byte_world = Ok n w')
  \/ (exists code w',
        FIO_decompressFilename (Store.collab 8 false) 19 "out" "c"
          stray_byte_world = Exit code w').
Proof.
  apply (decompression_ends (Store.collab 8 false)
           (store_whole_consumer 8 false)).
  - intros foutput finput magic w. apply legacy_raw_ends.
  - vm_compute. lia.
Defined.

(** ** Notification level 0 *)

Lemma quiet_refl (w : World) : quiet w w.
Proof.
  intros H. split; [exact H |]. exists []. rewrite app_nil_r.
  split; [reflexivity | constructor].
Qed.

Lemma quiet_trans (a b c : World) : quiet a b -> quiet b c -> quiet a c.
Proof.
  intros Hab Hbc Ha. destruct (Hab Ha) as (Hb & e1 & L1 & S1).
  destruct (Hbc Hb) as (Hc & e2 & L2 & S2).
  split; [exact Hc |]. exists (e1 ++ e2).
  split; [rewrite L2, L1, app_assoc; reflexivity |].
  apply Forall_app. split; assumption.
Qed.

(** A step that keeps the level and logs one silent event. *)
Lemma quiet_emit (e : event) (w w' : World) :
  silent e -> g_displayLevel w' = g_displayLevel w -> log w' = log w ++ [e] ->
  quiet w w'.
Proof.
  intros He Hl Hlog H. split; [congruence |]. exists [e].
  split; [exact Hlog | repeat constructor; exact He].
Qed.

Lemma quiet_DISPLAYLEVEL (l : Z) (m : message) :
  0 < l -> steps quiet (DISPLAYLEVEL l m).
Proof.
  intros Hl w H. unfold DISPLAYLEVEL. cbn [final]. rewrite H.
  destruct (Z.leb_spec l 0) as [Hle | _]; [lia |]. apply quiet_refl, H.
Qed.

Lemma quiet_EXM_THROW {A} (error : Z) : steps quiet (@EXM_THROW A error).
Proof. intros w. apply (quiet_DISPLAYLEVEL 1 (msg_error error)). lia. Qed.

Lemma quiet_fread (n : Z) (f : FILE) : steps quiet (fread n f).
Proof.
  intros w. destruct (fread_spec n f w) as (w1 & Hr & Hlog & _ & _ & _ & _ & Hl).
  rewrite Hr. cbn [final]. refine (quiet_emit _ w w1 _ Hl Hlog). exact I.
Qed.

Lemma quiet_fwrite (data : list byte) (f : FILE) : steps quiet (fwrite data f).
Proof.
  intros w. destruct (fwrite_spec data f w) as (k & w1 & Hr & Hlog & _ & _ & Hl).
  rewrite Hr. cbn [final]. refine (quiet_emit _ w w1 _ Hl Hlog). exact I.
Qed.

Ltac quiet_bind := apply (steps_bind _ quiet_trans).

Ltac quiet_now :=
  cbn [final];
  first [ apply quiet_refl
        | eapply quiet_emit; [| reflexivity | reflexivity]; exact I ].

Ltac quiet_logged := let w := fresh "w" in intros w; quiet_now.

Section LevelZero.

Variable K : Collab.

(** At level 0 the gate does not ask: it exits. *)
Lemma quiet_overwrite_gate (output_filename : string) :
  steps quiet (overwrite_gate output_filename).
Proof.
  intros w H. unfold overwrite_gate.
  destruct (negb (g_overwrite w)); [| apply quiet_refl, H].
  rewrite H. change (0 <=? 1) with true. cbv iota.
  apply quiet_EXM_THROW, H.
Qed.

Lemma quiet_getFileHandles (input_filename output_filename : string) :
  steps quiet (FIO_getFileHandles K input_filename output_filename).
Proof.
  unfold FIO_getFileHandles. quiet_bind.
  - destruct (String.eqb input_filename (stdinmark K)).
    + quiet_bind; [apply quiet_DISPLAYLEVEL; lia | intros _].
      apply (steps_ret _ quiet_refl).
    + intros w. unfold fopen_rb.
      destruct (fs_lookup input_filename (fs w)); quiet_now.
  - intros pfinput. quiet_bind.
    + destruct (String.eqb output_filename (stdoutmark K)).
      * quiet_bind; [apply quiet_DISPLAYLEVEL; lia | intros _].
        apply (steps_ret _ quiet_refl).
      * quiet_bind.
        { destruct (negb _); [| apply (steps_ret _ quiet_refl)].
          unfold file_exists. quiet_logged. }
        intros found. quiet_bind.
        { destruct found; [apply quiet_overwrite_gate |].
          apply (steps_ret _ quiet_refl). }
        intros _ w. unfold fopen_wb.
        destruct (mem_name output_filename (wprotect w)); [quiet_now |].
        destruct (String.eqb output_filename (nulmark K)); [quiet_now |].
        destruct (truncate_source_same output_filename w) as (cut & -> & _).
        quiet_now.
    + intros pfoutput. destruct pfinput, pfoutput; try apply quiet_EXM_THROW.
      apply (steps_ret _ quiet_refl).
Qed.

Lemma quiet_compress_loop (fuel : nat) :
  forall ctx finput foutput inBuff inBuffSize outBuffSize filesize csize,
    steps quiet
      (compress_loop K fuel ctx finput foutput inBuff inBuffSize outBuffSize
         filesize csize).
Proof.
  induction fuel as [| fuel IH]; intros; [intros w; apply quiet_refl |].
  cbn [compress_loop]. quiet_bind; [apply quiet_fread | intros got].
  destruct (len got =? 0); [apply (steps_ret _ quiet_refl) |].
  quiet_bind; [unfold compressContinue; quiet_logged | intros r].
  destruct (ZBUFF_isError K _); [apply quiet_EXM_THROW |].
  destruct (negb _); [apply quiet_EXM_THROW |].
  quiet_bind; [apply quiet_fwrite | intros k].
  destruct (negb _); [apply quiet_EXM_THROW | apply IH].
Qed.

Lemma quiet_compressFilename (fuel : nat)
  (output_filename input_filename : string) (cLevel : Z) :
  steps quiet (FIO_compressFilename K fuel output_filename input_filename
                 cLevel).
Proof.
  unfold FIO_compressFilename.
  quiet_bind; [unfold malloc; quiet_logged | intros inBuff].
  quiet_bind; [unfold malloc; quiet_logged | intros outBuff].
  destruct inBuff as [inBuff |]; [| apply quiet_EXM_THROW].
  destruct outBuff as [outBuff |]; [| apply quiet_EXM_THROW].
  destruct (ZBUFF_createCCtx K) as [ctx |]; [| apply quiet_EXM_THROW].
  quiet_bind; [apply quiet_getFileHandles | intros handles].
  quiet_bind; [unfold FIO_getFileSize; quiet_logged | intros filesize].
  destruct (ZBUFF_isError K _); [apply quiet_EXM_THROW |].
  quiet_bind; [apply quiet_compress_loop | intros main].
  quiet_bind.
  { unfold compress_end_of_frame.
    quiet_bind; [unfold compressEnd; quiet_logged | intros r].
    destruct (negb _); [apply quiet_EXM_THROW |].
    quiet_bind; [apply quiet_fwrite | intros k].
    destruct (negb _); [apply quiet_EXM_THROW | apply (steps_ret _ quiet_refl)]. }
  intros fin.
  quiet_bind; [apply quiet_DISPLAYLEVEL; lia | intros _].
  quiet_bind; [apply quiet_DISPLAYLEVEL; lia | intros _].
  quiet_bind; [unfold fclose_output; quiet_logged | intros failed].
  destruct failed; [apply quiet_EXM_THROW | apply (steps_ret _ quiet_refl)].
Qed.

(** X13.  Notification level 0 silences the compressor: after
    [FIO_setNotificationLevel 0], whatever the engine does and whatever
    way the run ends, [FIO_compressFilename] displays nothing, not even the
    error of an exit, and never reads an answer from stdin (an existing
    destination is refused without a prompt). *)
Theorem level_zero_is_silent (fuel : nat)
  (output_filename input_filename : string) (cLevel : Z) (w : World) :
  exists evs,
    log (final ((FIO_setNotificationLevel 0 ;;
                 FIO_compressFilename K fuel output_filename input_filename
                   cLevel) w))
    = log w ++ evs
    /\ Forall silent evs.
Proof.
  unfold bind, FIO_setNotificationLevel.
  destruct (quiet_compressFilename fuel output_filename input_filename cLevel
              (set_displayLevel (to_U32 0) w) eq_refl) as (_ & evs & Hlog & Hs).
  exists evs. split; [exact Hlog | exact Hs].
Qed.

End LevelZero.

(** ** Exit codes *)

Lemma exits_bind (codes : list Z) {A B} (m : M A) (k : A -> M B) :
  exits_with codes m -> (forall a, exits_with codes (k a)) ->
  exits_with codes (bind m k).
Proof.
  intros Hm Hk w c w' H. unfold bind in H.
  destruct (m w) as [a w1 | c1 w1 | w1] eqn:E.
  - exact (Hk a w1 c w' H).
  - injection H as Hc Hw. subst c1 w1. exact (Hm w c w' E).
  - discriminate H.
Qed.

(** A computation that always returns. *)
Lemma exits_never (codes : list Z) {A} (m : M A) :
  (forall w, exists a w1, m w = Ok a w1) -> exits_with codes m.
Proof.
  intros Hm w c w' H. destruct (Hm w) as (a & w1 & E). rewrite E in H.
  discriminate H.
Qed.

Lemma exits_EXM_THROW (codes : list Z) {A} (error : Z) :
  In error codes -> exits_with codes (@EXM_THROW A error).
Proof.
  intros Hin w c w' H. unfold EXM_THROW, DISPLAYLEVEL in H. cbn [final] in H.
  injection H as Hc Hw. subst c w'. split; [exact Hin |].
  destruct (Z.leb_spec 1 (g_displayLevel w)) as [_ | Hlow].
  - intros _. exists (log w). reflexivity.
  - intros Hl. lia.
Qed.

Lemma exits_more (codes codes' : list Z) {A} (m : M A) :
  incl codes codes' -> exits_with codes m -> exits_with codes' m.
Proof.
  intros Hincl Hm w c w' H. destruct (Hm w c w' H) as [Hin Hlast].
  split; [apply Hincl, Hin | exact Hlast].
Qed.

Ltac exits_ok := apply exits_never; intros; do 2 eexists; reflexivity.

Ltac exits_throw :=
  apply exits_EXM_THROW; unfold compress_codes, decompress_codes; cbn [In];
  tauto.

Lemma exits_fread (codes : list Z) (n : Z) (f : FILE) :
  exits_with codes (fread n f).
Proof.
  apply exits_never. intros w.
  destruct (fread_spec n f w) as (w1 & H & _). eauto.
Qed.

Lemma exits_fwrite (codes : list Z) (data : list byte) (f : FILE) :
  exits_with codes (fwrite data f).
Proof.
  apply exits_never. intros w.
  destruct (fwrite_spec data f w) as (k & w1 & H & _). eauto.
Qed.

Section ExitCodes.

Variable K : Collab.

Lemma exits_getFileHandles (input_filename output_filename : string) :
  exits_with [11; 12; 13]
    (FIO_getFileHandles K input_filename output_filename).
Proof.
  unfold FIO_getFileHandles. apply exits_bind.
  - destruct (String.eqb input_filename (stdinmark K)); [exits_ok |].
    apply exits_never. intros w. unfold fopen_rb.
    destruct (fs_lookup input_filename (fs w)); eauto.
  - intros pfinput. apply exits_bind.
    + destruct (String.eqb output_filename (stdoutmark K)); [exits_ok |].
      apply exits_bind; [destruct (negb _); exits_ok | intros found].
      apply exits_bind.
      * destruct found; [| exits_ok].
        intros w c w' H. unfold overwrite_gate in H.
        destruct (negb (g_overwrite w)); [| discriminate H].
        destruct (g_displayLevel w <=? 1);
          [revert H; apply exits_EXM_THROW; cbn [In]; tauto |].
        revert w c w' H.
        change (exits_with [11; 12; 13]
          (DISPLAYLEVEL 2 (msg_already_exists output_filename) ;;
           DISPLAYLEVEL 2 msg_overwrite_prompt ;;
           ch <- getchar ;;
           if negb (Byte.eqb ch x59) && negb (Byte.eqb ch x79)
           then EXM_THROW 11 else ret tt)).
        apply exits_bind; [exits_ok | intros _].
        apply exits_bind; [exits_ok | intros _].
        apply exits_bind.
        { apply exits_never. intros w. unfold getchar.
          destruct (stdin_rest w); eauto. }
        intros ch. destruct (_ && _); [exits_throw | exits_ok].
      * intros _. apply exits_never. intros w. unfold fopen_wb.
        destruct (mem_name output_filename (wprotect w)); [eauto |].
        destruct (String.eqb output_filename (nulmark K)); eauto.
    + intros pfoutput. destruct pfinput, pfoutput;
        first [exits_throw | exits_ok].
Qed.

Lemma exits_compress_loop (fuel : nat) :
  forall ctx finput foutput inBuff inBuffSize outBuffSize filesize csize,
    exits_with compress_codes
      (compress_loop K fuel ctx finput foutput inBuff inBuffSize outBuffSize
         filesize csize).
Proof.
  induction fuel as [| fuel IH]; intros; [intros w c w' H; discriminate H |].
  cbn [compress_loop]. apply exits_bind; [apply exits_fread | intros got].
  destruct (len got =? 0); [exits_ok |].
  apply exits_bind; [exits_ok | intros r].
  destruct (ZBUFF_isError K _); [exits_throw |].
  destruct (negb _); [exits_throw |].
  apply exits_bind; [apply exits_fwrite | intros k].
  destruct (negb _); [exits_throw | apply IH].
Qed.

(** X14.  [FIO_compressFilename] leaves the process through [exit] with
    the codes 11, 12, 13 and 21 to 28 only, whatever the engine does; and
    unless the notification level is 0, the last thing it did was to
    display the error of that code. *)
Theorem compress_exit_codes (fuel : nat)
  (output_filename input_filename : string) (cLevel : Z) (w w' : World)
  (code : Z) :
  FIO_compressFilename K fuel output_filename input_filename cLevel w
  = Exit code w' ->
  In code compress_codes
  /\ (1 <= g_displayLevel w' ->
      exists evs, log w' = evs ++ [ev_display (msg_error code)]).
Proof.
  revert w code w'.
  change (exits_with compress_codes
            (FIO_compressFilename K fuel output_filename input_filename
               cLevel)).
  unfold FIO_compressFilename.
  apply exits_bind; [exits_ok | intros inBuff].
  apply exits_bind; [exits_ok | intros outBuff].
  destruct inBuff as [inBuff |]; [| exits_throw].
  destruct outBuff as [outBuff |]; [| exits_throw].
  destruct (ZBUFF_createCCtx K) as [ctx |]; [| exits_throw].
  apply exits_bind.
  { apply (exits_more [11; 12; 13]); [| apply exits_getFileHandles].
    intros x Hx. unfold compress_codes. cbn [In] in *. tauto. }
  intros handles. apply exits_bind; [exits_ok | intros filesize].
  destruct (ZBUFF_isError K _); [exits_throw |].
  apply exits_bind; [apply exits_compress_loop | intros main].
  apply exits_bind.
  { unfold compress_end_of_frame. apply exits_bind; [exits_ok | intros r].
    destruct (negb _); [exits_throw |].
    apply exits_bind; [apply exits_fwrite | intros k].
    destruct (negb _); [exits_throw | exits_ok]. }
  intros fin. apply exits_bind; [exits_ok | intros _].
  apply exits_bind; [exits_ok | intros _].
  apply exits_bind; [exits_ok | intros failed].
  destruct failed; [exits_throw | exits_ok].
Qed.

Section LegacyExits.

Variable legacy_codes : list Z.
Hypothesis legacy_exits :
  forall foutput finput magic,
    exits_with legacy_codes (FIO_decompressLegacyFrame K foutput finput magic).

Lemma exits_decompress_loop (fuel : nat) :
  forall foutput finput inBuff inBuffSize outBuffSize dctx frameSize readSize,
    exits_with decompress_codes
      (decompress_loop K fuel foutput finput inBuff inBuffSize outBuffSize
         dctx frameSize readSize).
Proof.
  induction fuel as [| fuel IH]; intros; [intros w c w' H; discriminate H |].
  cbn [decompress_loop]. apply exits_bind; [exits_ok | intros r].
  destruct (ZBUFF_isError K _); [exits_throw |].
  apply exits_bind; [apply exits_fwrite | intros k].
  destruct (negb _); [exits_throw |].
  destruct (st_result (snd r) =? 0); [exits_ok |].
  destruct (negb _); [apply IH |].
  destruct (inBuffSize <? _); [exits_throw |].
  apply exits_bind; [apply exits_fread | intros got].
  destruct (negb _); [exits_throw | apply IH].
Qed.

Lemma exits_frames_loop (fuel : nat) :
  forall foutput finput inBuff inBuffSize outBuffSize dctx filesize,
    exits_with (decompress_codes ++ legacy_codes)
      (frames_loop K fuel foutput finput inBuff inBuffSize outBuffSize dctx
         filesize).
Proof.
  induction fuel as [| fuel IH]; intros; [intros w c w' H; discriminate H |].
  cbn [frames_loop]. apply exits_bind; [apply exits_fread | intros got].
  destruct (len got =? 0); [exits_ok |].
  destruct (negb _).
  { apply (exits_more decompress_codes); [apply incl_appl, incl_refl |].
    exits_throw. }
  destruct (ZSTD_isLegacy K _).
  - apply exits_bind; [| intros n; apply IH].
    apply (exits_more legacy_codes); [apply incl_appr, incl_refl |].
    intros w c w' H. unfold decompressLegacyFrame in H.
    exact (legacy_exits _ _ _ _ c w' H).
  - apply exits_bind; [| intros fr; apply IH].
    apply (exits_more decompress_codes); [apply incl_appl, incl_refl |].
    unfold FIO_decompressFrame. apply exits_bind; [exits_ok | intros d].
    apply exits_decompress_loop.
Qed.

(** X15.  [FIO_decompressFilename] leaves the process through [exit] with
    the codes 11, 12, 13, 31 and 33 to 38, or with a code of the legacy
    decoder, and with no other; and unless the notification level is 0,
    the last thing it did was to display the error of that code, provided
    the legacy decoder does so too. *)
Theorem unpacking_exit_codes (fuel : nat)
  (output_filename input_filename : string) (w w' : World) (code : Z) :
  FIO_decompressFilename K fuel output_filename input_filename w
  = Exit code w' ->
  In code (decompress_codes ++ legacy_codes)
  /\ (1 <= g_displayLevel w' ->
      exists evs, log w' = evs ++ [ev_display (msg_error code)]).
Proof.
  revert w code w'.
  change (exits_with (decompress_codes ++ legacy_codes)
            (FIO_decompressFilename K fuel output_filename input_filename)).
  unfold FIO_decompressFilename.
  apply exits_bind.
  { apply (exits_more [11; 12; 13]); [| apply exits_getFileHandles].
    intros x Hx. apply in_or_app. left. unfold decompress_codes.
    cbn [In] in *. tauto. }
  intros handles. apply exits_bind; [exits_ok | intros inBuff].
  apply exits_bind; [exits_ok | intros outBuff].
  assert (Hthrow : forall A, exits_with (decompress_codes ++ legacy_codes)
                               (@EXM_THROW A 33)).
  { intros A. apply (exits_more decompress_codes);
      [apply incl_appl, incl_refl | exits_throw]. }
  destruct inBuff as [inBuff |]; [| apply Hthrow].
  destruct outBuff as [outBuff |]; [| apply Hthrow].
  apply exits_bind; [apply exits_frames_loop | intros n].
  apply exits_bind; [exits_ok | intros _].
  apply exits_bind; [exits_ok | intros _].
  apply exits_bind; [exits_ok | intros failed].
  destruct failed; [| exits_ok].
  apply (exits_more decompress_codes);
    [apply incl_appl, incl_refl | exits_throw].
Qed.

End LegacyExits.

End ExitCodes.

Lemma legacy_raw_exits (foutput finput : FILE) (magic : Z) :
  exits_with [41; 42] (legacy_raw foutput finput magic).
Proof.
  unfold legacy_raw. apply exits_bind; [apply exits_fread | intros hdr].
  destruct hdr as [| n [| x t]]; try exits_throw.
  apply exits_bind; [apply exits_fread | intros got].
  destruct (negb _); [exits_throw |].
  apply exits_bind; [apply exits_fwrite | intros k].
  destruct (negb _); [exits_throw | exits_ok].
Qed.

Lemma unpacking_exit_codes_witness :
  In 31 (decompress_codes ++ [41; 42])
  /\ (1 <= g_displayLevel
             (final (FIO_decompressFilename (Store.collab 8 false) 12 "out"
                       "c" stray_byte_world)) ->
      exists evs,
        log (final (FIO_decompressFilename (Store.collab 8 false) 12 "out"
                      "c" stray_byte_world))
        = evs ++ [ev_display (msg_error 31)]).
Proof.
  apply (unpacking_exit_codes (Store.collab 8 false) [41; 42]
           legacy_raw_exits 12 "out" "c" stray_byte_world).
  vm_compute. reflexivity.
Defined.

Lemma compress_exit_codes_witness :
  In 11 compress_codes
  /\ (1 <= g_displayLevel
             (final (FIO_compressFilename (Store.collab 8 false) 11 "in" "absent"
                       1 demo_world)) ->
      exists evs,
        log (final (FIO_compressFilename (Store.collab 8 false) 11 "in" "absent"
                      1 demo_world))
        = evs ++ [ev_display (msg_error 11)]).
Proof.
  apply (compress_exit_codes (Store.collab 8 false) 11 "in" "absent" 1 demo_world).
  vm_compute. reflexivity.
Defined.
